(** * RFC 3986 URI parser and percent codec of pkg/uri (uri.c, uri.h)

    A shallow embedding of the C sources [src/pkg/uri/uri.h] and
    [src/pkg/uri/uri.c].

    Conventions of the embedding.

    - A C [char] value is a [Z]: the value the program reads through a
      [char *].  Whether plain [char] is signed is left to the C
      implementation; the only places where it shows are the conversions
      of an [int] to [char] and the promotion of a [char] to [int], so the
      codec (and every function that calls it) takes the flag
      [char_signed].
    - A [const char *] into a NUL-terminated buffer is the list of the
      chars from the pointed position up to the terminating NUL, the NUL
      excluded: reading [*(p + i)] is [peek p i], which yields 0 from the
      terminator on, and [p + n] is [skipn n p].  The difference of two
      pointers into one buffer is the difference of the lengths.
    - A [char *] field of the record is a [ptr]: [NULL], the marker
      [(void * ) 0xeeeeeeee] that the macro [FREE] leaves behind, or an
      owned heap string.
    - [free] applied to the marker is undefined behaviour in C (the
      address is odd-aligned garbage, never a result of malloc); the
      model makes it the explicit outcome [Fault].  Allocation never
      fails in the model. *)

From Stdlib Require Import String Ascii ZArith Bool List Lia.
Import ListNotations.
Local Open Scope Z_scope.

(** ** Chars and C strings *)

Definition cstr : Type := list Z.

Definition ch (a : ascii) : Z := Z.of_N (N_of_ascii a).
Arguments ch a%_char.

(** The chars of a string literal (all literals used here are ASCII). *)
Definition lit (s : string) : cstr := map ch (list_ascii_of_string s).
Arguments lit s%_string.

(** [*(p + i)] *)
Definition peek (p : cstr) (i : nat) : Z := nth i p 0.

(** [strlen (p)] *)
Definition strlen (p : cstr) : nat := length p.

(** [cur - str], for [cur] at or after [str] in the same buffer. *)
Definition ptr_diff (cur str : cstr) : nat := (length str - length cur)%nat.

(** [strndup (str, n)] *)
Definition strndup (str : cstr) (n : nat) : cstr := firstn n str.

(** ** Outcomes: a normal result, or undefined behaviour *)

Inductive outcome (A : Type) : Type :=
| Done (a : A)
| Fault.
Arguments Done {A} a.
Arguments Fault {A}.

Definition bind {A B : Type} (c : outcome A) (k : A -> outcome B) : outcome B :=
  match c with
  | Done a => k a
  | Fault => Fault
  end.

Notation "x <- c ;; k" := (bind c (fun x => k))
  (at level 61, c at next level, right associativity).
Notation "' pat <- c ;; k" := (bind c (fun x => match x with pat => k end))
  (at level 61, pat pattern, c at next level, right associativity).

(** ** Pointers to heap objects *)

Inductive ptr (A : Type) : Type :=
| NULL
| FREED                       (* (void * ) 0xeeeeeeee *)
| Owned (a : A).
Arguments NULL {A}.
Arguments FREED {A}.
Arguments Owned {A} a.

Definition is_null {A : Type} (p : ptr A) : bool :=
  match p with NULL => true | _ => false end.

Definition is_owned {A : Type} (p : ptr A) : bool :=
  match p with Owned _ => true | _ => false end.

(** [free (p)]: a no-op on NULL, releases an owned block, undefined on the
    marker. *)
Definition free {A : Type} (p : ptr A) : outcome unit :=
  match p with
  | FREED => Fault
  | _ => Done tt
  end.

(** [if (p != NULL) free (p);] *)
Definition free_if_set {A : Type} (p : ptr A) : outcome unit :=
  if negb (is_null p) then free p else Done tt.

(** The macro [FREE(ptr)] of uri.h: the new value of [ptr]. *)
Definition FREE {A : Type} (p : ptr A) : outcome (ptr A) :=
  if negb (is_null p) then _ <- free p ;; Done FREED else Done p.

(** [if (p != NULL) FREE (p);] as [URI_TRIM] writes it for each field. *)
Definition FREE_if_set {A : Type} (p : ptr A) : outcome (ptr A) :=
  if negb (is_null p) then FREE p else Done p.

(** ** The record [struct _bURI] *)

Record bURI : Type := mkURI {
  scheme    : ptr cstr;
  opaque    : ptr cstr;
  authority : ptr cstr;
  server    : ptr cstr;
  user      : ptr cstr;
  port      : Z;
  path      : ptr cstr;
  fragment  : ptr cstr;
  cleanup   : Z;
  query     : ptr cstr;
  query_raw : ptr cstr
}.

Definition set_scheme (v : ptr cstr) (u : bURI) : bURI :=
  mkURI v (opaque u) (authority u) (server u) (user u) (port u) (path u)
        (fragment u) (cleanup u) (query u) (query_raw u).
Definition set_opaque (v : ptr cstr) (u : bURI) : bURI :=
  mkURI (scheme u) v (authority u) (server u) (user u) (port u) (path u)
        (fragment u) (cleanup u) (query u) (query_raw u).
Definition set_authority (v : ptr cstr) (u : bURI) : bURI :=
  mkURI (scheme u) (opaque u) v (server u) (user u) (port u) (path u)
        (fragment u) (cleanup u) (query u) (query_raw u).
Definition set_server (v : ptr cstr) (u : bURI) : bURI :=
  mkURI (scheme u) (opaque u) (authority u) v (user u) (port u) (path u)
        (fragment u) (cleanup u) (query u) (query_raw u).
Definition set_user (v : ptr cstr) (u : bURI) : bURI :=
  mkURI (scheme u) (opaque u) (authority u) (server u) v (port u) (path u)
        (fragment u) (cleanup u) (query u) (query_raw u).
Definition set_port (v : Z) (u : bURI) : bURI :=
  mkURI (scheme u) (opaque u) (authority u) (server u) (user u) v (path u)
        (fragment u) (cleanup u) (query u) (query_raw u).
Definition set_path (v : ptr cstr) (u : bURI) : bURI :=
  mkURI (scheme u) (opaque u) (authority u) (server u) (user u) (port u) v
        (fragment u) (cleanup u) (query u) (query_raw u).
Definition set_fragment (v : ptr cstr) (u : bURI) : bURI :=
  mkURI (scheme u) (opaque u) (authority u) (server u) (user u) (port u)
        (path u) v (cleanup u) (query u) (query_raw u).
Definition set_cleanup (v : Z) (u : bURI) : bURI :=
  mkURI (scheme u) (opaque u) (authority u) (server u) (user u) (port u)
        (path u) (fragment u) v (query u) (query_raw u).
Definition set_query (v : ptr cstr) (u : bURI) : bURI :=
  mkURI (scheme u) (opaque u) (authority u) (server u) (user u) (port u)
        (path u) (fragment u) (cleanup u) v (query_raw u).
Definition set_query_raw (v : ptr cstr) (u : bURI) : bURI :=
  mkURI (scheme u) (opaque u) (authority u) (server u) (user u) (port u)
        (path u) (fragment u) (cleanup u) (query u) v.

(** [minio_uri_new]: malloc followed by memset to zero. *)
Definition minio_uri_new : bURI :=
  mkURI NULL NULL NULL NULL NULL 0 NULL NULL 0 NULL NULL.

(** A 32-bit [int] with two's-complement wrap-around. *)
Definition wrap_int (z : Z) : Z := (z + 2 ^ 31) mod 2 ^ 32 - 2 ^ 31.

(** ** Character classes of uri.h *)

Definition IS_LOWALPHA (x : Z) : bool := (ch "a" <=? x) && (x <=? ch "z").
Definition IS_UPALPHA (x : Z) : bool := (ch "A" <=? x) && (x <=? ch "Z").
Definition IS_ALPHA (x : Z) : bool := IS_LOWALPHA x || IS_UPALPHA x.
Definition IS_DIGIT (x : Z) : bool := (ch "0" <=? x) && (x <=? ch "9").
Definition IS_ALPHANUM (x : Z) : bool := IS_ALPHA x || IS_DIGIT x.
Definition IS_MARK (x : Z) : bool :=
  (x =? ch "-") || (x =? ch "_") || (x =? ch ".") ||
  (x =? ch "!") || (x =? ch "~") || (x =? ch "*") ||
  (x =? ch "'") || (x =? ch "(") || (x =? ch ")").
Definition IS_UNRESERVED (x : Z) : bool := IS_ALPHANUM x || IS_MARK x.

Definition IS_UNWISE (p : cstr) : bool :=
  (peek p 0 =? ch "{") || (peek p 0 =? ch "}") || (peek p 0 =? ch "|") ||
  (peek p 0 =? ch "\") || (peek p 0 =? ch "^") || (peek p 0 =? ch "[") ||
  (peek p 0 =? ch "]") || (peek p 0 =? ch "`").

Definition ISA_DIGIT (p : cstr) : bool :=
  (ch "0" <=? peek p 0) && (peek p 0 <=? ch "9").
Definition ISA_ALPHA (p : cstr) : bool :=
  ((ch "a" <=? peek p 0) && (peek p 0 <=? ch "z")) ||
  ((ch "A" <=? peek p 0) && (peek p 0 <=? ch "Z")).
Definition ISA_HEXDIG (p : cstr) : bool :=
  ISA_DIGIT p || ((ch "a" <=? peek p 0) && (peek p 0 <=? ch "f")) ||
  ((ch "A" <=? peek p 0) && (peek p 0 <=? ch "F")).
Definition ISA_SUB_DELIM (p : cstr) : bool :=
  (peek p 0 =? ch "!") || (peek p 0 =? ch "$") || (peek p 0 =? ch "&") ||
  (peek p 0 =? ch "(") || (peek p 0 =? ch ")") || (peek p 0 =? ch "*") ||
  (peek p 0 =? ch "+") || (peek p 0 =? ch ",") || (peek p 0 =? ch ";") ||
  (peek p 0 =? ch "=") || (peek p 0 =? ch "'").
Definition ISA_UNRESERVED (p : cstr) : bool :=
  ISA_ALPHA p || ISA_DIGIT p || (peek p 0 =? ch "-") ||
  (peek p 0 =? ch ".") || (peek p 0 =? ch "_") || (peek p 0 =? ch "~").
Definition ISA_PCT_ENCODED (p : cstr) : bool :=
  (peek p 0 =? ch "%") && ISA_HEXDIG (skipn 1 p) && ISA_HEXDIG (skipn 2 p).
Definition ISA_PCHAR (p : cstr) : bool :=
  ISA_UNRESERVED p || ISA_PCT_ENCODED p || ISA_SUB_DELIM p ||
  (peek p 0 =? ch ":") || (peek p 0 =? ch "@").

Definition is_hex (c : Z) : bool :=
  ((ch "0" <=? c) && (c <=? ch "9")) ||
  ((ch "a" <=? c) && (c <=? ch "f")) ||
  ((ch "A" <=? c) && (c <=? ch "F")).

(** ** Scanning loops

    No character class of uri.h contains NUL, so every scanning loop of
    the parser stops at the terminator at the latest; the two loop shapes
    below take that exit on the empty remainder. *)

(** [while (cond (cur)) cur++;] *)
Fixpoint while_incr (cond : cstr -> bool) (cur : cstr) : cstr :=
  match cur with
  | [] => cur
  | _ :: cur1 => if cond cur then while_incr cond cur1 else cur
  end.

(** [while (cond (cur)) NEXT (cur);] with [NEXT(p)] advancing by 3 on a
    percent sign and by 1 otherwise.  A percent sign passes a loop
    condition only as the head of a pct-encoded triplet (see
    [pct_encoded_triplet]), so [p += 3] stays inside the buffer. *)
Fixpoint while_NEXT (cond : cstr -> bool) (cur : cstr) : cstr :=
  match cur with
  | [] => cur
  | c :: cur1 =>
      if cond cur then
        if c =? ch "%" then
          match cur1 with
          | _ :: _ :: cur3 => while_NEXT cond cur3
          | _ => []
          end
        else while_NEXT cond cur1
      else cur
  end.

Section Platform.

(** Whether plain [char] is a signed type (x86, x86-64) or not (ARM,
    PowerPC). *)
Variable char_signed : bool.

(** Conversion of an [int] value to plain [char] and to [unsigned char]. *)
Definition to_char (v : Z) : Z :=
  if char_signed then (v + 128) mod 256 - 128 else v mod 256.
Definition to_uchar (v : Z) : Z := v mod 256.

(** ** Percent codec *)

(** First hex digit of a triplet: the three-way [if] that assigns [*out]. *)
Definition unescape_hi (c out : Z) : Z :=
  if (ch "0" <=? c) && (c <=? ch "9") then to_char (c - ch "0")
  else if (ch "a" <=? c) && (c <=? ch "f") then to_char (c - ch "a" + 10)
  else if (ch "A" <=? c) && (c <=? ch "F") then to_char (c - ch "A" + 10)
  else out.

(** Second hex digit: [*out = *out * 16 + ...]. *)
Definition unescape_lo (c out : Z) : Z :=
  if (ch "0" <=? c) && (c <=? ch "9") then to_char (out * 16 + (c - ch "0"))
  else if (ch "a" <=? c) && (c <=? ch "f")
       then to_char (out * 16 + (c - ch "a") + 10)
  else if (ch "A" <=? c) && (c <=? ch "F")
       then to_char (out * 16 + (c - ch "A") + 10)
  else out.

(** The [while (len > 0)] loop of [minio_uri_string_unescape]: the bytes
    written through [out] before the final terminator. *)
Fixpoint unescape_loop (len : nat) (inp : cstr) : cstr :=
  match len with
  | O => []
  | S len1 =>
      if (2 <? len)%nat && (peek inp 0 =? ch "%") &&
         is_hex (peek inp 1) && is_hex (peek inp 2)
      then
        match len1 with
        | S (S len3) =>
            (* [is_hex] holds of both digits, so the initial content of
               [*out], given as 0, is never read *)
            unescape_lo (peek inp 2) (unescape_hi (peek inp 1) 0)
              :: unescape_loop len3 (skipn 3 inp)
        | _ => []
        end
      else peek inp 0 :: unescape_loop len1 (skipn 1 inp)
  end.

(** [minio_uri_string_unescape (str, len, NULL)]; [None] is a null [str].
    The result is the run of bytes written through [out] before the final
    terminator; read as a C string it ends at the first NUL among them
    (a decoded [%00]).  The code is meant for [len] at most
    [strlen (str)]: beyond that it reads past the terminator, where
    [peek] yields 0. *)
Definition minio_uri_string_unescape (str : option cstr) (len : Z) : ptr cstr :=
  match str with
  | None => NULL
  | Some s =>
      let len := if len <=? 0 then Z.of_nat (strlen s) else len in
      if len <? 0 then NULL
      else Owned (unescape_loop (Z.to_nat len) s)
  end.

(** [strchr (list, c) != NULL] *)
Definition strchr (list : cstr) (c : Z) : bool :=
  existsb (Z.eqb c) list || (c =? 0).

(** The two branches that store one hex digit of [val]. *)
Definition escape_digit (val : Z) : Z :=
  if val <=? 9 then to_char (ch "0" + val)
  else to_char (ch "A" + val - 10).

(** The loop of [minio_uri_string_escape] over the chars of [in] up to
    the terminator. *)
Fixpoint escape_loop (inp list : cstr) : cstr :=
  match inp with
  | [] => []
  | c :: in1 =>
      if negb (c =? ch "@") && negb (IS_UNRESERVED c) && negb (strchr list c)
      then
        ch "%" :: escape_digit (to_uchar (Z.shiftr c 4))
               :: escape_digit (to_uchar (Z.land c 15))
               :: escape_loop in1 list
      else c :: escape_loop in1 list
  end.

(** [minio_uri_string_escape (str, list)]; [None] is a null [str]. *)
Definition minio_uri_string_escape (str : option cstr) (list : cstr) : ptr cstr :=
  match str with
  | None => NULL
  | Some [] => Owned []
  | Some s =>
      if negb (0 <? Z.of_nat (strlen s)) then NULL
      else Owned (escape_loop s list)
  end.

(** ** Grammar productions

    Every production takes the sink [uri] ([None] is a null sink) and the
    cursor [*str], and yields the return code, the sink and the value of
    [*str] on return.  The productions are static and always called with
    the address of a local cursor, so their [str == NULL] guard is never
    taken. *)

Definition result : Type := Z * option bURI * cstr.

(** [if (uri != NULL) { ... }] *)
Definition on_uri (uri : option bURI) (f : bURI -> outcome bURI)
  : outcome (option bURI) :=
  match uri with
  | Some u => u' <- f u ;; Done (Some u')
  | None => Done None
  end.

(** The recurring choice between [strndup (str, n)] under raw mode
    ([cleanup & 2]) and [minio_uri_string_unescape (str, n, NULL)]. *)
Definition capture (u : bURI) (str : cstr) (n : nat) : ptr cstr :=
  if negb (Z.land (cleanup u) 2 =? 0) then Owned (strndup str n)
  else minio_uri_string_unescape (Some str) (Z.of_nat n).

(** [(uri != NULL) && (uri->cleanup & 1)] *)
Definition unwise_allowed (uri : option bURI) : bool :=
  match uri with
  | Some u => negb (Z.land (cleanup u) 1 =? 0)
  | None => false
  end.

Definition minio_rfc3986_scheme (uri : option bURI) (str : cstr)
  : outcome result :=
  if negb (ISA_ALPHA str) then Done (2, uri, str)
  else
    let cur :=
      while_incr (fun cur => ISA_ALPHA cur || ISA_DIGIT cur ||
                             (peek cur 0 =? ch "+") || (peek cur 0 =? ch "-") ||
                             (peek cur 0 =? ch "."))
                 (skipn 1 str) in
    uri' <- on_uri uri (fun u =>
      _ <- free_if_set (scheme u) ;;
      Done (set_scheme (Owned (strndup str (ptr_diff cur str))) u)) ;;
    Done (0, uri', cur).

Definition minio_rfc3986_fragment (uri : option bURI) (str : cstr)
  : outcome result :=
  let cur :=
    while_NEXT (fun cur => ISA_PCHAR cur || (peek cur 0 =? ch "/") ||
                           (peek cur 0 =? ch "?") || (peek cur 0 =? ch "[") ||
                           (peek cur 0 =? ch "]") ||
                           (unwise_allowed uri && IS_UNWISE cur))
               str in
  uri' <- on_uri uri (fun u =>
    _ <- free_if_set (fragment u) ;;
    Done (set_fragment (capture u str (ptr_diff cur str)) u)) ;;
  Done (0, uri', cur).

Definition minio_rfc3986_query (uri : option bURI) (str : cstr)
  : outcome result :=
  let cur :=
    while_NEXT (fun cur => ISA_PCHAR cur || (peek cur 0 =? ch "/") ||
                           (peek cur 0 =? ch "?") ||
                           (unwise_allowed uri && IS_UNWISE cur))
               str in
  uri' <- on_uri uri (fun u =>
    _ <- free_if_set (query u) ;;
    let u := set_query (capture u str (ptr_diff cur str)) u in
    _ <- free_if_set (query_raw u) ;;
    Done (set_query_raw (Owned (strndup str (ptr_diff cur str))) u)) ;;
  Done (0, uri', cur).

(** The digit loop of [minio_rfc3986_port]. *)
Fixpoint port_loop (uri : option bURI) (cur : cstr) : option bURI * cstr :=
  match cur with
  | [] => (uri, cur)
  | c :: cur1 =>
      if ISA_DIGIT cur then
        port_loop
          (option_map
             (fun u => set_port (wrap_int (port u * 10 + (c - ch "0"))) u) uri)
          cur1
      else (uri, cur)
  end.

Definition minio_rfc3986_port (uri : option bURI) (str : cstr)
  : outcome result :=
  if ISA_DIGIT str then
    let '(uri', cur) := port_loop (option_map (set_port 0) uri) str in
    Done (0, uri', cur)
  else Done (1, uri, str).

(** The scanning loop of [minio_rfc3986_user_info]: the cursor after the
    userinfo-shaped prefix. *)
Definition user_info_scan (str : cstr) : cstr :=
  while_NEXT (fun cur => ISA_UNRESERVED cur || ISA_PCT_ENCODED cur ||
                         ISA_SUB_DELIM cur || (peek cur 0 =? ch ":"))
             str.

Definition minio_rfc3986_user_info (uri : option bURI) (str : cstr)
  : outcome result :=
  let cur := user_info_scan str in
  if peek cur 0 =? ch "@" then
    uri' <- on_uri uri (fun u =>
      _ <- free_if_set (user u) ;;
      Done (set_user (capture u str (ptr_diff cur str)) u)) ;;
    Done (0, uri', cur)
  else Done (1, uri, str).

(** [minio_rfc3986_dec_octet (&cur)]: the return code and the cursor. *)
Definition minio_rfc3986_dec_octet (str : cstr) : Z * cstr :=
  let cur := str in
  if negb (ISA_DIGIT cur) then (1, str)
  else if negb (ISA_DIGIT (skipn 1 cur)) then (0, skipn 1 cur)
  else if negb (peek cur 0 =? ch "0") && ISA_DIGIT (skipn 1 cur) &&
          negb (ISA_DIGIT (skipn 2 cur))
       then (0, skipn 2 cur)
  else if (peek cur 0 =? ch "1") && ISA_DIGIT (skipn 1 cur) &&
          ISA_DIGIT (skipn 2 cur)
       then (0, skipn 3 cur)
  else if (peek cur 0 =? ch "2") && (ch "0" <=? peek cur 1) &&
          (peek cur 1 <=? ch "4") && ISA_DIGIT (skipn 2 cur)
       then (0, skipn 3 cur)
  else if (peek cur 0 =? ch "2") && (peek cur 1 =? ch "5") &&
          (ch "0" <=? peek cur 2) && (peek cur 1 <=? ch "5")
       then (0, skipn 3 cur)
  else (1, str).

(** The dotted-quad attempt of [minio_rfc3986_host]: [Some cur] when the
    code reaches [goto found], [None] when it jumps to [notipv4].  As in
    the source, the cursor steps over the first dot only. *)
Definition host_ipv4 (cur : cstr) : option cstr :=
  let '(r, cur) := minio_rfc3986_dec_octet cur in
  if negb (r =? 0) then None else
  if negb (peek cur 0 =? ch ".") then None else
  let cur := skipn 1 cur in
  let '(r, cur) := minio_rfc3986_dec_octet cur in
  if negb (r =? 0) then None else
  if negb (peek cur 0 =? ch ".") then None else
  let '(r, cur) := minio_rfc3986_dec_octet cur in
  if negb (r =? 0) then None else
  if negb (peek cur 0 =? ch ".") then None else
  let '(r, cur) := minio_rfc3986_dec_octet cur in
  if negb (r =? 0) then None else
  Some cur.

(** The code of [minio_rfc3986_host] from the label [found] on. *)
Definition host_found (uri : option bURI) (host cur : cstr) : outcome result :=
  uri' <- on_uri uri (fun u =>
    _ <- free_if_set (authority u) ;;
    let u := set_authority NULL u in
    _ <- free_if_set (server u) ;;
    if negb (ptr_diff cur host =? 0)%nat
    then Done (set_server (capture u host (ptr_diff cur host)) u)
    else Done (set_server NULL u)) ;;
  Done (0, uri', cur).

Definition minio_rfc3986_host (uri : option bURI) (str : cstr)
  : outcome result :=
  let cur := str in
  let host := cur in
  if peek cur 0 =? ch "[" then
    let cur :=
      while_incr (fun cur => negb (peek cur 0 =? ch "]") &&
                             negb (peek cur 0 =? 0))
                 (skipn 1 cur) in
    if negb (peek cur 0 =? ch "]") then Done (1, uri, str)
    else host_found uri host (skipn 1 cur)
  else
    match (if ISA_DIGIT cur then host_ipv4 cur else None) with
    | Some cur => host_found uri host cur
    | None =>
        let cur :=
          while_NEXT (fun cur => ISA_UNRESERVED cur || ISA_PCT_ENCODED cur ||
                                 ISA_SUB_DELIM cur)
                     str in
        host_found uri host cur
    end.

Definition minio_rfc3986_authority (uri : option bURI) (str : cstr)
  : outcome result :=
  '(ret, uri, cur) <- minio_rfc3986_user_info uri str ;;
  let cur :=
    if negb (ret =? 0) || negb (peek cur 0 =? ch "@") then str
    else skipn 1 cur in
  '(ret, uri, cur) <- minio_rfc3986_host uri cur ;;
  if negb (ret =? 0) then Done (1, uri, str) else
  if peek cur 0 =? ch ":" then
    '(ret, uri, cur) <- minio_rfc3986_port uri (skipn 1 cur) ;;
    if negb (ret =? 0) then Done (1, uri, str) else Done (0, uri, cur)
  else Done (0, uri, cur).

(** [minio_rfc3986_segment (&cur, forbid, empty)]: the return code and
    the cursor. *)
Definition minio_rfc3986_segment (str : cstr) (forbid : Z) (empty : bool)
  : Z * cstr :=
  if negb (ISA_PCHAR str) then ((if negb empty then 1 else 0), str)
  else
    (0, while_NEXT (fun cur => ISA_PCHAR cur && negb (peek cur 0 =? forbid))
                   str).

(** The loop over the slash-led segments shared by the four path
    productions: while the cursor reads a slash, step over it, call
    [minio_rfc3986_segment (&cur, 0, 1)] and leave with its code when
    that is not 0.  Each round consumes the slash,
    so a fuel of the length of the remainder is never used up (see
    [slash_segments_fuel]). *)
Fixpoint slash_segments (fuel : nat) (cur : cstr) : Z * cstr :=
  if peek cur 0 =? ch "/" then
    match fuel with
    | O => (0, cur)
    | S fuel' =>
        let '(ret, cur') := minio_rfc3986_segment (skipn 1 cur) 0 true in
        if negb (ret =? 0) then (ret, cur') else slash_segments fuel' cur'
    end
  else (0, cur).

(** The block that stores the span from [str] to [cur] in [uri->path]. *)
Definition store_path (uri : option bURI) (str cur : cstr)
  : outcome (option bURI) :=
  on_uri uri (fun u =>
    _ <- free_if_set (path u) ;;
    if negb (ptr_diff cur str =? 0)%nat
    then Done (set_path (capture u str (ptr_diff cur str)) u)
    else Done (set_path NULL u)).

Definition minio_rfc3986_path_ab_empty (uri : option bURI) (str : cstr)
  : outcome result :=
  let '(ret, cur) := slash_segments (length str) str in
  if negb (ret =? 0) then Done (ret, uri, str) else
  uri' <- store_path uri str cur ;;
  Done (ret, uri', cur).

Definition minio_rfc3986_path_absolute (uri : option bURI) (str : cstr)
  : outcome result :=
  if negb (peek str 0 =? ch "/") then Done (1, uri, str) else
  let cur := skipn 1 str in
  let '(ret, cur) := minio_rfc3986_segment cur 0 false in
  if ret =? 0 then
    let '(ret, cur) := slash_segments (length cur) cur in
    if negb (ret =? 0) then Done (ret, uri, str) else
    uri' <- store_path uri str cur ;;
    Done (ret, uri', cur)
  else
    (* the code falls through to the store with [ret] still set *)
    uri' <- store_path uri str cur ;;
    Done (ret, uri', cur).

Definition minio_rfc3986_path_rootless (uri : option bURI) (str : cstr)
  : outcome result :=
  let '(ret, cur) := minio_rfc3986_segment str 0 false in
  if negb (ret =? 0) then Done (ret, uri, str) else
  let '(ret, cur) := slash_segments (length cur) cur in
  if negb (ret =? 0) then Done (ret, uri, str) else
  uri' <- store_path uri str cur ;;
  Done (0, uri', cur).

Definition minio_rfc3986_path_no_scheme (uri : option bURI) (str : cstr)
  : outcome result :=
  let '(ret, cur) := minio_rfc3986_segment str (ch ":") false in
  if negb (ret =? 0) then Done (ret, uri, str) else
  let '(ret, cur) := slash_segments (length cur) cur in
  if negb (ret =? 0) then Done (ret, uri, str) else
  uri' <- store_path uri str cur ;;
  Done (0, uri', cur).

(** The path-empty branch: [if (uri->path != NULL) free (uri->path);
    uri->path = NULL;]. *)
Definition path_empty (uri : option bURI) : outcome (option bURI) :=
  on_uri uri (fun u => _ <- free_if_set (path u) ;; Done (set_path NULL u)).

Definition minio_rfc3986_hier_part (uri : option bURI) (str : cstr)
  : outcome result :=
  let cur := str in
  if (peek cur 0 =? ch "/") && (peek cur 1 =? ch "/") then
    '(ret, uri, cur) <- minio_rfc3986_authority uri (skipn 2 cur) ;;
    if negb (ret =? 0) then Done (ret, uri, str) else
    '(ret, uri, cur) <- minio_rfc3986_path_ab_empty uri cur ;;
    if negb (ret =? 0) then Done (ret, uri, str) else
    Done (0, uri, cur)
  else if peek cur 0 =? ch "/" then
    '(ret, uri, cur) <- minio_rfc3986_path_absolute uri cur ;;
    if negb (ret =? 0) then Done (ret, uri, str) else Done (0, uri, cur)
  else if ISA_PCHAR cur then
    '(ret, uri, cur) <- minio_rfc3986_path_rootless uri cur ;;
    if negb (ret =? 0) then Done (ret, uri, str) else Done (0, uri, cur)
  else
    uri <- path_empty uri ;;
    Done (0, uri, cur).

(** The macro [URI_TRIM(uri)]: [FREE] on eight of the nine string fields,
    in the order of the macro; [query_raw] and [port] are not mentioned
    by it. *)
Definition URI_TRIM (uri : option bURI) : outcome (option bURI) :=
  on_uri uri (fun u =>
    v <- FREE_if_set (scheme u) ;;
    let u := set_scheme v u in
    v <- FREE_if_set (server u) ;;
    let u := set_server v u in
    v <- FREE_if_set (user u) ;;
    let u := set_user v u in
    v <- FREE_if_set (path u) ;;
    let u := set_path v u in
    v <- FREE_if_set (fragment u) ;;
    let u := set_fragment v u in
    v <- FREE_if_set (opaque u) ;;
    let u := set_opaque v u in
    v <- FREE_if_set (authority u) ;;
    let u := set_authority v u in
    v <- FREE_if_set (query u) ;;
    Done (set_query v u)).

(** The common ending of [minio_rfc3986] and [minio_rfc3986_relative_ref]:
    the optional query, the optional fragment and the test that the whole
    input was consumed. *)
Definition query_fragment_end (uri : option bURI) (str : cstr)
  : outcome (Z * option bURI) :=
  '(ret, uri, str) <-
     (if peek str 0 =? ch "?" then minio_rfc3986_query uri (skipn 1 str)
      else Done (0, uri, str)) ;;
  if negb (ret =? 0) then Done (ret, uri) else
  '(ret, uri, str) <-
     (if peek str 0 =? ch "#" then minio_rfc3986_fragment uri (skipn 1 str)
      else Done (0, uri, str)) ;;
  if negb (ret =? 0) then Done (ret, uri) else
  if negb (peek str 0 =? 0) then
    uri <- URI_TRIM uri ;;
    Done (1, uri)
  else Done (0, uri).

Definition minio_rfc3986_relative_ref (uri : option bURI) (str : cstr)
  : outcome (Z * option bURI) :=
  '(ret, uri, str) <-
     (if (peek str 0 =? ch "/") && (peek str 1 =? ch "/") then
        '(ret, uri, cur) <- minio_rfc3986_authority uri (skipn 2 str) ;;
        if negb (ret =? 0) then Done (ret, uri, cur) else
        minio_rfc3986_path_ab_empty uri cur
      else if peek str 0 =? ch "/" then minio_rfc3986_path_absolute uri str
      else if ISA_PCHAR str then minio_rfc3986_path_no_scheme uri str
      else
        uri <- path_empty uri ;;
        Done (0, uri, str)) ;;
  if negb (ret =? 0) then Done (ret, uri) else
  query_fragment_end uri str.

Definition minio_rfc3986 (uri : option bURI) (str : cstr)
  : outcome (Z * option bURI) :=
  '(ret, uri, str) <- minio_rfc3986_scheme uri str ;;
  if negb (ret =? 0) then Done (ret, uri) else
  if negb (peek str 0 =? ch ":") then Done (1, uri) else
  '(ret, uri, str) <- minio_rfc3986_hier_part uri (skipn 1 str) ;;
  if negb (ret =? 0) then Done (ret, uri) else
  query_fragment_end uri str.

(** [None] is a null [str]. *)
Definition minio_rfc3986_uri_reference (uri : option bURI) (str : option cstr)
  : outcome (Z * option bURI) :=
  match str with
  | None => Done (-1, uri)
  | Some str =>
      uri <- URI_TRIM uri ;;
      '(ret, uri) <- minio_rfc3986 uri str ;;
      if negb (ret =? 0) then
        uri <- URI_TRIM uri ;;
        '(ret, uri) <- minio_rfc3986_relative_ref uri str ;;
        if negb (ret =? 0) then
          uri <- URI_TRIM uri ;;
          Done (ret, uri)
        else Done (ret, uri)
      else Done (ret, uri)
  end.

(** ** Public entry points *)

Definition minio_uri_parse_into (uri : option bURI) (str : option cstr)
  : outcome (Z * option bURI) :=
  minio_rfc3986_uri_reference uri str.

(** [minio_uri_parse (str, buri)]: the return code and the record stored
    through [buri], [None] when nothing is stored. *)
Definition minio_uri_parse (str : option cstr) : outcome (Z * option bURI) :=
  match str with
  | None => Done (-1, None)
  | Some _ =>
      '(ret, uri) <- minio_uri_parse_into (Some minio_uri_new) str ;;
      match uri with
      | Some u =>
          match scheme u with
          | FREED => Done (-1, None)
          | _ => Done (0, Some u)
          end
      | None => Done (-1, None)
      end
  end.

(** [minio_uri_parse_raw (str, raw)]: the pointer returned.  After
    [URI_FREE (uri)] the local [uri] holds the marker, and that is what
    the function returns. *)
Definition minio_uri_parse_raw (str : option cstr) (raw : Z)
  : outcome (ptr bURI) :=
  match str with
  | None => Done NULL
  | Some _ =>
      let uri := minio_uri_new in
      let uri :=
        if negb (raw =? 0) then set_cleanup (Z.lor (cleanup uri) 2) uri
        else uri in
      '(ret, uri') <- minio_uri_parse_into (Some uri) str ;;
      if negb (ret =? 0) then
        _ <- URI_TRIM uri' ;;
        Done FREED
      else
        match uri' with
        | Some u => Done (Owned u)
        | None => Done NULL
        end
  end.

End Platform.

(** ** Predicates used by the statements *)

(** The sink is present. *)
Definition has_sink (uri : option bURI) : bool :=
  match uri with Some _ => true | None => false end.

(** A field of the sink, when there is one. *)
Definition field {A : Type} (f : bURI -> A) (uri : option bURI) : option A :=
  option_map f uri.

(** A fully cleared record: no string held in any of the nine string
    fields (a field that is [NULL] or carries the marker of [FREE] holds
    none) and port 0. *)
Definition fully_cleared (u : bURI) : Prop :=
  is_owned (scheme u) = false /\ is_owned (server u) = false /\
  is_owned (user u) = false /\ is_owned (path u) = false /\
  is_owned (query u) = false /\ is_owned (query_raw u) = false /\
  is_owned (fragment u) = false /\ is_owned (opaque u) = false /\
  is_owned (authority u) = false /\ port u = 0.

(** No owned string in the eight fields that [URI_TRIM] names. *)
Definition released (u : bURI) : Prop :=
  is_owned (scheme u) = false /\ is_owned (server u) = false /\
  is_owned (user u) = false /\ is_owned (path u) = false /\
  is_owned (fragment u) = false /\ is_owned (opaque u) = false /\
  is_owned (authority u) = false /\ is_owned (query u) = false.

(** [query] and [query_raw] both hold a string, or neither does. *)
Definition query_in_sync (u : bURI) : Prop :=
  is_owned (query u) = is_owned (query_raw u).

(** The chars [lo], [lo + 1], ..., [lo + n - 1]. *)
Definition chars_from (lo : Z) (n : nat) : list Z :=
  map (fun i => lo + Z.of_nat i) (seq 0 n).

(** One char survives escaping with an empty exception list followed by
    unescaping: it is copied and is not a percent sign, or it becomes a
    triplet that decodes to it. *)
Definition char_roundtrips (sgn : bool) (c : Z) : bool :=
  match escape_loop sgn [c] [] with
  | [x] => (x =? c) && negb (x =? ch "%")
  | [p; h; l] =>
      (p =? ch "%") && is_hex h && is_hex l &&
      (unescape_lo sgn l (unescape_hi sgn h 0) =? c)
  | _ => false
  end.

(** [minio_uri_string_unescape (minio_uri_string_escape (s, list), 0, NULL)] *)
Definition unescape_escape (sgn : bool) (s list : cstr) : ptr cstr :=
  match minio_uri_string_escape sgn (Some s) list with
  | Owned e => minio_uri_string_unescape sgn (Some e) 0
  | _ => NULL
  end.

(** The pointer [p] holds exactly the string [s]. *)
Definition same_string (p : ptr cstr) (s : cstr) : bool :=
  match p with
  | Owned s' => if list_eq_dec Z.eq_dec s' s then true else false
  | _ => false
  end.

(** The three decimal digits of [n], for [n] below 1000. *)
Definition three_digits (n : Z) : cstr :=
  [ch "0" + n / 100; ch "0" + (n / 10) mod 10; ch "0" + n mod 10].

(** The pair of the two query pointers. *)
Definition query_pointers (u : bURI) : ptr cstr * ptr cstr :=
  (query u, query_raw u).

(** The pointers [query] and [query_raw] are both null or both non-null. *)
Definition null_sync (uri : option bURI) : Prop :=
  match uri with
  | Some u => is_null (query u) = is_null (query_raw u)
  | None => True
  end.


(** ** Further predicates *)

(** The test of [minio_uri_string_escape] under which a char is copied:
    it is [@], unreserved, or found by [strchr] in the exception list. *)
Definition escape_keeps (list : cstr) (c : Z) : bool :=
  (c =? ch "@") || IS_UNRESERVED c || strchr list c.

(** [cur] points into the buffer that [str] points to, at or after [str]. *)
Definition suffix_of (cur str : cstr) : Prop :=
  exists n, (n <= length str)%nat /\ cur = skipn n str.

(** The decimal value of a run of digit chars. *)
Definition decimal_value (ds : cstr) : Z :=
  fold_left (fun acc c => acc * 10 + (c - ch "0")) ds 0.

(** The chars allowed after the first letter of a scheme. *)
Definition scheme_char (c : Z) : bool :=
  IS_ALPHA c || IS_DIGIT c || (c =? ch "+") || (c =? ch "-") || (c =? ch ".").

(** The eight string fields that [URI_TRIM] names are all null. *)
Definition no_strings (u : bURI) : Prop :=
  scheme u = NULL /\ server u = NULL /\ user u = NULL /\ path u = NULL /\
  fragment u = NULL /\ opaque u = NULL /\ authority u = NULL /\
  query u = NULL.

(** The record [minio_uri_parse_raw] starts from: fresh, with bit 1 of
    [cleanup] set when [raw] is not 0. *)
Definition raw_record (raw : Z) : bURI :=
  if negb (raw =? 0)
  then set_cleanup (Z.lor (cleanup minio_uri_new) 2) minio_uri_new
  else minio_uri_new.


(** The projection [f] of the record does not depend on the fields that
    the productions after the scheme store into. *)
Definition kept_by_stores {A : Type} (f : bURI -> A) : Prop :=
  (forall v u, f (set_authority v u) = f u) /\
  (forall v u, f (set_server v u) = f u) /\
  (forall v u, f (set_user v u) = f u) /\
  (forall v u, f (set_port v u) = f u) /\
  (forall v u, f (set_path v u) = f u) /\
  (forall v u, f (set_fragment v u) = f u) /\
  (forall v u, f (set_query v u) = f u) /\
  (forall v u, f (set_query_raw v u) = f u).

(** The mode bits are [c] and [opaque] holds no string. *)
Definition mode_and_opaque (c : Z) (uri : option bURI) : Prop :=
  match uri with
  | Some u => cleanup u = c /\ is_owned (opaque u) = false
  | None => True
  end.

(** The scheme pointer of the sink is not null. *)
Definition scheme_set (uri : option bURI) : Prop :=
  match uri with
  | Some u => is_null (scheme u) = false
  | None => False
  end.

(** The scheme pointer of the sink carries the marker of [FREE]. *)
Definition scheme_freed (uri : option bURI) : Prop :=
  match uri with
  | Some u => scheme u = FREED
  | None => False
  end.


(** ** The serializer [minio_uri_to_string]

    The output buffer is the list of the bytes written so far ([len] is
    its length) together with the capacity [max]; [realloc2n] doubles
    [max] and never fails.  Sizes are taken to stay far below [INT_MAX],
    so the doubling of the [int] is not wrapped.  A field is read as a C
    string, up to its first NUL.  Reading through a pointer that carries
    the marker of [FREE] is undefined and modelled as [Fault]. *)

Definition IS_RESERVED (x : Z) : bool :=
  (x =? ch ";") || (x =? ch "/") || (x =? ch "?") ||
  (x =? ch ":") || (x =? ch "@") || (x =? ch "&") ||
  (x =? ch "=") || (x =? ch "+") || (x =? ch "$") ||
  (x =? ch ",") || (x =? ch "[") || (x =? ch "]").

Record sbuf : Type := mkBuf {
  sb_ret : cstr;
  sb_max : Z
}.

Definition sb_len (b : sbuf) : Z := Z.of_nat (length (sb_ret b)).

(** [realloc2n (ret, &max)]: the new value of [max]. *)
Definition realloc2n (max : Z) : Z := max * 2.

(** [if (len + slack >= max) { temp = realloc2n (ret, &max); ret = temp; }] *)
Definition grow_if (slack : Z) (b : sbuf) : sbuf :=
  if sb_len b + slack >=? sb_max b
  then mkBuf (sb_ret b) (realloc2n (sb_max b))
  else b.

(** [ret[len++] = c;] *)
Definition put (c : Z) (b : sbuf) : sbuf := mkBuf (sb_ret b ++ [c]) (sb_max b).

(** The copying loops: while the char under [p] is not NUL, grow on
    [len + slack >= max] and copy the char. *)
Fixpoint copy_loop (slack : Z) (p : cstr) (b : sbuf) : sbuf :=
  match p with
  | [] => b
  | c :: p1 =>
      if c =? 0 then b
      else copy_loop slack p1 (put c (grow_if slack b))
  end.

(** [hi + (hi > 9? 'A'-10 : '0')], stored into a [char]. *)
Definition hex_char (sgn : bool) (d : Z) : Z :=
  to_char sgn (d + (if 9 <? d then ch "A" - 10 else ch "0")).

(** The escaping loops: while the char under [p] is not NUL, grow on
    [len + 3 >= max], then copy the char when [keep] holds of it and
    write its percent triplet otherwise. *)
Fixpoint escape_to (sgn : bool) (keep : Z -> bool) (p : cstr) (b : sbuf)
  : sbuf :=
  match p with
  | [] => b
  | c :: p1 =>
      if c =? 0 then b
      else
        let b := grow_if 3 b in
        if keep c then escape_to sgn keep p1 (put c b)
        else
          let val := to_uchar c in
          let hi := val / 16 in
          let lo := val mod 16 in
          escape_to sgn keep p1
            (put (hex_char sgn lo) (put (hex_char sgn hi) (put (ch "%") b)))
  end.

(** The chars each component lets through unescaped. *)
Definition keep_opaque (c : Z) : bool := IS_RESERVED c || IS_UNRESERVED c.
Definition keep_user (c : Z) : bool :=
  IS_UNRESERVED c || (c =? ch ";") || (c =? ch ":") || (c =? ch "&") ||
  (c =? ch "=") || (c =? ch "+") || (c =? ch "$") || (c =? ch ",").
Definition keep_authority (c : Z) : bool :=
  IS_UNRESERVED c || (c =? ch "$") || (c =? ch ",") || (c =? ch ";") ||
  (c =? ch ":") || (c =? ch "@") || (c =? ch "&") || (c =? ch "=") ||
  (c =? ch "+").
Definition keep_path (c : Z) : bool :=
  IS_UNRESERVED c || (c =? ch "/") || (c =? ch ";") || (c =? ch "@") ||
  (c =? ch "&") || (c =? ch "=") || (c =? ch "+") || (c =? ch "$") ||
  (c =? ch ",").
Definition keep_fragment (c : Z) : bool := IS_UNRESERVED c || IS_RESERVED c.

(** The digits that [%d] prints for a positive [int]: at most ten. *)
Fixpoint decimal_chars (fuel : nat) (n : Z) : cstr :=
  match fuel with
  | O => []
  | S fuel' =>
      (if n <? 10 then [] else decimal_chars fuel' (n / 10))
        ++ [ch "0" + n mod 10]
  end.

(** [len += snprintf (&ret[len], max - len, ":%d", port);].  When the
    text and its terminator fit into [max - len] bytes the text is
    appended.  When the text is exactly [max - len] chars long its last
    char is dropped, the terminator takes its place and [len] still
    advances by the full length.  A longer text would leave [len] beyond
    the bytes written. *)
Definition snprintf_port (port : Z) (b : sbuf) : outcome sbuf :=
  let text := ch ":" :: decimal_chars 10 port in
  let size := sb_max b - sb_len b in
  let n := Z.of_nat (length text) in
  if n <? size then Done (mkBuf (sb_ret b ++ text) (sb_max b))
  else if n =? size
       then Done (mkBuf (sb_ret b ++ firstn (length text - 1) text ++ [0])
                        (sb_max b))
  else Fault.

(** Reading the string behind a field pointer that is not null. *)
Definition deref (p : ptr cstr) : outcome cstr :=
  match p with
  | Owned s => Done s
  | _ => Fault
  end.

(** The C string held in a buffer: the bytes before the first NUL. *)
Fixpoint c_str (buf : cstr) : cstr :=
  match buf with
  | [] => []
  | c :: buf1 => if c =? 0 then [] else c :: c_str buf1
  end.

(** The tests on the path that come before the comparison of the scheme:
    the scheme is there, the path starts with a slash, a letter and a
    colon. *)
Definition drive_letter_shape (u : bURI) (p : cstr) : bool :=
  negb (is_null (scheme u)) && (peek p 0 =? ch "/") &&
  (((ch "a" <=? peek p 1) && (peek p 1 <=? ch "z")) ||
   ((ch "A" <=? peek p 1) && (peek p 1 <=? ch "Z"))) &&
  (peek p 2 =? ch ":").

(** [!strcmp (sch, "file")] *)
Definition is_file (sch : cstr) : bool :=
  if list_eq_dec Z.eq_dec (c_str sch) (lit "file") then true else false.

Definition to_string_scheme (u : bURI) (b : sbuf) : outcome sbuf :=
  if negb (is_null (scheme u)) then
    p <- deref (scheme u) ;;
    let b := copy_loop 0 p b in
    let b := grow_if 0 b in
    Done (put (ch ":") b)
  else Done b.

Definition to_string_server (sgn : bool) (u : bURI) (b : sbuf)
  : outcome sbuf :=
  let b := grow_if 3 b in
  let b := put (ch "/") (put (ch "/") b) in
  b <- (if negb (is_null (user u)) then
          p <- deref (user u) ;;
          let b := escape_to sgn keep_user p b in
          let b := grow_if 3 b in
          Done (put (ch "@") b)
        else Done b) ;;
  p <- deref (server u) ;;
  let b := copy_loop 0 p b in
  if 0 <? port u then
    let b := grow_if 10 b in
    snprintf_port (port u) b
  else Done b.

Definition to_string_authority (sgn : bool) (u : bURI) (b : sbuf)
  : outcome sbuf :=
  if negb (is_null (server u)) then to_string_server sgn u b
  else if negb (is_null (authority u)) then
    let b := grow_if 3 b in
    let b := put (ch "/") (put (ch "/") b) in
    p <- deref (authority u) ;;
    Done (escape_to sgn keep_authority p b)
  else if negb (is_null (scheme u)) then
    let b := grow_if 3 b in
    Done (put (ch "/") (put (ch "/") b))
  else Done b.

Definition to_string_path (sgn : bool) (u : bURI) (b : sbuf)
  : outcome sbuf :=
  if negb (is_null (path u)) then
    p <- deref (path u) ;;
    drive <- (if drive_letter_shape u p then
                sch <- deref (scheme u) ;; Done (is_file sch)
              else Done false) ;;
    if drive then
      let b := grow_if 3 b in
      let b := put (peek p 2) (put (peek p 1) (put (peek p 0) b)) in
      Done (escape_to sgn keep_path (skipn 3 p) b)
    else Done (escape_to sgn keep_path p b)
  else Done b.

Definition to_string_query (u : bURI) (b : sbuf) : outcome sbuf :=
  if negb (is_null (query u)) then
    let b := grow_if 1 b in
    let b := put (ch "?") b in
    p <- deref (query u) ;;
    Done (copy_loop 1 p b)
  else Done b.

Definition to_string_fragment (sgn : bool) (u : bURI) (b : sbuf)
  : outcome sbuf :=
  if negb (is_null (fragment u)) then
    let b := grow_if 3 b in
    let b := put (ch "#") b in
    p <- deref (fragment u) ;;
    Done (escape_to sgn keep_fragment p b)
  else Done b.

(** [minio_uri_to_string (uri)]: the string returned, [None] being a null
    [uri]. *)
Definition minio_uri_to_string (sgn : bool) (uri : option bURI)
  : outcome (ptr cstr) :=
  match uri with
  | None => Done NULL
  | Some u =>
      let b := mkBuf [] 80 in
      b <- to_string_scheme u b ;;
      b <- (if negb (is_null (opaque u)) then
              p <- deref (opaque u) ;;
              Done (escape_to sgn keep_opaque p b)
            else
              b <- to_string_authority sgn u b ;;
              b <- to_string_path sgn u b ;;
              to_string_query u b) ;;
      b <- to_string_fragment sgn u b ;;
      let b := grow_if 0 b in
      Done (Owned (c_str (sb_ret b)))
  end.


(** *** The serializer, as a plain concatenation *)

(** The escaped text of the C string in [p]: the chars that [keep] lets
    through stay, every other char becomes its percent triplet. *)
Definition escape_with (sgn : bool) (keep : Z -> bool) (p : cstr) : cstr :=
  flat_map (fun c =>
              if keep c then [c]
              else [ch "%"; hex_char sgn (to_uchar c / 16);
                    hex_char sgn (to_uchar c mod 16)])
           (c_str p).

(** The whole test for a drive letter after the root of a [file] path,
    on the strings behind the path and the scheme. *)
Definition drive_letter_path (u : bURI) (p sch : cstr) : bool :=
  drive_letter_shape u p && is_file sch.

(** The string behind a field pointer, nothing for a null pointer. *)
Definition field_text (p : ptr cstr) : cstr :=
  match p with
  | Owned s => s
  | _ => []
  end.

(** The text of the record, component by component: the scheme and a
    colon; then either the escaped opaque part, or two slashes with
    userinfo, host and port (or the escaped raw authority, or nothing but
    the slashes when only a scheme is there), the escaped path with a
    drive-letter prefix of a [file] path copied as it is, and the query
    copied as it is; then the escaped fragment. *)
Definition to_string_text (sgn : bool) (u : bURI) : cstr :=
  (if negb (is_null (scheme u))
   then c_str (field_text (scheme u)) ++ [ch ":"] else [])
  ++ (if negb (is_null (opaque u))
      then escape_with sgn keep_opaque (field_text (opaque u))
      else
        (if negb (is_null (server u)) then
           lit "//"
           ++ (if negb (is_null (user u))
               then escape_with sgn keep_user (field_text (user u))
                    ++ [ch "@"]
               else [])
           ++ c_str (field_text (server u))
           ++ (if 0 <? port u then ch ":" :: decimal_chars 10 (port u)
               else [])
         else if negb (is_null (authority u)) then
           lit "//" ++ escape_with sgn keep_authority (field_text (authority u))
         else if negb (is_null (scheme u)) then lit "//"
         else [])
        ++ (if negb (is_null (path u)) then
              if drive_letter_path u (field_text (path u))
                                   (field_text (scheme u))
              then firstn 3 (field_text (path u))
                   ++ escape_with sgn keep_path
                        (skipn 3 (field_text (path u)))
              else escape_with sgn keep_path (field_text (path u))
            else [])
        ++ (if negb (is_null (query u))
            then ch "?" :: c_str (field_text (query u)) else []))
  ++ (if negb (is_null (fragment u))
      then ch "#" :: escape_with sgn keep_fragment (field_text (fragment u))
      else []).

(** A field that the serializer reads carries the marker of [FREE]. *)
Definition is_freed (p : ptr cstr) : bool :=
  match p with FREED => true | _ => false end.

Definition reads_marker (u : bURI) : bool :=
  is_freed (scheme u) || is_freed (opaque u) || is_freed (fragment u) ||
  (is_null (opaque u) &&
   (is_freed (server u) || is_freed (path u) || is_freed (query u) ||
    (negb (is_null (server u)) && is_freed (user u)) ||
    (is_null (server u) && is_freed (authority u)))).

(** The buffer invariant: [len <= max] and [max] at least its initial 80. *)
Definition sb_ok (b : sbuf) : Prop := sb_len b <= sb_max b /\ 80 <= sb_max b.

(** [b'] is [b] with [text] appended, still within its capacity. *)
Definition appended (b : sbuf) (text : cstr) (b' : sbuf) : Prop :=
  sb_ret b' = sb_ret b ++ text /\ sb_ok b'.

(** ** Predicates for raw mode, authorities and the terminator *)


(** A char of a reg-name that is not part of a percent triplet:
    unreserved or a sub-delimiter. *)
Definition reg_name_plain (c : Z) : bool :=
  ISA_UNRESERVED [c] || ISA_SUB_DELIM [c].


(** No NUL among the chars of a string. *)
Definition no_NUL (s : cstr) : Prop := Forall (fun c => c <> 0) s.

(** * Properties *)

(** ** The terminator ends every scan *)

(** No class of uri.h contains NUL: the loop conditions are false on the
    empty remainder, which is where [while_incr] and [while_NEXT] stop. *)
Lemma classes_reject_NUL :
  ISA_DIGIT [] = false /\ ISA_ALPHA [] = false /\ ISA_HEXDIG [] = false
  /\ ISA_SUB_DELIM [] = false /\ ISA_UNRESERVED [] = false
  /\ ISA_PCT_ENCODED [] = false /\ ISA_PCHAR [] = false
  /\ IS_UNWISE [] = false.
Proof. repeat split. Qed.


(** ** The scanning loops never move backwards *)

Lemma while_incr_length (cond : cstr -> bool) (cur : cstr) :
  (length (while_incr cond cur) <= length cur)%nat.
Proof.
  induction cur as [|c cur1 IH]; simpl; [lia|].
  destruct (cond (c :: cur1)); simpl; lia.
Qed.

Lemma while_NEXT_length (cond : cstr -> bool) (cur : cstr) :
  (length (while_NEXT cond cur) <= length cur)%nat.
Proof.
  remember (length cur) as n eqn:Hn. revert cur Hn.
  induction n as [n IH] using lt_wf_ind; intros cur Hn.
  destruct cur as [|c cur1]; simpl in *; [lia|].
  destruct (cond (c :: cur1)); [|simpl; lia].
  destruct (c =? ch "%").
  - destruct cur1 as [|a [|b cur3]]; simpl in *; try lia.
    specialize (IH (length cur3) ltac:(lia) cur3 eq_refl). lia.
  - specialize (IH (length cur1) ltac:(lia) cur1 eq_refl). lia.
Qed.

Lemma segment_length (str : cstr) (forbid : Z) (empty : bool) :
  (length (snd (minio_rfc3986_segment str forbid empty)) <= length str)%nat.
Proof.
  unfold minio_rfc3986_segment.
  destruct (negb (ISA_PCHAR str)); simpl; [lia|apply while_NEXT_length].
Qed.



Lemma slash_segments_length : forall fuel cur,
  (length (snd (slash_segments fuel cur)) <= length cur)%nat.
Proof.
  induction fuel as [|fuel IH]; intros cur; cbn [slash_segments].
  - destruct (peek cur 0 =? ch "/"); simpl; lia.
  - destruct (peek cur 0 =? ch "/") eqn:E; [|simpl; lia].
    pose proof (segment_length (skipn 1 cur) 0 true) as HL.
    destruct (minio_rfc3986_segment (skipn 1 cur) 0 true) as [ret cur'].
    cbn [snd] in HL. specialize (IH cur').
    rewrite length_skipn in HL.
    destruct (negb (ret =? 0)); cbn [snd]; lia.
Qed.

(** ** What [URI_TRIM] leaves behind *)

Lemma FREE_if_set_Done {A : Type} (p v : ptr A) :
  FREE_if_set p = Done v -> is_owned v = false /\ is_null v = is_null p.
Proof.
  destruct p; simpl; intros H; inversion H; subst; split; reflexivity.
Qed.

Lemma URI_TRIM_Done (u : bURI) (r : option bURI) :
  URI_TRIM (Some u) = Done r ->
  exists u', r = Some u' /\ released u' /\
             port u' = port u /\ cleanup u' = cleanup u /\
             query_raw u' = query_raw u.
Proof.
  unfold URI_TRIM, on_uri. simpl.
  destruct (FREE_if_set (scheme u)) as [v1|] eqn:E1; simpl; [|discriminate].
  destruct (FREE_if_set (server u)) as [v2|] eqn:E2; simpl; [|discriminate].
  destruct (FREE_if_set (user u)) as [v3|] eqn:E3; simpl; [|discriminate].
  destruct (FREE_if_set (path u)) as [v4|] eqn:E4; simpl; [|discriminate].
  destruct (FREE_if_set (fragment u)) as [v5|] eqn:E5; simpl; [|discriminate].
  destruct (FREE_if_set (opaque u)) as [v6|] eqn:E6; simpl; [|discriminate].
  destruct (FREE_if_set (authority u)) as [v7|] eqn:E7; simpl; [|discriminate].
  destruct (FREE_if_set (query u)) as [v8|] eqn:E8; simpl; [|discriminate].
  intros H; inversion H; subst; clear H.
  eexists; split; [reflexivity|].
  unfold released; simpl.
  apply FREE_if_set_Done in E1, E2, E3, E4, E5, E6, E7, E8.
  intuition.
Qed.

Lemma URI_TRIM_None : URI_TRIM None = Done None.
Proof. reflexivity. Qed.

(** ** The productions keep the sink *)

Ltac inv_done :=
  repeat match goal with
  | H : Done _ = Done _ |- _ => inversion H; subst; clear H
  | H : Fault = Done _ |- _ => discriminate H
  | H : bind ?c _ = Done _ |- _ =>
      let E := fresh "E" in destruct c eqn:E; cbn [bind] in H
  | H : (let '(_, _) := ?x in _) = Done _ |- _ =>
      let E := fresh "E" in destruct x eqn:E
  | H : (if ?b then _ else _) = Done _ |- _ =>
      let E := fresh "E" in destruct b eqn:E
  | H : match ?x with _ => _ end = Done _ |- _ =>
      let E := fresh "E" in destruct x eqn:E
  end.

Lemma on_uri_sink (uri uri' : option bURI) (f : bURI -> outcome bURI) :
  on_uri uri f = Done uri' -> has_sink uri' = has_sink uri.
Proof. unfold on_uri; intros H; destruct uri; inv_done; reflexivity. Qed.

Lemma port_loop_sink : forall cur uri,
  has_sink (fst (port_loop uri cur)) = has_sink uri.
Proof.
  induction cur as [|c cur1 IH]; intros uri; simpl; [reflexivity|].
  destruct (ISA_DIGIT (c :: cur1)); [|reflexivity].
  rewrite IH. destruct uri; reflexivity.
Qed.

Lemma port_loop_frame {A : Type} (f : bURI -> A) :
  (forall v u, f (set_port v u) = f u) ->
  forall cur uri, field f (fst (port_loop uri cur)) = field f uri.
Proof.
  intros Hf; induction cur as [|c cur1 IH]; intros uri; simpl; [reflexivity|].
  destruct (ISA_DIGIT (c :: cur1)); [|reflexivity].
  rewrite IH. destruct uri; simpl; [rewrite Hf|]; reflexivity.
Qed.

Section Sink.
Variable sgn : bool.

Lemma scheme_sink uri str r uri' c :
  minio_rfc3986_scheme uri str = Done (r, uri', c) ->
  has_sink uri' = has_sink uri.
Proof.
  unfold minio_rfc3986_scheme; intros H; inv_done;
    eauto using on_uri_sink.
Qed.

Lemma fragment_sink uri str r uri' c :
  minio_rfc3986_fragment sgn uri str = Done (r, uri', c) ->
  has_sink uri' = has_sink uri.
Proof.
  unfold minio_rfc3986_fragment; intros H; inv_done; eauto using on_uri_sink.
Qed.

Lemma query_sink uri str r uri' c :
  minio_rfc3986_query sgn uri str = Done (r, uri', c) ->
  has_sink uri' = has_sink uri.
Proof.
  unfold minio_rfc3986_query; intros H; inv_done; eauto using on_uri_sink.
Qed.

Lemma port_sink uri str r uri' c :
  minio_rfc3986_port uri str = Done (r, uri', c) ->
  has_sink uri' = has_sink uri.
Proof.
  unfold minio_rfc3986_port; intros H.
  destruct (ISA_DIGIT str); [|inv_done; reflexivity].
  pose proof (port_loop_sink str (option_map (set_port 0) uri)) as HS.
  destruct (port_loop (option_map (set_port 0) uri) str) as [u1 c1].
  inv_done. simpl in HS. rewrite HS. destruct uri; reflexivity.
Qed.

Lemma user_info_sink uri str r uri' c :
  minio_rfc3986_user_info sgn uri str = Done (r, uri', c) ->
  has_sink uri' = has_sink uri.
Proof.
  unfold minio_rfc3986_user_info; intros H; inv_done; eauto using on_uri_sink.
Qed.

Lemma host_found_sink uri host cur r uri' c :
  host_found sgn uri host cur = Done (r, uri', c) ->
  has_sink uri' = has_sink uri.
Proof.
  unfold host_found; intros H; inv_done; eauto using on_uri_sink.
Qed.

Lemma host_sink uri str r uri' c :
  minio_rfc3986_host sgn uri str = Done (r, uri', c) ->
  has_sink uri' = has_sink uri.
Proof.
  unfold minio_rfc3986_host; intros H; inv_done;
    eauto using host_found_sink.
Qed.

Lemma authority_sink uri str r uri' c :
  minio_rfc3986_authority sgn uri str = Done (r, uri', c) ->
  has_sink uri' = has_sink uri.
Proof.
  unfold minio_rfc3986_authority; intros H; inv_done;
    repeat match goal with
    | E : minio_rfc3986_user_info _ _ _ = Done _ |- _ =>
        apply user_info_sink in E
    | E : minio_rfc3986_host _ _ _ = Done _ |- _ => apply host_sink in E
    | E : minio_rfc3986_port _ _ = Done _ |- _ => apply port_sink in E
    end; congruence.
Qed.

Lemma store_path_sink uri str cur uri' :
  store_path sgn uri str cur = Done uri' -> has_sink uri' = has_sink uri.
Proof. apply on_uri_sink. Qed.

Lemma path_empty_sink uri uri' :
  path_empty uri = Done uri' -> has_sink uri' = has_sink uri.
Proof. apply on_uri_sink. Qed.

Lemma path_ab_empty_sink uri str r uri' c :
  minio_rfc3986_path_ab_empty sgn uri str = Done (r, uri', c) ->
  has_sink uri' = has_sink uri.
Proof.
  unfold minio_rfc3986_path_ab_empty; intros H; inv_done;
    eauto using store_path_sink.
Qed.

Lemma path_absolute_sink uri str r uri' c :
  minio_rfc3986_path_absolute sgn uri str = Done (r, uri', c) ->
  has_sink uri' = has_sink uri.
Proof.
  unfold minio_rfc3986_path_absolute; intros H; inv_done;
    eauto using store_path_sink.
Qed.

Lemma path_rootless_sink uri str r uri' c :
  minio_rfc3986_path_rootless sgn uri str = Done (r, uri', c) ->
  has_sink uri' = has_sink uri.
Proof.
  unfold minio_rfc3986_path_rootless; intros H; inv_done;
    eauto using store_path_sink.
Qed.

Lemma path_no_scheme_sink uri str r uri' c :
  minio_rfc3986_path_no_scheme sgn uri str = Done (r, uri', c) ->
  has_sink uri' = has_sink uri.
Proof.
  unfold minio_rfc3986_path_no_scheme; intros H; inv_done;
    eauto using store_path_sink.
Qed.

Lemma URI_TRIM_sink uri uri' :
  URI_TRIM uri = Done uri' -> has_sink uri' = has_sink uri.
Proof. apply on_uri_sink. Qed.

Ltac sink_steps :=
  repeat match goal with
  | E : minio_rfc3986_scheme _ _ = Done _ |- _ => apply scheme_sink in E
  | E : minio_rfc3986_query _ _ _ = Done _ |- _ => apply query_sink in E
  | E : minio_rfc3986_fragment _ _ _ = Done _ |- _ => apply fragment_sink in E
  | E : minio_rfc3986_authority _ _ _ = Done _ |- _ =>
      apply authority_sink in E
  | E : minio_rfc3986_path_ab_empty _ _ _ = Done _ |- _ =>
      apply path_ab_empty_sink in E
  | E : minio_rfc3986_path_absolute _ _ _ = Done _ |- _ =>
      apply path_absolute_sink in E
  | E : minio_rfc3986_path_rootless _ _ _ = Done _ |- _ =>
      apply path_rootless_sink in E
  | E : minio_rfc3986_path_no_scheme _ _ _ = Done _ |- _ =>
      apply path_no_scheme_sink in E
  | E : path_empty _ = Done _ |- _ => apply path_empty_sink in E
  | E : URI_TRIM _ = Done _ |- _ => apply URI_TRIM_sink in E
  end.

Lemma query_fragment_end_sink uri str r uri' :
  query_fragment_end sgn uri str = Done (r, uri') ->
  has_sink uri' = has_sink uri.
Proof.
  unfold query_fragment_end; intros H; inv_done; sink_steps; congruence.
Qed.

Lemma hier_part_sink uri str r uri' c :
  minio_rfc3986_hier_part sgn uri str = Done (r, uri', c) ->
  has_sink uri' = has_sink uri.
Proof.
  unfold minio_rfc3986_hier_part; intros H; inv_done; sink_steps; congruence.
Qed.

Lemma relative_ref_sink uri str r uri' :
  minio_rfc3986_relative_ref sgn uri str = Done (r, uri') ->
  has_sink uri' = has_sink uri.
Proof.
  unfold minio_rfc3986_relative_ref; intros H; inv_done;
    repeat match goal with
    | E : query_fragment_end _ _ _ = Done _ |- _ =>
        apply query_fragment_end_sink in E
    end; sink_steps; congruence.
Qed.

Lemma rfc3986_sink uri str r uri' :
  minio_rfc3986 sgn uri str = Done (r, uri') ->
  has_sink uri' = has_sink uri.
Proof.
  unfold minio_rfc3986; intros H; inv_done;
    repeat match goal with
    | E : query_fragment_end _ _ _ = Done _ |- _ =>
        apply query_fragment_end_sink in E
    | E : minio_rfc3986_hier_part _ _ _ = Done _ |- _ =>
        apply hier_part_sink in E
    end; sink_steps; congruence.
Qed.

End Sink.


(** ** Concrete parses *)

(** C8.  Parsing [http://[::1]:8080/x] in the default (non-raw) mode
    succeeds (return code 0) and yields server [[::1]] with the brackets
    kept, port 8080 and path [/x]; the scheme is [http] and nothing else
    is set. *)
Theorem parse_bracketed_host : forall sgn,
  minio_uri_parse_into sgn (Some minio_uri_new)
                       (Some (lit "http://[::1]:8080/x"))
  = Done (0, Some {| scheme := Owned (lit "http");
                     opaque := NULL;
                     authority := NULL;
                     server := Owned (lit "[::1]");
                     user := NULL;
                     port := 8080;
                     path := Owned (lit "/x");
                     fragment := NULL;
                     cleanup := 0;
                     query := NULL;
                     query_raw := NULL |}).
Proof. intros sgn; destruct sgn; vm_compute; reflexivity. Qed.

(** C10.  Parsing the empty string into a fresh record returns 0, through
    the empty path of the relative-reference grammar, and leaves the
    record as [minio_uri_new] made it: scheme, server, user, path, query,
    query_raw and fragment unset and port 0.  The mode bits in [cleanup]
    make no difference. *)
Theorem parse_empty_string : forall sgn flags,
  minio_rfc3986 sgn (Some (set_cleanup flags minio_uri_new)) []
    = Done (2, Some (set_cleanup flags minio_uri_new))
  /\ minio_rfc3986_relative_ref sgn (Some (set_cleanup flags minio_uri_new)) []
    = Done (0, Some (set_cleanup flags minio_uri_new))
  /\ minio_uri_parse_into sgn (Some (set_cleanup flags minio_uri_new)) (Some [])
    = Done (0, Some {| scheme := NULL;
                       opaque := NULL;
                       authority := NULL;
                       server := NULL;
                       user := NULL;
                       port := 0;
                       path := NULL;
                       fragment := NULL;
                       cleanup := flags;
                       query := NULL;
                       query_raw := NULL |}).
Proof. intros sgn flags; repeat split. Qed.

(** ** Failed parses *)

(** When the top-level parse of a string into a record does return a
    non-zero code, the record it leaves holds no string in any of the
    eight fields that [URI_TRIM] names (scheme, server, user, path,
    fragment, opaque, authority, query): each is NULL or carries the
    marker written by [FREE].  Whether it returns at all is another
    matter: on an input that starts with a letter it does not. *)
Theorem failed_parse_releases_strings :
  forall (sgn : bool) (u : bURI) (str : cstr) (ret : Z) (r : option bURI),
    minio_rfc3986_uri_reference sgn (Some u) (Some str) = Done (ret, r) ->
    ret <> 0 ->
    exists u', r = Some u' /\ released u'.
Proof.
  intros sgn u str ret r H Hret.
  unfold minio_rfc3986_uri_reference in H.
  destruct (URI_TRIM (Some u)) as [o1|] eqn:T1; cbn [bind] in H;
    [|discriminate].
  destruct (minio_rfc3986 sgn o1 str) as [[r1 o2]|] eqn:P1; cbn [bind] in H;
    [|discriminate].
  destruct (negb (r1 =? 0)) eqn:N1.
  - destruct (URI_TRIM o2) as [o3|] eqn:T2; cbn [bind] in H; [|discriminate].
    destruct (minio_rfc3986_relative_ref sgn o3 str) as [[r2 o4]|] eqn:P2;
      cbn [bind] in H; [|discriminate].
    destruct (negb (r2 =? 0)) eqn:N2.
    + destruct (URI_TRIM o4) as [o5|] eqn:T3; cbn [bind] in H;
        [|discriminate].
      inversion H; subst; clear H.
      apply URI_TRIM_sink in T1, T2.
      apply rfc3986_sink in P1. apply relative_ref_sink in P2.
      assert (S4 : has_sink o4 = true) by (simpl in T1; congruence).
      destruct o4 as [u4|]; [|discriminate].
      apply URI_TRIM_Done in T3.
      destruct T3 as (u' & -> & Hrel & _). eauto.
    + inversion H; subst; clear H.
      apply negb_false_iff, Z.eqb_eq in N2. contradiction.
  - inversion H; subst; clear H.
    apply negb_false_iff, Z.eqb_eq in N1. contradiction.
Qed.

(** A failed parse that returns: on a fresh record the input [//h:],
    whose host is followed by a colon and no digit, is trimmed once. *)
Lemma dangling_colon_example :
  minio_rfc3986_uri_reference true (Some minio_uri_new) (Some (lit "//h:"))
    = Done (1, Some (set_server FREED minio_uri_new))
  /\ 1 <> 0
  /\ exists u', Some (set_server FREED minio_uri_new) = Some u' /\ released u'.
Proof.
  assert (H : minio_rfc3986_uri_reference true (Some minio_uri_new)
                (Some (lit "//h:"))
              = Done (1, Some (set_server FREED minio_uri_new)))
    by (vm_compute; reflexivity).
  assert (N : 1 <> 0) by discriminate.
  split; [exact H|]. split; [exact N|].
  exact (failed_parse_releases_strings true minio_uri_new (lit "//h:") 1
           (Some (set_server FREED minio_uri_new)) H N).
Defined.

(** Nothing resets the port.  The input [//:80 ] (with a trailing space)
    fails on a fresh record with code 1: the authority is matched with an
    empty host and port 80, and the space is left over.  The record
    returned still has port 80, so it is not fully cleared. *)
Lemma failed_parse_keeps_port :
  exists u',
    minio_rfc3986_uri_reference true (Some minio_uri_new) (Some (lit "//:80 "))
      = Done (1, Some u')
    /\ port u' = 80
    /\ ~ fully_cleared u'.
Proof.
  eexists. split; [vm_compute; reflexivity|].
  split; [reflexivity|].
  unfold fully_cleared; simpl. intros H.
  destruct H as (_ & _ & _ & _ & _ & _ & _ & _ & _ & H). discriminate H.
Qed.

(** ** Userinfo, host and port *)

Lemma on_uri_frame {A : Type} (f : bURI -> A) (uri uri' : option bURI)
      (g : bURI -> outcome bURI) :
  (forall u u', g u = Done u' -> f u' = f u) ->
  on_uri uri g = Done uri' -> field f uri' = field f uri.
Proof.
  intros Hg H. unfold on_uri in H. destruct uri as [u|]; inv_done.
  - simpl. f_equal. eauto.
  - reflexivity.
Qed.

Lemma host_found_user sgn uri host cur r uri' c :
  host_found sgn uri host cur = Done (r, uri', c) ->
  field user uri' = field user uri.
Proof.
  unfold host_found; intros H.
  match type of H with
  | bind (on_uri _ ?g) _ = _ =>
      destruct (on_uri uri g) as [o|] eqn:E; cbn [bind] in H; [|discriminate]
  end.
  inversion H; subst; clear H.
  eapply on_uri_frame; [|exact E].
  intros u u' Hu; cbv beta in Hu; inv_done; reflexivity.
Qed.

Lemma host_user sgn uri str r uri' c :
  minio_rfc3986_host sgn uri str = Done (r, uri', c) ->
  field user uri' = field user uri.
Proof.
  unfold minio_rfc3986_host; intros H; inv_done;
    eauto using host_found_user.
Qed.

Lemma port_user uri str r uri' c :
  minio_rfc3986_port uri str = Done (r, uri', c) ->
  field user uri' = field user uri.
Proof.
  unfold minio_rfc3986_port; intros H.
  destruct (ISA_DIGIT str); [|inv_done; reflexivity].
  pose proof (port_loop_frame user (fun _ _ => eq_refl) str
                (option_map (set_port 0) uri)) as HS.
  destruct (port_loop (option_map (set_port 0) uri) str) as [u1 c1].
  inv_done. simpl in HS. rewrite HS. destruct uri; reflexivity.
Qed.

(** A userinfo-shaped prefix that is not followed by [@] is not
    committed.  For every sink and every authority string whose scanned
    userinfo prefix ends before a char other than [@]: the userinfo
    matcher returns 1 and leaves the record and the cursor as they were;
    the authority matcher is then exactly the host matcher started at the
    original position, followed by the optional port; and whatever the
    authority matcher returns, the user field is the one it was given.  In
    particular [http://foo/bar] parses with code 0, server [foo], path
    [/bar] and no user. *)
Theorem userinfo_without_at_not_committed :
  forall (sgn : bool) (uri : option bURI) (str : cstr),
    peek (user_info_scan str) 0 <> ch "@" ->
    minio_uri_parse_into sgn (Some minio_uri_new) (Some (lit "http://foo/bar"))
      = Done (0, Some {| scheme := Owned (lit "http");
                         opaque := NULL;
                         authority := NULL;
                         server := Owned (lit "foo");
                         user := NULL;
                         port := 0;
                         path := Owned (lit "/bar");
                         fragment := NULL;
                         cleanup := 0;
                         query := NULL;
                         query_raw := NULL |})
    /\ minio_rfc3986_user_info sgn uri str = Done (1, uri, str)
    /\ minio_rfc3986_authority sgn uri str
       = ('(ret, uri1, cur) <- minio_rfc3986_host sgn uri str ;;
          if negb (ret =? 0) then Done (1, uri1, str) else
          if peek cur 0 =? ch ":" then
            '(ret, uri2, cur) <- minio_rfc3986_port uri1 (skipn 1 cur) ;;
            if negb (ret =? 0) then Done (1, uri2, str) else Done (0, uri2, cur)
          else Done (0, uri1, cur))
    /\ (forall r uri' cur,
          minio_rfc3986_authority sgn uri str = Done (r, uri', cur) ->
          field user uri' = field user uri).
Proof.
  intros sgn uri str Hat.
  assert (Hui : minio_rfc3986_user_info sgn uri str = Done (1, uri, str)).
  { unfold minio_rfc3986_user_info.
    destruct (peek (user_info_scan str) 0 =? ch "@") eqn:E; [|reflexivity].
    apply Z.eqb_eq in E. contradiction. }
  assert (Hauth : minio_rfc3986_authority sgn uri str
       = ('(ret, uri1, cur) <- minio_rfc3986_host sgn uri str ;;
          if negb (ret =? 0) then Done (1, uri1, str) else
          if peek cur 0 =? ch ":" then
            '(ret, uri2, cur) <- minio_rfc3986_port uri1 (skipn 1 cur) ;;
            if negb (ret =? 0) then Done (1, uri2, str) else Done (0, uri2, cur)
          else Done (0, uri1, cur))).
  { unfold minio_rfc3986_authority. rewrite Hui. reflexivity. }
  split; [destruct sgn; vm_compute; reflexivity|].
  split; [exact Hui|]. split; [exact Hauth|].
  intros r uri' cur H. rewrite Hauth in H.
  destruct (minio_rfc3986_host sgn uri str) as [[[hr hu] hc]|] eqn:EH;
    cbn [bind] in H; [|discriminate].
  apply host_user in EH.
  destruct (negb (hr =? 0)); [inversion H; subst; exact EH|].
  destruct (peek hc 0 =? ch ":"); [|inversion H; subst; exact EH].
  destruct (minio_rfc3986_port hu (skipn 1 hc)) as [[[pr pu] pc]|] eqn:EP;
    cbn [bind] in H; [|discriminate].
  apply port_user in EP.
  destruct (negb (pr =? 0)); inversion H; subst; congruence.
Qed.

(** The userinfo matcher at the authority [foo/bar]. *)
Lemma foo_bar_example :
  peek (user_info_scan (lit "foo/bar")) 0 <> ch "@"
  /\ minio_rfc3986_user_info true (Some minio_uri_new) (lit "foo/bar")
     = Done (1, Some minio_uri_new, lit "foo/bar").
Proof.
  assert (H : peek (user_info_scan (lit "foo/bar")) 0 <> ch "@")
    by (vm_compute; discriminate).
  split; [exact H|].
  exact (proj1 (proj2 (userinfo_without_at_not_committed
                         true (Some minio_uri_new) (lit "foo/bar") H))).
Defined.

(** ** Where the code departs from its documentation *)

(** C1.  [minio_uri_parse] on a null string returns -1 and stores no
    record.  On the one-space string, which the grammar rejects
    ([minio_uri_parse_into] returns 1), it returns 0 and stores the empty
    record: the code of the grammar is overwritten, and the only test for
    failure looks at the marker in the scheme field, which is absent
    here. *)
Theorem minio_uri_parse_accepts_malformed : forall sgn,
  minio_uri_parse sgn None = Done (-1, None)
  /\ minio_uri_parse_into sgn (Some minio_uri_new) (Some (lit " "))
     = Done (1, Some minio_uri_new)
  /\ minio_uri_parse sgn (Some (lit " ")) = Done (0, Some minio_uri_new).
Proof. intros sgn; destruct sgn; repeat split. Qed.

(** C4.  [URI_TRIM] releases [query] and leaves [query_raw] alone.  After
    [?a] has been parsed into a fresh record both fields hold [a]; parsing
    [http://h] into the same record succeeds and leaves [query] with the
    marker of [FREE] while [query_raw] still holds [a]. *)
Theorem query_raw_survives_trim : forall sgn,
  exists u1 u2,
    minio_uri_parse_into sgn (Some minio_uri_new) (Some (lit "?a"))
      = Done (0, Some u1)
    /\ query u1 = Owned (lit "a") /\ query_raw u1 = Owned (lit "a")
    /\ minio_uri_parse_into sgn (Some u1) (Some (lit "http://h"))
      = Done (0, Some u2)
    /\ query u2 = FREED /\ query_raw u2 = Owned (lit "a")
    /\ ~ query_in_sync u2.
Proof.
  intros sgn. do 2 eexists.
  split; [destruct sgn; vm_compute; reflexivity|].
  split; [reflexivity|]. split; [reflexivity|].
  split; [destruct sgn; vm_compute; reflexivity|].
  split; [reflexivity|]. split; [reflexivity|].
  unfold query_in_sync; simpl; discriminate.
Qed.

(** C5.  The last alternative of [minio_rfc3986_dec_octet] tests the
    second digit twice and never bounds the third: the three-digit runs
    256, 257, 258 and 259 are consumed as one dec-octet, whatever follows
    them.  255 is accepted and 260 is refused, as documented; over all
    three-digit runs 000..999 the matcher consumes the run exactly for
    the values 100..259. *)
Theorem dec_octet_accepts_256_to_259 : forall rest,
  minio_rfc3986_dec_octet (lit "256" ++ rest) = (0, rest)
  /\ minio_rfc3986_dec_octet (lit "257" ++ rest) = (0, rest)
  /\ minio_rfc3986_dec_octet (lit "258" ++ rest) = (0, rest)
  /\ minio_rfc3986_dec_octet (lit "259" ++ rest) = (0, rest)
  /\ minio_rfc3986_dec_octet (lit "255" ++ rest) = (0, rest)
  /\ minio_rfc3986_dec_octet (lit "260" ++ rest) = (1, lit "260" ++ rest)
  /\ forallb (fun n =>
               let '(ret, cur) := minio_rfc3986_dec_octet (three_digits n) in
               if (100 <=? n) && (n <=? 259)
               then (ret =? 0) && (length cur =? 0)%nat
               else (ret =? 1) && (length cur =? 3)%nat)
             (chars_from 0 1000) = true.
Proof.
  intros rest.
  do 6 (split; [reflexivity|]).
  vm_compute; reflexivity.
Qed.

(** C6.  A colon after the host with no digit behind it makes the
    authority fail: [minio_rfc3986_port] returns 1 on [/x],
    [minio_rfc3986_authority] returns 1 on [h:/x], and [http://h:/x] is
    rejected with code 1 in validation mode (null sink).  With a fresh
    record as sink the same input ends in an invalid [free]: the fallback
    to the relative grammar trims the record a second time while the
    scheme carries the marker. *)
Theorem empty_port_is_rejected : forall sgn,
  minio_rfc3986_port None (lit "/x") = Done (1, None, lit "/x")
  /\ minio_rfc3986_authority sgn None (lit "h:/x") = Done (1, None, lit "h:/x")
  /\ minio_uri_parse_into sgn None (Some (lit "http://h:/x")) = Done (1, None)
  /\ minio_uri_parse_into sgn (Some minio_uri_new) (Some (lit "http://h:/x"))
     = Fault.
Proof. intros sgn; destruct sgn; repeat split. Qed.

(** ** Percent codec: escaping followed by unescaping *)

Lemma chars_from_In (lo : Z) (n : nat) (c : Z) :
  lo <= c < lo + Z.of_nat n -> In c (chars_from lo n).
Proof.
  intros H. unfold chars_from. apply in_map_iff.
  exists (Z.to_nat (c - lo)). split; [lia|].
  apply in_seq. lia.
Qed.

Lemma escape_loop_cons (sgn : bool) (c : Z) (s : cstr) :
  escape_loop sgn (c :: s) [] = escape_loop sgn [c] [] ++ escape_loop sgn s [].
Proof.
  cbn [escape_loop].
  destruct (negb (c =? ch "@") && negb (IS_UNRESERVED c)
            && negb (strchr [] c)); reflexivity.
Qed.

Lemma unescape_escaped_char (sgn : bool) (c : Z) (e : cstr) :
  char_roundtrips sgn c = true ->
  unescape_loop sgn (length (escape_loop sgn [c] [] ++ e))
                (escape_loop sgn [c] [] ++ e)
  = c :: unescape_loop sgn (length e) e.
Proof.
  unfold char_roundtrips.
  destruct (escape_loop sgn [c] []) as [|x [|h [|l [|y t]]]];
    try discriminate; intros H.
  - apply andb_true_iff in H. destruct H as [Hx Hp].
    apply Z.eqb_eq in Hx. apply negb_true_iff in Hp. subst x.
    cbn [app length unescape_loop peek nth skipn].
    rewrite Hp, andb_false_r. reflexivity.
  - repeat (apply andb_true_iff in H; destruct H as [H ?]).
    apply Z.eqb_eq in H. subst x.
    match goal with Hd : (_ =? c) = true |- _ => apply Z.eqb_eq in Hd end.
    cbn [app length unescape_loop peek nth skipn].
    replace (2 <? S (S (S (length e))))%nat with true by reflexivity.
    rewrite Z.eqb_refl.
    repeat match goal with Hh : is_hex _ = true |- _ => rewrite Hh; clear Hh end.
    cbn [andb]. congruence.
Qed.

Lemma unescape_escape_loop (sgn : bool) (s : cstr) :
  Forall (fun c => char_roundtrips sgn c = true) s ->
  unescape_loop sgn (length (escape_loop sgn s [])) (escape_loop sgn s []) = s.
Proof.
  induction 1 as [|c s Hc Hs IH]; [reflexivity|].
  rewrite escape_loop_cons, unescape_escaped_char by exact Hc.
  rewrite IH. reflexivity.
Qed.

(** Escaping with an empty exception list and unescaping the result gives
    the string back, for every string made of chars that survive on their
    own. *)
Lemma unescape_escape_chars (sgn : bool) (s : cstr) :
  Forall (fun c => char_roundtrips sgn c = true) s ->
  unescape_escape sgn s [] = Owned s.
Proof.
  intros H. unfold unescape_escape, minio_uri_string_escape.
  destruct s as [|c s]; [reflexivity|].
  cbn [strlen length]. rewrite Nat2Z.inj_succ.
  replace (negb (0 <? Z.succ (Z.of_nat (length s)))) with false
    by (symmetry; apply negb_false_iff, Z.ltb_lt; lia).
  unfold minio_uri_string_unescape. cbn [Z.leb Z.compare].
  unfold strlen.
  destruct (Z.of_nat (length (escape_loop sgn (c :: s) [])) <? 0) eqn:E;
    [apply Z.ltb_lt in E; lia|].
  rewrite Nat2Z.id, unescape_escape_loop by exact H. reflexivity.
Qed.

(** Every 7-bit char 0x01..0x7F survives, whatever the signedness of
    [char]. *)
Lemma ascii_chars_roundtrip (sgn : bool) :
  forallb (char_roundtrips sgn) (chars_from 1 127) = true.
Proof. destruct sgn; vm_compute; reflexivity. Qed.

(** Where plain [char] is unsigned every byte 0x01..0xFF survives. *)
Lemma unsigned_chars_roundtrip :
  forallb (char_roundtrips false) (chars_from 1 255) = true.
Proof. vm_compute; reflexivity. Qed.

(** The round trip holds for 7-bit strings on every platform. *)
Lemma unescape_escape_ascii (sgn : bool) (s : cstr) :
  Forall (fun c => 1 <= c <= 127) s -> unescape_escape sgn s [] = Owned s.
Proof.
  intros H. apply unescape_escape_chars.
  eapply Forall_impl; [|exact H]. intros c Hc.
  pose proof (ascii_chars_roundtrip sgn) as HA.
  rewrite forallb_forall in HA. apply HA, chars_from_In.
  cbv beta in Hc. change (Z.of_nat 127) with 127. lia.
Qed.

(** The round trip holds for all byte strings where [char] is unsigned. *)
Lemma unescape_escape_unsigned (s : cstr) :
  Forall (fun c => 1 <= c <= 255) s -> unescape_escape false s [] = Owned s.
Proof.
  intros H. apply unescape_escape_chars.
  eapply Forall_impl; [|exact H]. intros c Hc.
  pose proof unsigned_chars_roundtrip as HA.
  rewrite forallb_forall in HA. apply HA, chars_from_In.
  cbv beta in Hc. change (Z.of_nat 255) with 255. lia.
Qed.

(** C3.  Where plain [char] is signed, the escaper mangles every byte
    0x80..0xFF: the high nibble is taken by an arithmetic shift of a
    negative [char].  The byte 0xE9 (the char -23) is escaped to [%59],
    which unescapes to [Y]; for none of the 128 chars -128..-1 does the
    one-char string come back from the round trip. *)
Theorem escape_mangles_high_bytes :
  minio_uri_string_escape true (Some [-23]) [] = Owned (lit "%59")
  /\ minio_uri_string_unescape true (Some (lit "%59")) 0 = Owned (lit "Y")
  /\ unescape_escape true [-23] [] = Owned (lit "Y")
  /\ forallb (fun c => negb (same_string (unescape_escape true [c] []) [c]))
             (chars_from (-128) 128)
     = true.
Proof. repeat split; vm_compute; reflexivity. Qed.

(** ** The query fields *)

Lemma capture_owned (sgn : bool) (u : bURI) (str : cstr) (n : nat) :
  is_owned (capture sgn u str n) = true.
Proof.
  unfold capture, minio_uri_string_unescape.
  destruct (negb (Z.land (cleanup u) 2 =? 0)); [reflexivity|].
  destruct (Z.of_nat n <=? 0).
  - destruct (Z.of_nat (strlen str) <? 0) eqn:E; [|reflexivity].
    apply Z.ltb_lt in E. lia.
  - destruct (Z.of_nat n <? 0) eqn:E; [|reflexivity].
    apply Z.ltb_lt in E. lia.
Qed.

(** The query production stores both fields together. *)
Lemma query_sets_both (sgn : bool) (u : bURI) (str : cstr) r o c :
  minio_rfc3986_query sgn (Some u) str = Done (r, o, c) ->
  exists u', o = Some u' /\ is_owned (query u') = true
             /\ is_owned (query_raw u') = true.
Proof.
  unfold minio_rfc3986_query, on_uri; intros H; inv_done.
  eexists; split; [reflexivity|]. simpl. split; [apply capture_owned|reflexivity].
Qed.

Section QueryFrame.
Variable sgn : bool.

Ltac frame_tac :=
  intros H; inv_done;
  repeat match goal with
  | E : on_uri _ _ = Done _ |- _ =>
      eapply (on_uri_frame query_pointers) in E;
      [|let Hu := fresh "Hu" in
        intros ? ? Hu; cbv beta in Hu; inv_done; reflexivity]
  end;
  try congruence.

Lemma scheme_qframe uri str r uri' c :
  minio_rfc3986_scheme uri str = Done (r, uri', c) ->
  field query_pointers uri' = field query_pointers uri.
Proof. unfold minio_rfc3986_scheme. frame_tac. Qed.

Lemma fragment_qframe uri str r uri' c :
  minio_rfc3986_fragment sgn uri str = Done (r, uri', c) ->
  field query_pointers uri' = field query_pointers uri.
Proof. unfold minio_rfc3986_fragment. frame_tac. Qed.

Lemma port_qframe uri str r uri' c :
  minio_rfc3986_port uri str = Done (r, uri', c) ->
  field query_pointers uri' = field query_pointers uri.
Proof.
  unfold minio_rfc3986_port; intros H.
  destruct (ISA_DIGIT str); [|inv_done; reflexivity].
  pose proof (port_loop_frame query_pointers (fun _ _ => eq_refl) str
                (option_map (set_port 0) uri)) as HS.
  destruct (port_loop (option_map (set_port 0) uri) str) as [u1 c1].
  inv_done. simpl in HS. rewrite HS. destruct uri; reflexivity.
Qed.

Lemma user_info_qframe uri str r uri' c :
  minio_rfc3986_user_info sgn uri str = Done (r, uri', c) ->
  field query_pointers uri' = field query_pointers uri.
Proof. unfold minio_rfc3986_user_info. frame_tac. Qed.

Lemma host_qframe uri str r uri' c :
  minio_rfc3986_host sgn uri str = Done (r, uri', c) ->
  field query_pointers uri' = field query_pointers uri.
Proof. unfold minio_rfc3986_host, host_found. frame_tac. Qed.

Lemma authority_qframe uri str r uri' c :
  minio_rfc3986_authority sgn uri str = Done (r, uri', c) ->
  field query_pointers uri' = field query_pointers uri.
Proof.
  unfold minio_rfc3986_authority; intros H; inv_done;
    repeat match goal with
    | E : minio_rfc3986_user_info _ _ _ = Done _ |- _ =>
        apply user_info_qframe in E
    | E : minio_rfc3986_host _ _ _ = Done _ |- _ => apply host_qframe in E
    | E : minio_rfc3986_port _ _ = Done _ |- _ => apply port_qframe in E
    end; congruence.
Qed.

Lemma path_ab_empty_qframe uri str r uri' c :
  minio_rfc3986_path_ab_empty sgn uri str = Done (r, uri', c) ->
  field query_pointers uri' = field query_pointers uri.
Proof. unfold minio_rfc3986_path_ab_empty, store_path. frame_tac. Qed.

Lemma path_absolute_qframe uri str r uri' c :
  minio_rfc3986_path_absolute sgn uri str = Done (r, uri', c) ->
  field query_pointers uri' = field query_pointers uri.
Proof. unfold minio_rfc3986_path_absolute, store_path. frame_tac. Qed.

Lemma path_rootless_qframe uri str r uri' c :
  minio_rfc3986_path_rootless sgn uri str = Done (r, uri', c) ->
  field query_pointers uri' = field query_pointers uri.
Proof. unfold minio_rfc3986_path_rootless, store_path. frame_tac. Qed.

Lemma path_no_scheme_qframe uri str r uri' c :
  minio_rfc3986_path_no_scheme sgn uri str = Done (r, uri', c) ->
  field query_pointers uri' = field query_pointers uri.
Proof. unfold minio_rfc3986_path_no_scheme, store_path. frame_tac. Qed.

Lemma path_empty_qframe uri uri' :
  path_empty uri = Done uri' -> field query_pointers uri' = field query_pointers uri.
Proof.
  unfold path_empty. intros H. eapply (on_uri_frame query_pointers) in H; [exact H|].
  intros ? ? Hu; cbv beta in Hu; inv_done; reflexivity.
Qed.

Lemma hier_part_qframe uri str r uri' c :
  minio_rfc3986_hier_part sgn uri str = Done (r, uri', c) ->
  field query_pointers uri' = field query_pointers uri.
Proof.
  unfold minio_rfc3986_hier_part; intros H; inv_done;
    repeat match goal with
    | E : minio_rfc3986_authority _ _ _ = Done _ |- _ =>
        apply authority_qframe in E
    | E : minio_rfc3986_path_ab_empty _ _ _ = Done _ |- _ =>
        apply path_ab_empty_qframe in E
    | E : minio_rfc3986_path_absolute _ _ _ = Done _ |- _ =>
        apply path_absolute_qframe in E
    | E : minio_rfc3986_path_rootless _ _ _ = Done _ |- _ =>
        apply path_rootless_qframe in E
    | E : path_empty _ = Done _ |- _ => apply path_empty_qframe in E
    end; congruence.
Qed.

Lemma null_sync_frame uri uri' :
  field query_pointers uri' = field query_pointers uri -> null_sync uri -> null_sync uri'.
Proof.
  destruct uri as [u|], uri' as [u'|]; simpl; try discriminate; auto.
  unfold query_pointers. intros H; inversion H. congruence.
Qed.

Lemma URI_TRIM_null_sync uri uri' :
  URI_TRIM uri = Done uri' -> null_sync uri -> null_sync uri'.
Proof.
  destruct uri as [u|]; [|intros H; inversion H; auto].
  unfold URI_TRIM, on_uri; intros H; inv_done. simpl.
  match goal with
  | E : FREE_if_set (query _) = Done _ |- _ =>
      apply FREE_if_set_Done in E; simpl in E; destruct E as [_ E]
  end.
  congruence.
Qed.

Lemma query_null_sync uri str r uri' c :
  minio_rfc3986_query sgn uri str = Done (r, uri', c) -> null_sync uri'.
Proof.
  destruct uri as [u|].
  - intros H. apply query_sets_both in H.
    destruct H as (u' & -> & H1 & H2). simpl.
    destruct (query u'), (query_raw u'); try discriminate; reflexivity.
  - unfold minio_rfc3986_query, on_uri; intros H; inv_done. exact I.
Qed.

(** Turn an equation about one call into the step it contributes to the
    invariant. *)
Ltac null_sync_steps :=
  repeat match goal with
  | E : URI_TRIM ?a = Done ?b |- _ =>
      generalize (URI_TRIM_null_sync a b E); clear E; intro
  | E : minio_rfc3986_query sgn ?a ?s = Done (?r, ?b, ?c) |- _ =>
      generalize (query_null_sync a s r b c E); clear E; intro
  | E : minio_rfc3986_fragment sgn ?a ?s = Done (?r, ?b, ?c) |- _ =>
      generalize (null_sync_frame a b (fragment_qframe a s r b c E));
      clear E; intro
  | E : minio_rfc3986_scheme ?a ?s = Done (?r, ?b, ?c) |- _ =>
      generalize (null_sync_frame a b (scheme_qframe a s r b c E));
      clear E; intro
  | E : minio_rfc3986_authority sgn ?a ?s = Done (?r, ?b, ?c) |- _ =>
      generalize (null_sync_frame a b (authority_qframe a s r b c E));
      clear E; intro
  | E : minio_rfc3986_hier_part sgn ?a ?s = Done (?r, ?b, ?c) |- _ =>
      generalize (null_sync_frame a b (hier_part_qframe a s r b c E));
      clear E; intro
  | E : minio_rfc3986_path_ab_empty sgn ?a ?s = Done (?r, ?b, ?c) |- _ =>
      generalize (null_sync_frame a b (path_ab_empty_qframe a s r b c E));
      clear E; intro
  | E : minio_rfc3986_path_absolute sgn ?a ?s = Done (?r, ?b, ?c) |- _ =>
      generalize (null_sync_frame a b (path_absolute_qframe a s r b c E));
      clear E; intro
  | E : minio_rfc3986_path_no_scheme sgn ?a ?s = Done (?r, ?b, ?c) |- _ =>
      generalize (null_sync_frame a b (path_no_scheme_qframe a s r b c E));
      clear E; intro
  | E : path_empty ?a = Done ?b |- _ =>
      generalize (null_sync_frame a b (path_empty_qframe a b E));
      clear E; intro
  end.

Lemma query_fragment_end_null_sync uri str r uri' :
  query_fragment_end sgn uri str = Done (r, uri') ->
  null_sync uri -> null_sync uri'.
Proof.
  unfold query_fragment_end; intros H HS; inv_done; null_sync_steps; auto.
Qed.

Lemma relative_ref_null_sync uri str r uri' :
  minio_rfc3986_relative_ref sgn uri str = Done (r, uri') ->
  null_sync uri -> null_sync uri'.
Proof.
  unfold minio_rfc3986_relative_ref; intros H HS; inv_done;
    repeat match goal with
    | E : query_fragment_end sgn ?a ?s = Done (?r, ?b) |- _ =>
        generalize (query_fragment_end_null_sync a s r b E); clear E; intro
    end; null_sync_steps; auto.
Qed.

Lemma rfc3986_null_sync uri str r uri' :
  minio_rfc3986 sgn uri str = Done (r, uri') ->
  null_sync uri -> null_sync uri'.
Proof.
  unfold minio_rfc3986; intros H HS; inv_done;
    repeat match goal with
    | E : query_fragment_end sgn ?a ?s = Done (?r, ?b) |- _ =>
        generalize (query_fragment_end_null_sync a s r b E); clear E; intro
    end; null_sync_steps; auto.
Qed.

(** A parse into a record whose two query pointers are both null or both
    non-null returns a record with the same property: what goes out of
    step is only which of the two still holds a string. *)
Lemma parse_into_null_sync uri str r uri' :
  minio_uri_parse_into sgn uri str = Done (r, uri') ->
  null_sync uri -> null_sync uri'.
Proof.
  unfold minio_uri_parse_into, minio_rfc3986_uri_reference.
  intros H HS; inv_done;
    repeat match goal with
    | E : minio_rfc3986 sgn ?a ?s = Done (?r, ?b) |- _ =>
        generalize (rfc3986_null_sync a s r b E); clear E; intro
    | E : minio_rfc3986_relative_ref sgn ?a ?s = Done (?r, ?b) |- _ =>
        generalize (relative_ref_null_sync a s r b E); clear E; intro
    end; null_sync_steps; auto 6.
Qed.

End QueryFrame.

(** * Further properties of the code *)

(** ** Percent codec *)





Lemma unescape_loop_no_percent (sgn : bool) : forall n inp,
  (n <= length inp)%nat -> ~ In (ch "%") (firstn n inp) ->
  unescape_loop sgn n inp = firstn n inp.
Proof.
  induction n as [|n IH]; intros inp Hn Hp; [reflexivity|].
  destruct inp as [|c inp1]; [simpl in Hn; lia|].
  cbn [unescape_loop peek nth skipn firstn].
  assert (Hc : (c =? ch "%") = false).
  { apply Z.eqb_neq. intros ->. apply Hp. left. reflexivity. }
  rewrite Hc, andb_false_r. cbn [andb].
  f_equal. apply IH; [simpl in Hn; lia|].
  intros Hin. apply Hp. right. exact Hin.
Qed.

(** X2.  Unescaping is the identity on what contains no percent sign: the
    first [n] chars of [s] come back unchanged when none of them is a
    percent sign ([n] between 1 and the length of [s]), and so does the
    whole of [s] when [len] is 0. *)
Theorem unescape_without_percent :
  forall (sgn : bool) (s : cstr) (n : nat),
    (1 <= n <= length s)%nat ->
    ~ In (ch "%") (firstn n s) ->
    minio_uri_string_unescape sgn (Some s) (Z.of_nat n) = Owned (firstn n s)
    /\ (n = length s -> minio_uri_string_unescape sgn (Some s) 0 = Owned s).
Proof.
  intros sgn s n Hn Hp. unfold minio_uri_string_unescape. split.
  - destruct (Z.of_nat n <=? 0) eqn:E; [apply Z.leb_le in E; lia|].
    destruct (Z.of_nat n <? 0) eqn:E2; [apply Z.ltb_lt in E2; lia|].
    rewrite Nat2Z.id, unescape_loop_no_percent by (lia || assumption).
    reflexivity.
  - intros ->. cbn [Z.leb Z.compare]. unfold strlen.
    destruct (Z.of_nat (length s) <? 0) eqn:E2;
      [apply Z.ltb_lt in E2; lia|].
    rewrite Nat2Z.id, unescape_loop_no_percent by (lia || assumption).
    rewrite firstn_all. reflexivity.
Qed.

(** The hypotheses of X2 hold for the four chars of [a/b?]. *)
Lemma unescape_plain_example :
  (1 <= 4 <= length (lit "a/b?"))%nat
  /\ ~ In (ch "%") (firstn 4 (lit "a/b?"))
  /\ minio_uri_string_unescape true (Some (lit "a/b?")) (Z.of_nat 4)
     = Owned (firstn 4 (lit "a/b?")).
Proof.
  assert (H1 : (1 <= 4 <= length (lit "a/b?"))%nat) by (simpl; lia).
  assert (H2 : ~ In (ch "%") (firstn 4 (lit "a/b?"))).
  { simpl. intros [H|[H|[H|[H|[]]]]]; discriminate H. }
  split; [exact H1|]. split; [exact H2|].
  exact (proj1 (unescape_without_percent true (lit "a/b?") 4 H1 H2)).
Defined.

Lemma escape_loop_step (sgn : bool) (c : Z) (s list : cstr) :
  escape_loop sgn (c :: s) list
  = (if escape_keeps list c then [c]
     else [ch "%"; escape_digit sgn (to_uchar (Z.shiftr c 4));
           escape_digit sgn (to_uchar (Z.land c 15))])
    ++ escape_loop sgn s list.
Proof.
  cbn [escape_loop]. unfold escape_keeps.
  rewrite <- !negb_orb.
  destruct ((c =? ch "@") || IS_UNRESERVED c || strchr list c); reflexivity.
Qed.

Lemma escape_loop_length (sgn : bool) (list : cstr) : forall s,
  (length s <= length (escape_loop sgn s list) <= 3 * length s)%nat.
Proof.
  induction s as [|c s IH]; [simpl; lia|].
  rewrite escape_loop_step, length_app.
  destruct (escape_keeps list c); simpl length; lia.
Qed.


Lemma escape_loop_kept (sgn : bool) (list : cstr) : forall s,
  forallb (escape_keeps list) s = true -> escape_loop sgn s list = s.
Proof.
  induction s as [|c s IH]; [reflexivity|].
  cbn [forallb]. intros H. apply andb_true_iff in H. destruct H as [Hc Hs].
  rewrite escape_loop_step, Hc, IH by exact Hs. reflexivity.
Qed.

Lemma escape_loop_changed (sgn : bool) (list : cstr) : forall s,
  forallb (escape_keeps list) s = false ->
  (length s < length (escape_loop sgn s list))%nat.
Proof.
  induction s as [|c s IH]; [discriminate|].
  cbn [forallb]. intros H. rewrite escape_loop_step, length_app.
  pose proof (escape_loop_length sgn list s) as HL.
  destruct (escape_keeps list c); simpl in *; [|lia].
  specialize (IH H). lia.
Qed.

(** X4.  Escaping returns its input unchanged exactly when every char of
    it is [@], unreserved or in the exception list. *)
Theorem escape_identity_iff_all_kept : forall (sgn : bool) (s list : cstr),
  same_string (minio_uri_string_escape sgn (Some s) list) s
  = forallb (escape_keeps list) s.
Proof.
  intros sgn s list. unfold minio_uri_string_escape.
  destruct s as [|c s]; [reflexivity|].
  destruct (negb (0 <? Z.of_nat (strlen (c :: s)))) eqn:E.
  - apply negb_true_iff, Z.ltb_ge in E. simpl in E. lia.
  - unfold same_string.
    destruct (forallb (escape_keeps list) (c :: s)) eqn:K.
    + rewrite escape_loop_kept by exact K.
      destruct (list_eq_dec Z.eq_dec (c :: s) (c :: s)); congruence.
    + apply (escape_loop_changed sgn) in K.
      destruct (list_eq_dec Z.eq_dec (escape_loop sgn (c :: s) list) (c :: s))
        as [Heq|]; [|reflexivity].
      rewrite Heq in K. lia.
Qed.

Lemma char_in_range_roundtrips (sgn : bool) (c : Z) :
  1 <= c <= (if sgn then 127 else 255) -> char_roundtrips sgn c = true.
Proof.
  intros H. destruct sgn.
  - pose proof (ascii_chars_roundtrip true) as HA.
    rewrite forallb_forall in HA. apply HA, chars_from_In.
    change (Z.of_nat 127) with 127. lia.
  - pose proof unsigned_chars_roundtrip as HA.
    rewrite forallb_forall in HA. apply HA, chars_from_In.
    change (Z.of_nat 255) with 255. lia.
Qed.

Lemma unescape_loop_copy (sgn : bool) (c : Z) (n : nat) (e : cstr) :
  c <> ch "%" ->
  unescape_loop sgn (S n) (c :: e) = c :: unescape_loop sgn n e.
Proof.
  intros Hc. cbn [unescape_loop peek nth skipn].
  apply Z.eqb_neq in Hc. rewrite Hc, andb_false_r. reflexivity.
Qed.

Lemma kept_not_percent (list : cstr) (c : Z) :
  c <> 0 -> ~ In (ch "%") list -> escape_keeps list c = true -> c <> ch "%".
Proof.
  intros H0 HL HK ->. unfold escape_keeps, strchr in HK.
  cbn in HK. destruct (existsb (Z.eqb 37) list) eqn:E; [|discriminate].
  apply existsb_exists in E. destruct E as (x & Hx & Hx').
  apply Z.eqb_eq in Hx'. subst x. contradiction.
Qed.

Lemma not_kept_escaped_alone (sgn : bool) (list : cstr) (c : Z) :
  c <> 0 -> escape_keeps list c = false ->
  escape_loop sgn [c] []
  = [ch "%"; escape_digit sgn (to_uchar (Z.shiftr c 4));
     escape_digit sgn (to_uchar (Z.land c 15))].
Proof.
  intros H0 HK. rewrite escape_loop_step.
  unfold escape_keeps in *.
  apply orb_false_iff in HK. destruct HK as [HK _].
  rewrite HK. unfold strchr. cbn [existsb orb].
  apply Z.eqb_neq in H0. rewrite H0. reflexivity.
Qed.

Lemma unescape_escape_loop_list (sgn : bool) (list : cstr) :
  ~ In (ch "%") list ->
  forall s,
    Forall (fun c => 1 <= c <= (if sgn then 127 else 255)) s ->
    unescape_loop sgn (length (escape_loop sgn s list)) (escape_loop sgn s list)
    = s.
Proof.
  intros HL. induction 1 as [|c s Hc Hs IH]; [reflexivity|].
  rewrite escape_loop_step.
  destruct (escape_keeps list c) eqn:K.
  - cbn [app length]. rewrite unescape_loop_copy, IH; [reflexivity|].
    apply (kept_not_percent list); [lia|exact HL|exact K].
  - rewrite <- (not_kept_escaped_alone sgn list c) by (lia || exact K).
    rewrite unescape_escaped_char, IH;
      [reflexivity|apply char_in_range_roundtrips; exact Hc].
Qed.

(** X5.  Unescaping undoes escaping, for any exception list without a
    percent sign: on strings of 7-bit chars 0x01..0x7F whatever the
    signedness of plain [char], and on strings of any bytes 0x01..0xFF
    where plain [char] is unsigned. *)
Theorem unescape_undoes_escape :
  forall (sgn : bool) (s list : cstr),
    Forall (fun c => 1 <= c <= (if sgn then 127 else 255)) s ->
    ~ In (ch "%") list ->
    unescape_escape sgn s list = Owned s.
Proof.
  intros sgn s list Hs HL. unfold unescape_escape, minio_uri_string_escape.
  destruct s as [|c s]; [reflexivity|].
  destruct (negb (0 <? Z.of_nat (strlen (c :: s)))) eqn:E.
  { apply negb_true_iff, Z.ltb_ge in E. simpl in E. lia. }
  unfold minio_uri_string_unescape. cbn [Z.leb Z.compare]. unfold strlen.
  destruct (Z.of_nat (length (escape_loop sgn (c :: s) list)) <? 0) eqn:E2;
    [apply Z.ltb_lt in E2; lia|].
  rewrite Nat2Z.id, unescape_escape_loop_list by assumption. reflexivity.
Qed.

(** The hypotheses of X5 hold for [a b/%] with the exception list [/]. *)
Lemma unescape_undoes_escape_example :
  Forall (fun c => 1 <= c <= (if true then 127 else 255)) (lit "a b/%")
  /\ ~ In (ch "%") (lit "/")
  /\ unescape_escape true (lit "a b/%") (lit "/") = Owned (lit "a b/%").
Proof.
  assert (H1 : Forall (fun c => 1 <= c <= (if true then 127 else 255))
                      (lit "a b/%")).
  { change (lit "a b/%") with [97; 32; 98; 47; 37].
    repeat (apply Forall_cons; [lia|]). apply Forall_nil. }
  assert (H2 : ~ In (ch "%") (lit "/")).
  { simpl. intros [H|[]]; discriminate H. }
  split; [exact H1|]. split; [exact H2|].
  exact (unescape_undoes_escape true (lit "a b/%") (lit "/") H1 H2).
Defined.

(** ** Cursors stay inside the input *)

Lemma suffix_of_refl (str : cstr) : suffix_of str str.
Proof. exists 0%nat. split; [lia|reflexivity]. Qed.

Lemma suffix_of_skipn (n : nat) (cur str : cstr) :
  suffix_of cur str -> suffix_of (skipn n cur) str.
Proof.
  intros (k & Hk & ->).
  exists (Nat.min (n + k) (length str)). split; [lia|].
  rewrite skipn_skipn.
  destruct (Nat.le_gt_cases (n + k) (length str)) as [H|H].
  - rewrite Nat.min_l by lia. reflexivity.
  - rewrite Nat.min_r by lia.
    rewrite !skipn_all2 by lia. reflexivity.
Qed.

Lemma suffix_of_trans (a b c : cstr) :
  suffix_of a b -> suffix_of b c -> suffix_of a c.
Proof.
  intros (n & _ & ->) H. apply suffix_of_skipn. exact H.
Qed.

Lemma suffix_of_nil (str : cstr) : suffix_of [] str.
Proof.
  exists (length str). split; [lia|]. rewrite skipn_all. reflexivity.
Qed.

Lemma suffix_of_tail (c : Z) (cur : cstr) : suffix_of cur (c :: cur).
Proof. exists 1%nat. split; [simpl; lia|reflexivity]. Qed.

Lemma suffix_of_length (cur str : cstr) :
  suffix_of cur str -> (length cur <= length str)%nat.
Proof. intros (n & Hn & ->). rewrite length_skipn. lia. Qed.

(** The captured span and the rest make up the input. *)
Lemma suffix_of_split (cur str : cstr) :
  suffix_of cur str -> strndup str (ptr_diff cur str) ++ cur = str.
Proof.
  intros (n & Hn & ->). unfold strndup, ptr_diff.
  rewrite length_skipn.
  replace (length str - (length str - n))%nat with n by lia.
  apply firstn_skipn.
Qed.

Lemma while_incr_suffix (cond : cstr -> bool) (cur : cstr) :
  suffix_of (while_incr cond cur) cur.
Proof.
  induction cur as [|c cur1 IH]; simpl; [apply suffix_of_refl|].
  destruct (cond (c :: cur1)); [|apply suffix_of_refl].
  eapply suffix_of_trans; [exact IH|apply suffix_of_tail].
Qed.

Lemma while_NEXT_suffix (cond : cstr -> bool) (cur : cstr) :
  suffix_of (while_NEXT cond cur) cur.
Proof.
  remember (length cur) as n eqn:Hn. revert cur Hn.
  induction n as [n IH] using lt_wf_ind; intros cur Hn.
  destruct cur as [|c cur1]; simpl in *; [apply suffix_of_refl|].
  destruct (cond (c :: cur1)); [|apply suffix_of_refl].
  destruct (c =? ch "%").
  - destruct cur1 as [|a [|b cur3]]; try apply suffix_of_nil.
    eapply suffix_of_trans;
      [apply (IH (length cur3)); [simpl in Hn; lia|reflexivity]|].
    exists 3%nat. split; [simpl; lia|reflexivity].
  - eapply suffix_of_trans;
      [apply (IH (length cur1)); [lia|reflexivity]|apply suffix_of_tail].
Qed.

Lemma segment_suffix (str : cstr) (forbid : Z) (empty : bool) :
  suffix_of (snd (minio_rfc3986_segment str forbid empty)) str.
Proof.
  unfold minio_rfc3986_segment.
  destruct (negb (ISA_PCHAR str)); simpl;
    [apply suffix_of_refl|apply while_NEXT_suffix].
Qed.

Lemma slash_segments_suffix : forall fuel cur,
  suffix_of (snd (slash_segments fuel cur)) cur.
Proof.
  induction fuel as [|fuel IH]; intros cur; cbn [slash_segments].
  - destruct (peek cur 0 =? ch "/"); apply suffix_of_refl.
  - destruct (peek cur 0 =? ch "/"); [|apply suffix_of_refl].
    pose proof (segment_suffix (skipn 1 cur) 0 true) as HS.
    destruct (minio_rfc3986_segment (skipn 1 cur) 0 true) as [ret cur'].
    cbn [snd] in HS.
    assert (H1 : suffix_of cur' cur).
    { eapply suffix_of_trans; [exact HS|].
      apply suffix_of_skipn, suffix_of_refl. }
    destruct (negb (ret =? 0)); cbn [snd]; [exact H1|].
    eapply suffix_of_trans; [apply IH|exact H1].
Qed.

Lemma dec_octet_suffix (str : cstr) :
  suffix_of (snd (minio_rfc3986_dec_octet str)) str.
Proof.
  unfold minio_rfc3986_dec_octet.
  repeat match goal with
  | |- context [if ?b then _ else _] => destruct b
  end; cbn [snd];
    first [apply suffix_of_refl | apply suffix_of_skipn, suffix_of_refl].
Qed.


(** ** The host production *)

Lemma dec_octet_at_dot (cur : cstr) :
  (peek cur 0 =? ch ".") = true -> minio_rfc3986_dec_octet cur = (1, cur).
Proof.
  intros H. apply Z.eqb_eq in H. unfold minio_rfc3986_dec_octet, ISA_DIGIT.
  rewrite H. reflexivity.
Qed.

(** The dotted-quad attempt never reaches [goto found]: after the second
    octet the cursor is left on the dot, where the third octet cannot
    start. *)
Lemma host_ipv4_never (cur : cstr) : host_ipv4 cur = None.
Proof.
  unfold host_ipv4.
  destruct (minio_rfc3986_dec_octet cur) as [r1 c1].
  destruct (negb (r1 =? 0)); [reflexivity|].
  destruct (negb (peek c1 0 =? ch ".")); [reflexivity|].
  destruct (minio_rfc3986_dec_octet (skipn 1 c1)) as [r2 c2].
  destruct (negb (r2 =? 0)); [reflexivity|].
  destruct (peek c2 0 =? ch ".") eqn:E; [|reflexivity].
  cbn [negb]. rewrite (dec_octet_at_dot c2 E). reflexivity.
Qed.

(** The host production without its dotted-quad branch. *)
Lemma host_two_branches :
  forall (sgn : bool) (uri : option bURI) (str : cstr),
    minio_rfc3986_host sgn uri str
    = if peek str 0 =? ch "[" then
        let cur :=
          while_incr (fun cur => negb (peek cur 0 =? ch "]") &&
                                 negb (peek cur 0 =? 0))
                     (skipn 1 str) in
        if negb (peek cur 0 =? ch "]") then Done (1, uri, str)
        else host_found sgn uri str (skipn 1 cur)
      else
        host_found sgn uri str
          (while_NEXT (fun cur => ISA_UNRESERVED cur || ISA_PCT_ENCODED cur ||
                                  ISA_SUB_DELIM cur)
                      str).
Proof.
  intros sgn uri str. unfold minio_rfc3986_host.
  destruct (peek str 0 =? ch "["); [reflexivity|].
  rewrite host_ipv4_never. destruct (ISA_DIGIT str); reflexivity.
Qed.

(** X6.  The dotted-quad branch of [minio_rfc3986_host] is dead: for every
    sink and input the production is the bracketed literal when the input
    starts with an opening bracket (failing with 1 when no closing bracket
    follows) and the reg-name scan otherwise, digits or not. *)
Theorem host_is_literal_or_reg_name :
  forall (sgn : bool) (uri : option bURI) (str : cstr),
    minio_rfc3986_host sgn uri str
    = if peek str 0 =? ch "[" then
        let cur :=
          while_incr (fun cur => negb (peek cur 0 =? ch "]") &&
                                 negb (peek cur 0 =? 0))
                     (skipn 1 str) in
        if negb (peek cur 0 =? ch "]") then Done (1, uri, str)
        else host_found sgn uri str (skipn 1 cur)
      else
        host_found sgn uri str
          (while_NEXT (fun cur => ISA_UNRESERVED cur || ISA_PCT_ENCODED cur ||
                                  ISA_SUB_DELIM cur)
                      str).
Proof.
  intros sgn uri str. unfold minio_rfc3986_host.
  destruct (peek str 0 =? ch "["); [reflexivity|].
  rewrite host_ipv4_never. destruct (ISA_DIGIT str); reflexivity.
Qed.

(** ** Cursors of the productions *)



Section Cursor.
Variable sgn : bool.













End Cursor.

(** ** Raw mode *)



Section RawMode.
Variable sgn : bool.
Variables (u : bURI) (str : cstr).












End RawMode.



(** ** An authority without userinfo and with an empty port *)

Lemma reg_name_plain_not_percent h :
  Forall (fun c => reg_name_plain c = true) h -> ~ In (ch "%") h.
Proof.
  intros H Hin. rewrite Forall_forall in H. apply H in Hin.
  vm_compute in Hin. discriminate Hin.
Qed.

(** The reg-name scan of the host production walks over plain reg-name
    chars one by one and stops at the colon. *)
Lemma reg_name_scan_plain (rest : cstr) : forall h,
  Forall (fun c => reg_name_plain c = true) h ->
  while_NEXT (fun cur => ISA_UNRESERVED cur || ISA_PCT_ENCODED cur ||
                         ISA_SUB_DELIM cur)
             (h ++ ch ":" :: rest)
  = ch ":" :: rest.
Proof.
  induction h as [|c h IH]; intros H.
  - reflexivity.
  - pose proof (Forall_inv H) as Hc. cbv beta in Hc.
    pose proof (Forall_inv_tail H) as Ht.
    cbn [app while_NEXT].
    assert (Hcond : ISA_UNRESERVED (c :: h ++ ch ":" :: rest)
                    || ISA_PCT_ENCODED (c :: h ++ ch ":" :: rest)
                    || ISA_SUB_DELIM (c :: h ++ ch ":" :: rest) = true).
    { unfold reg_name_plain in Hc.
      change (ISA_UNRESERVED (c :: h ++ ch ":" :: rest))
        with (ISA_UNRESERVED [c]).
      change (ISA_SUB_DELIM (c :: h ++ ch ":" :: rest))
        with (ISA_SUB_DELIM [c]).
      apply orb_true_iff in Hc. destruct Hc as [-> | ->];
        [reflexivity|apply orb_true_r]. }
    rewrite Hcond.
    destruct (c =? ch "%") eqn:E.
    + apply Z.eqb_eq in E. subst c. vm_compute in Hc. discriminate Hc.
    + apply IH. exact Ht.
Qed.

(** C7.  A userinfo-shaped prefix that is not followed by [@] is not
    committed, and the host is matched again from the original position;
    but the authority is still refused when its port is empty.  For a
    host [h] of plain reg-name chars followed by a colon and no digit,
    with the userinfo scan not ending on [@]: the userinfo matcher
    returns 1 and leaves record and cursor as they were; the host matcher,
    started at the original position, returns 0 and stores [h] as the
    server; the port matcher then returns 1 on the empty port and the
    authority matcher returns 1 with the cursor where it was.  The user
    field is never touched.  (The authority and server fields given must
    not carry the marker of [FREE], which the host matcher would hand to
    [free].) *)
Theorem authority_without_at_fails_on_empty_port :
  forall (sgn : bool) (u : bURI) (h rest : cstr),
    h <> [] ->
    Forall (fun c => reg_name_plain c = true) h ->
    ISA_DIGIT rest = false ->
    peek (user_info_scan (h ++ ch ":" :: rest)) 0 <> ch "@" ->
    authority u <> FREED -> server u <> FREED ->
    minio_rfc3986_user_info sgn (Some u) (h ++ ch ":" :: rest)
      = Done (1, Some u, h ++ ch ":" :: rest)
    /\ minio_rfc3986_host sgn (Some u) (h ++ ch ":" :: rest)
       = Done (0, Some (set_server (Owned h) (set_authority NULL u)),
               ch ":" :: rest)
    /\ minio_rfc3986_authority sgn (Some u) (h ++ ch ":" :: rest)
       = Done (1, Some (set_server (Owned h) (set_authority NULL u)),
               h ++ ch ":" :: rest).
Proof.
  intros sgn u h rest Hne Hh Hd Hat Ha Hs.
  assert (Hui : minio_rfc3986_user_info sgn (Some u) (h ++ ch ":" :: rest)
                = Done (1, Some u, h ++ ch ":" :: rest)).
  { unfold minio_rfc3986_user_info.
    destruct (peek (user_info_scan (h ++ ch ":" :: rest)) 0 =? ch "@") eqn:E;
      [|reflexivity].
    apply Z.eqb_eq in E. contradiction. }
  assert (Hlen : ptr_diff (ch ":" :: rest) (h ++ ch ":" :: rest) = length h).
  { unfold ptr_diff. rewrite length_app. lia. }
  assert (Hcap : forall u1, cleanup u1 = cleanup u ->
            capture sgn u1 (h ++ ch ":" :: rest) (length h) = Owned h).
  { intros u1 _. unfold capture.
    assert (Hf : firstn (length h) (h ++ ch ":" :: rest) = h).
    { rewrite firstn_app, Nat.sub_diag, firstn_all. cbn [firstn].
      apply app_nil_r. }
    destruct (negb (Z.land (cleanup u1) 2 =? 0));
      [unfold strndup; rewrite Hf; reflexivity|].
    assert (Hpos : (1 <= length h)%nat)
      by (destruct h; [contradiction|simpl; lia]).
    unfold minio_uri_string_unescape.
    destruct (Z.of_nat (length h) <=? 0) eqn:E;
      [apply Z.leb_le in E; lia|].
    destruct (Z.of_nat (length h) <? 0) eqn:E1;
      [apply Z.ltb_lt in E1; lia|].
    rewrite Nat2Z.id, unescape_loop_no_percent, Hf; [reflexivity| |].
    - rewrite length_app. lia.
    - rewrite Hf. apply reg_name_plain_not_percent. exact Hh. }
  assert (Hhost : minio_rfc3986_host sgn (Some u) (h ++ ch ":" :: rest)
                  = Done (0, Some (set_server (Owned h)
                                     (set_authority NULL u)),
                          ch ":" :: rest)).
  { rewrite host_two_branches.
    assert (Hb : (peek (h ++ ch ":" :: rest) 0 =? ch "[") = false).
    { destruct h as [|c h]; [contradiction|].
      pose proof (Forall_inv Hh) as Hc. cbv beta in Hc.
      change (peek ((c :: h) ++ ch ":" :: rest) 0) with c.
      destruct (c =? ch "[") eqn:E; [|reflexivity].
      apply Z.eqb_eq in E. subst c. vm_compute in Hc. discriminate Hc. }
    rewrite Hb, reg_name_scan_plain by exact Hh.
    unfold host_found, on_uri. rewrite Hlen.
    assert (F1 : free_if_set (authority u) = Done tt)
      by (destruct (authority u); [reflexivity|contradiction|reflexivity]).
    assert (F2 : free_if_set (server (set_authority NULL u)) = Done tt)
      by (cbn [server set_authority];
          destruct (server u); [reflexivity|contradiction|reflexivity]).
    rewrite F1. cbn [bind]. rewrite F2. cbn [bind].
    destruct h as [|c h0] eqn:Eh; [contradiction|]. rewrite <- Eh in *.
    assert (Hnz : (length h =? 0)%nat = false)
      by (rewrite Eh; reflexivity).
    rewrite Hnz. cbn [negb bind]. rewrite Hcap by reflexivity. reflexivity. }
  split; [exact Hui|]. split; [exact Hhost|].
  unfold minio_rfc3986_authority. rewrite Hui. cbn [bind Z.eqb negb orb].
  rewrite Hhost. cbn [bind Z.eqb negb].
  change (peek (ch ":" :: rest) 0 =? ch ":") with true. cbv iota.
  change (skipn 1 (ch ":" :: rest)) with rest.
  unfold minio_rfc3986_port. rewrite Hd. reflexivity.
Qed.

(** The hypotheses of C7 hold on a fresh record for the authority [h:]
    before [/x]. *)
Lemma empty_port_authority_example :
  minio_rfc3986_user_info true (Some minio_uri_new) (lit "h:/x")
    = Done (1, Some minio_uri_new, lit "h:/x")
  /\ minio_rfc3986_host true (Some minio_uri_new) (lit "h:/x")
     = Done (0, Some (set_server (Owned (lit "h")) minio_uri_new), lit ":/x")
  /\ minio_rfc3986_authority true (Some minio_uri_new) (lit "h:/x")
     = Done (1, Some (set_server (Owned (lit "h")) minio_uri_new),
             lit "h:/x").
Proof.
  refine (authority_without_at_fails_on_empty_port true minio_uri_new
            (lit "h") (lit "/x") _ _ _ _ _ _).
  - discriminate.
  - repeat constructor.
  - reflexivity.
  - vm_compute. discriminate.
  - discriminate.
  - discriminate.
Defined.

(** ** Octets, ports and schemes *)

Ltac split_tests :=
  repeat match goal with
  | |- context [Z.eqb ?x ?y] => destruct (Z.eqb x y) eqn:?; cbn [andb orb negb]
  | |- context [Z.leb ?x ?y] => destruct (Z.leb x y) eqn:?; cbn [andb orb negb]
  end.

Ltac tests_to_props :=
  repeat match goal with
  | H : Z.eqb _ _ = true |- _ => apply Z.eqb_eq in H
  | H : Z.eqb _ _ = false |- _ => apply Z.eqb_neq in H
  | H : Z.leb _ _ = true |- _ => apply Z.leb_le in H
  | H : Z.leb _ _ = false |- _ => apply Z.leb_gt in H
  end.

(** X8.  [minio_rfc3986_dec_octet] either fails with 1 and leaves the
    cursor where it was, or returns 0 after stepping over one, two or
    three chars, all of them digits. *)
Theorem dec_octet_consumes_one_to_three_digits : forall str : cstr,
  minio_rfc3986_dec_octet str = (1, str)
  \/ exists n, (1 <= n <= 3)%nat /\ (n <= length str)%nat
               /\ minio_rfc3986_dec_octet str = (0, skipn n str)
               /\ forallb IS_DIGIT (firstn n str) = true.
Proof.
  intros str.
  destruct str as [|a [|b [|c str3]]];
    unfold minio_rfc3986_dec_octet, ISA_DIGIT, IS_DIGIT;
    cbn [peek nth skipn firstn forallb length];
    change (ch "0") with 48; change (ch "1") with 49;
    change (ch "2") with 50; change (ch "4") with 52;
    change (ch "5") with 53; change (ch "9") with 57;
    split_tests;
    first
      [ left; reflexivity
      | right; exists 1%nat; cbn [skipn firstn forallb length];
        repeat match goal with H : _ = _ |- _ => rewrite H end;
        cbn [andb]; repeat split; (lia || reflexivity)
      | right; exists 2%nat; cbn [skipn firstn forallb length];
        repeat match goal with H : _ = _ |- _ => rewrite H end;
        cbn [andb]; repeat split; (lia || reflexivity)
      | right; exists 3%nat; cbn [skipn firstn forallb length];
        repeat match goal with H : _ = _ |- _ => rewrite H end;
        cbn [andb]; repeat split; (lia || reflexivity)
      | exfalso; tests_to_props; lia ].
Qed.

Lemma decimal_fold_mono (ds : cstr) : forall acc,
  Forall (fun c => IS_DIGIT c = true) ds -> 0 <= acc ->
  acc <= fold_left (fun a c => a * 10 + (c - ch "0")) ds acc.
Proof.
  induction ds as [|d ds IH]; intros acc Hd Hacc; [simpl; lia|].
  inversion Hd as [|? ? Hd1 Hd2]; subst. cbn [fold_left].
  unfold IS_DIGIT in Hd1. apply andb_true_iff in Hd1.
  destruct Hd1 as [H1 H2]. apply Z.leb_le in H1, H2.
  change (ch "0") with 48 in *. change (ch "9") with 57 in H2.
  specialize (IH (acc * 10 + (d - 48)) Hd2 ltac:(lia)). lia.
Qed.

Lemma wrap_int_small (z : Z) : 0 <= z < 2 ^ 31 -> wrap_int z = z.
Proof.
  intros H. unfold wrap_int.
  rewrite Z.mod_small by lia. lia.
Qed.

Lemma port_loop_digits (u : bURI) (rest : cstr) : forall ds acc,
  Forall (fun c => IS_DIGIT c = true) ds ->
  ISA_DIGIT rest = false ->
  0 <= acc ->
  fold_left (fun a c => a * 10 + (c - ch "0")) ds acc < 2 ^ 31 ->
  port_loop (Some (set_port acc u)) (ds ++ rest)
  = (Some (set_port (fold_left (fun a c => a * 10 + (c - ch "0")) ds acc) u),
     rest).
Proof.
  induction ds as [|d ds IH]; intros acc Hd Hr Hacc Hlt.
  - cbn [app fold_left]. destruct rest as [|c rest1]; [reflexivity|].
    cbn [port_loop]. rewrite Hr. reflexivity.
  - inversion Hd as [|? ? Hd1 Hd2]; subst.
    cbn [app port_loop fold_left] in *.
    change (ISA_DIGIT (d :: ds ++ rest)) with (IS_DIGIT d). rewrite Hd1.
    cbn [option_map port set_port].
    assert (Hd1' := Hd1). unfold IS_DIGIT in Hd1'.
    apply andb_true_iff in Hd1'. destruct Hd1' as [H1 H2].
    apply Z.leb_le in H1, H2.
    change (ch "0") with 48 in *. change (ch "9") with 57 in H2.
    pose proof (decimal_fold_mono ds (acc * 10 + (d - 48)) Hd2 ltac:(lia))
      as Hm.
    change (ch "0") with 48 in Hm.
    rewrite wrap_int_small by lia.
    specialize (IH (acc * 10 + (d - 48)) Hd2 Hr ltac:(lia) Hlt).
    exact IH.
Qed.

(** X9.  On a run of digits followed by something that is not a digit,
    [minio_rfc3986_port] returns 0, leaves the cursor after the run and
    stores the decimal value of the run as the port, provided the value
    fits an [int] (is below 2^31).  Leading zeros are accepted. *)
Theorem port_is_decimal_value :
  forall (u : bURI) (ds rest : cstr),
    ds <> [] ->
    Forall (fun c => IS_DIGIT c = true) ds ->
    ISA_DIGIT rest = false ->
    decimal_value ds < 2 ^ 31 ->
    minio_rfc3986_port (Some u) (ds ++ rest)
    = Done (0, Some (set_port (decimal_value ds) u), rest).
Proof.
  intros u ds rest Hne Hd Hr Hlt. unfold minio_rfc3986_port.
  destruct ds as [|d ds]; [contradiction|].
  inversion Hd as [|? ? Hd1 Hd2]; subst.
  change (ISA_DIGIT ((d :: ds) ++ rest)) with (IS_DIGIT d). rewrite Hd1.
  cbn [option_map].
  pose proof (port_loop_digits (set_port 0 u) rest (d :: ds) 0 Hd Hr
                ltac:(lia) Hlt) as HP.
  change (set_port 0 (set_port 0 u)) with (set_port 0 u) in HP.
  rewrite HP. reflexivity.
Qed.

(** The hypotheses of X9 hold for the digits of [0443] before [/x]. *)
Lemma port_0443_example :
  lit "0443" <> []
  /\ Forall (fun c => IS_DIGIT c = true) (lit "0443")
  /\ ISA_DIGIT (lit "/x") = false
  /\ decimal_value (lit "0443") < 2 ^ 31
  /\ minio_rfc3986_port (Some minio_uri_new) (lit "0443" ++ lit "/x")
     = Done (0, Some (set_port (decimal_value (lit "0443")) minio_uri_new),
             lit "/x").
Proof.
  assert (H1 : lit "0443" <> []) by discriminate.
  assert (H2 : Forall (fun c => IS_DIGIT c = true) (lit "0443")).
  { change (lit "0443") with [48; 52; 52; 51].
    repeat (apply Forall_cons; [reflexivity|]). apply Forall_nil. }
  assert (H3 : ISA_DIGIT (lit "/x") = false) by reflexivity.
  assert (H4 : decimal_value (lit "0443") < 2 ^ 31) by reflexivity.
  repeat (split; [assumption|]).
  exact (port_is_decimal_value minio_uri_new (lit "0443") (lit "/x")
           H1 H2 H3 H4).
Defined.

Lemma while_incr_head (f : Z -> bool) :
  f 0 = false ->
  forall cur,
    exists pre,
      cur = pre ++ while_incr (fun c => f (peek c 0)) cur
      /\ forallb f pre = true
      /\ f (peek (while_incr (fun c => f (peek c 0)) cur) 0) = false.
Proof.
  intros H0. induction cur as [|c cur1 IH].
  - exists []. repeat split; assumption.
  - cbn [while_incr]. change (peek (c :: cur1) 0) with c.
    destruct (f c) eqn:Fc.
    + destruct IH as (pre & Heq & Hall & Hend).
      exists (c :: pre). cbn [app forallb]. rewrite Fc, Hall.
      repeat split; [f_equal; exact Heq|exact Hend].
    + exists []. repeat split; assumption.
Qed.

(** X10.  [minio_rfc3986_scheme] returns 2 and changes nothing when the
    input does not start with a letter.  Otherwise it returns 0 and stores
    the longest prefix made of a letter followed by letters, digits,
    [+], [-] and [.]: the stored scheme and the cursor make up the input,
    and the cursor does not start with a scheme char.  (The stored
    scheme of the record must not be the marker of [FREE], which the
    production would hand to [free].) *)
Theorem scheme_is_longest_prefix :
  forall (u : bURI) (str : cstr),
    scheme u <> FREED ->
    (ISA_ALPHA str = false
     /\ minio_rfc3986_scheme (Some u) str = Done (2, Some u, str))
    \/ (exists s cur,
          minio_rfc3986_scheme (Some u) str
            = Done (0, Some (set_scheme (Owned s) u), cur)
          /\ str = s ++ cur
          /\ IS_ALPHA (peek s 0) = true
          /\ forallb scheme_char s = true
          /\ scheme_char (peek cur 0) = false).
Proof.
  intros u str Hu. unfold minio_rfc3986_scheme.
  destruct (ISA_ALPHA str) eqn:A; [right|left; split; reflexivity].
  cbn [negb].
  destruct str as [|a rest]; [discriminate A|].
  change (skipn 1 (a :: rest)) with rest.
  change (fun cur : cstr =>
            ISA_ALPHA cur || ISA_DIGIT cur || (peek cur 0 =? ch "+")
            || (peek cur 0 =? ch "-") || (peek cur 0 =? ch "."))
    with (fun cur : cstr => scheme_char (peek cur 0)).
  destruct (while_incr_head scheme_char eq_refl rest) as (pre & Heq & Hall & Hend).
  set (cur := while_incr (fun c => scheme_char (peek c 0)) rest) in *.
  assert (HS : suffix_of cur (a :: rest)).
  { eapply suffix_of_trans; [apply while_incr_suffix|apply suffix_of_tail]. }
  apply suffix_of_split in HS.
  assert (Hs : strndup (a :: rest) (ptr_diff cur (a :: rest)) = a :: pre).
  { apply (app_inv_tail cur). rewrite HS. cbn [app]. f_equal. exact Heq. }
  exists (a :: pre), cur. rewrite Hs.
  assert (Hfree : free_if_set (scheme u) = Done tt).
  { destruct (scheme u); [reflexivity|contradiction|reflexivity]. }
  unfold on_uri. rewrite Hfree. cbn [bind].
  split; [reflexivity|]. split; [cbn [app]; f_equal; exact Heq|].
  change (ISA_ALPHA (a :: rest)) with (IS_ALPHA a) in A.
  split; [exact A|]. split; [|exact Hend].
  cbn [forallb]. rewrite Hall. unfold scheme_char. rewrite A. reflexivity.
Qed.

(** The hypothesis of X10 holds for a fresh record. *)
Lemma scheme_on_fresh_record_example :
  scheme minio_uri_new <> FREED
  /\ ((ISA_ALPHA (lit "svn+ssh://h") = false
       /\ minio_rfc3986_scheme (Some minio_uri_new) (lit "svn+ssh://h")
          = Done (2, Some minio_uri_new, lit "svn+ssh://h"))
      \/ (exists s cur,
            minio_rfc3986_scheme (Some minio_uri_new) (lit "svn+ssh://h")
              = Done (0, Some (set_scheme (Owned s) minio_uri_new), cur)
            /\ lit "svn+ssh://h" = s ++ cur
            /\ IS_ALPHA (peek s 0) = true
            /\ forallb scheme_char s = true
            /\ scheme_char (peek cur 0) = false)).
Proof.
  assert (H : scheme minio_uri_new <> FREED) by discriminate.
  split; [exact H|].
  exact (scheme_is_longest_prefix minio_uri_new (lit "svn+ssh://h") H).
Defined.

(** ** Validation mode (null sink) *)

Lemma segment_code (str : cstr) (forbid : Z) (empty : bool) :
  fst (minio_rfc3986_segment str forbid empty) = 0
  \/ (empty = false /\ fst (minio_rfc3986_segment str forbid empty) = 1).
Proof.
  unfold minio_rfc3986_segment.
  destruct (negb (ISA_PCHAR str)); [|left; reflexivity].
  destruct empty; [left|right]; auto.
Qed.

Lemma slash_segments_code : forall fuel cur,
  fst (slash_segments fuel cur) = 0.
Proof.
  induction fuel as [|fuel IH]; intros cur; cbn [slash_segments].
  - destruct (peek cur 0 =? ch "/"); reflexivity.
  - destruct (peek cur 0 =? ch "/"); [|reflexivity].
    destruct (segment_code (skipn 1 cur) 0 true) as [H|[H _]];
      [|discriminate H].
    destruct (minio_rfc3986_segment (skipn 1 cur) 0 true) as [ret cur'].
    cbn [fst] in H. subst ret. cbn [negb Z.eqb]. apply IH.
Qed.

Ltac code_done :=
  cbn;
  repeat match goal with
  | |- exists _, _ => eexists
  end;
  first
    [ reflexivity
    | split; [reflexivity|];
      first [left; reflexivity | right; reflexivity | assumption] ].

Section Validation.
Variable sgn : bool.

Lemma scheme_null_sink str :
  exists r c, minio_rfc3986_scheme None str = Done (r, None, c)
              /\ (r = 0 \/ r = 2).
Proof.
  unfold minio_rfc3986_scheme. destruct (negb (ISA_ALPHA str)); code_done.
Qed.

Lemma query_null_sink str :
  exists c, minio_rfc3986_query sgn None str = Done (0, None, c).
Proof. unfold minio_rfc3986_query. code_done. Qed.

Lemma fragment_null_sink str :
  exists c, minio_rfc3986_fragment sgn None str = Done (0, None, c).
Proof. unfold minio_rfc3986_fragment. code_done. Qed.

Lemma port_loop_null_sink : forall cur, fst (port_loop None cur) = None.
Proof.
  induction cur as [|c cur1 IH]; simpl; [reflexivity|].
  destruct (ISA_DIGIT (c :: cur1)); [exact IH|reflexivity].
Qed.

Lemma port_null_sink str :
  exists r c, minio_rfc3986_port None str = Done (r, None, c)
              /\ (r = 0 \/ r = 1).
Proof.
  unfold minio_rfc3986_port. destruct (ISA_DIGIT str); [|code_done].
  cbn [option_map]. pose proof (port_loop_null_sink str) as H.
  destruct (port_loop None str) as [o c]. cbn [fst] in H. subst o. code_done.
Qed.

Lemma user_info_null_sink str :
  exists r c, minio_rfc3986_user_info sgn None str = Done (r, None, c)
              /\ (r = 0 \/ r = 1).
Proof.
  unfold minio_rfc3986_user_info.
  destruct (peek (user_info_scan str) 0 =? ch "@"); code_done.
Qed.

Lemma host_null_sink str :
  exists r c, minio_rfc3986_host sgn None str = Done (r, None, c)
              /\ (r = 0 \/ r = 1).
Proof.
  rewrite host_two_branches. unfold host_found. cbn.
  repeat match goal with
  | |- context [if ?b then _ else _] => destruct b
  end; code_done.
Qed.

Lemma authority_null_sink str :
  exists r c, minio_rfc3986_authority sgn None str = Done (r, None, c)
              /\ (r = 0 \/ r = 1).
Proof.
  unfold minio_rfc3986_authority.
  destruct (user_info_null_sink str) as (r1 & c1 & E1 & _).
  rewrite E1. cbn [bind].
  match goal with
  | |- context [minio_rfc3986_host sgn None ?x] =>
      destruct (host_null_sink x) as (r2 & c2 & E2 & _); rewrite E2
  end.
  cbn [bind]. destruct (negb (r2 =? 0)); [code_done|].
  destruct (peek c2 0 =? ch ":"); [|code_done].
  destruct (port_null_sink (skipn 1 c2)) as (r3 & c3 & E3 & _).
  rewrite E3. cbn [bind]. destruct (negb (r3 =? 0)); code_done.
Qed.

Lemma path_ab_empty_null_sink str :
  exists c, minio_rfc3986_path_ab_empty sgn None str = Done (0, None, c).
Proof.
  unfold minio_rfc3986_path_ab_empty.
  pose proof (slash_segments_code (length str) str) as H.
  destruct (slash_segments (length str) str) as [ret cur].
  cbn [fst] in H. subst ret. code_done.
Qed.

Lemma path_absolute_null_sink str :
  exists r c, minio_rfc3986_path_absolute sgn None str = Done (r, None, c)
              /\ (r = 0 \/ r = 1).
Proof.
  unfold minio_rfc3986_path_absolute.
  destruct (negb (peek str 0 =? ch "/")); [code_done|].
  destruct (segment_code (skipn 1 str) 0 false) as [H|[_ H]];
    destruct (minio_rfc3986_segment (skipn 1 str) 0 false) as [ret cur];
    cbn [fst] in H; subst ret; cbn [Z.eqb].
  - pose proof (slash_segments_code (length cur) cur) as H.
    destruct (slash_segments (length cur) cur) as [ret cur'].
    cbn [fst] in H. subst ret. code_done.
  - code_done.
Qed.

Lemma path_first_segment_null_sink
      (f : option bURI -> cstr -> outcome result) (forbid : Z) :
  (forall str,
      f None str
      = let '(ret, cur) := minio_rfc3986_segment str forbid false in
        if negb (ret =? 0) then Done (ret, None, str) else
        let '(ret, cur) := slash_segments (length cur) cur in
        if negb (ret =? 0) then Done (ret, None, str) else
        uri' <- store_path sgn None str cur ;;
        Done (0, uri', cur)) ->
  forall str, exists r c, f None str = Done (r, None, c) /\ (r = 0 \/ r = 1).
Proof.
  intros Hf str. rewrite Hf.
  destruct (segment_code str forbid false) as [H|[_ H]];
    destruct (minio_rfc3986_segment str forbid false) as [ret cur];
    cbn [fst] in H; subst ret; cbn [negb Z.eqb].
  - pose proof (slash_segments_code (length cur) cur) as H.
    destruct (slash_segments (length cur) cur) as [ret cur'].
    cbn [fst] in H. subst ret. code_done.
  - code_done.
Qed.

Lemma path_rootless_null_sink str :
  exists r c, minio_rfc3986_path_rootless sgn None str = Done (r, None, c)
              /\ (r = 0 \/ r = 1).
Proof.
  apply (path_first_segment_null_sink
           (minio_rfc3986_path_rootless sgn) 0). reflexivity.
Qed.

Lemma path_no_scheme_null_sink str :
  exists r c, minio_rfc3986_path_no_scheme sgn None str = Done (r, None, c)
              /\ (r = 0 \/ r = 1).
Proof.
  apply (path_first_segment_null_sink
           (minio_rfc3986_path_no_scheme sgn) (ch ":")). reflexivity.
Qed.

Lemma hier_part_null_sink str :
  exists r c, minio_rfc3986_hier_part sgn None str = Done (r, None, c)
              /\ (r = 0 \/ r = 1).
Proof.
  unfold minio_rfc3986_hier_part.
  destruct ((peek str 0 =? ch "/") && (peek str 1 =? ch "/")).
  - destruct (authority_null_sink (skipn 2 str)) as (r1 & c1 & E1 & H1).
    rewrite E1. cbn [bind]. destruct (negb (r1 =? 0)); [code_done|].
    destruct (path_ab_empty_null_sink c1) as (c2 & E2).
    rewrite E2. code_done.
  - destruct (peek str 0 =? ch "/").
    + destruct (path_absolute_null_sink str) as (r1 & c1 & E1 & H1).
      rewrite E1. cbn [bind]. destruct (negb (r1 =? 0)); code_done.
    + destruct (ISA_PCHAR str); [|code_done].
      destruct (path_rootless_null_sink str) as (r1 & c1 & E1 & H1).
      rewrite E1. cbn [bind]. destruct (negb (r1 =? 0)); code_done.
Qed.

Lemma query_fragment_end_null_sink str :
  exists r, query_fragment_end sgn None str = Done (r, None)
            /\ (r = 0 \/ r = 1).
Proof.
  unfold query_fragment_end.
  assert (H1 : exists c,
             (if peek str 0 =? ch "?"
              then minio_rfc3986_query sgn None (skipn 1 str)
              else Done (0, None, str)) = Done (0, None, c)).
  { destruct (peek str 0 =? ch "?"); [apply query_null_sink|code_done]. }
  destruct H1 as (c1 & ->). cbn [bind negb Z.eqb].
  assert (H2 : exists c,
             (if peek c1 0 =? ch "#"
              then minio_rfc3986_fragment sgn None (skipn 1 c1)
              else Done (0, None, c1)) = Done (0, None, c)).
  { destruct (peek c1 0 =? ch "#"); [apply fragment_null_sink|code_done]. }
  destruct H2 as (c2 & ->). cbn [bind negb Z.eqb].
  destruct (negb (peek c2 0 =? 0)); code_done.
Qed.

Lemma relative_ref_null_sink str :
  exists r, minio_rfc3986_relative_ref sgn None str = Done (r, None)
            /\ (r = 0 \/ r = 1).
Proof.
  unfold minio_rfc3986_relative_ref.
  assert (H : exists r c,
     (if (peek str 0 =? ch "/") && (peek str 1 =? ch "/")
      then
       '(ret, uri, cur) <- minio_rfc3986_authority sgn None (skipn 2 str);;
       (if negb (ret =? 0)
        then Done (ret, uri, cur)
        else minio_rfc3986_path_ab_empty sgn uri cur)
      else
       if peek str 0 =? ch "/"
       then minio_rfc3986_path_absolute sgn None str
       else
        if ISA_PCHAR str
        then minio_rfc3986_path_no_scheme sgn None str
        else uri <- path_empty None;; Done (0, uri, str))
     = Done (r, None, c) /\ (r = 0 \/ r = 1)).
  { destruct ((peek str 0 =? ch "/") && (peek str 1 =? ch "/")).
    - destruct (authority_null_sink (skipn 2 str)) as (r1 & c1 & E1 & H1).
      rewrite E1. cbn [bind]. destruct (negb (r1 =? 0)); [code_done|].
      destruct (path_ab_empty_null_sink c1) as (c2 & E2). rewrite E2. code_done.
    - destruct (peek str 0 =? ch "/"); [apply path_absolute_null_sink|].
      destruct (ISA_PCHAR str); [apply path_no_scheme_null_sink|].
      code_done. }
  destruct H as (r & c & -> & Hr). cbn [bind].
  destruct (negb (r =? 0)); [code_done|apply query_fragment_end_null_sink].
Qed.

Lemma rfc3986_null_sink str :
  exists r, minio_rfc3986 sgn None str = Done (r, None).
Proof.
  unfold minio_rfc3986.
  destruct (scheme_null_sink str) as (r1 & c1 & -> & _). cbn [bind].
  destruct (negb (r1 =? 0)); [code_done|].
  destruct (negb (peek c1 0 =? ch ":")); [code_done|].
  destruct (hier_part_null_sink (skipn 1 c1)) as (r2 & c2 & -> & _).
  cbn [bind]. destruct (negb (r2 =? 0)); [code_done|].
  destruct (query_fragment_end_null_sink c2) as (r3 & -> & _). code_done.
Qed.

End Validation.

(** X11.  With a null record (validation only) the parser always
    returns, whatever the input: nothing is freed, so no invalid [free]
    can happen, and the code returned for a non-null string is 0 or 1.
    The code 2 of a missing scheme never leaves the top level, because
    the relative grammar is tried next. *)
Theorem validation_returns_0_or_1 : forall (sgn : bool) (str : cstr),
  exists r,
    minio_uri_parse_into sgn None (Some str) = Done (r, None)
    /\ (r = 0 \/ r = 1).
Proof.
  intros sgn str. unfold minio_uri_parse_into, minio_rfc3986_uri_reference.
  cbn [URI_TRIM on_uri bind].
  destruct (rfc3986_null_sink sgn str) as (r1 & ->). cbn [bind].
  destruct (negb (r1 =? 0)) eqn:E.
  - cbn [URI_TRIM on_uri bind].
    destruct (relative_ref_null_sink sgn str) as (r2 & -> & H2).
    cbn [bind]. destruct (negb (r2 =? 0)); code_done.
  - apply negb_false_iff, Z.eqb_eq in E. subst r1. code_done.
Qed.

(** ** The productions stop at the terminator

    The cursor of the embedding is the list of the chars before the
    terminator.  To see that the scanning code never reads or steps
    beyond the terminator, the productions are run here on
    [str ++ 0 :: junk]: the chars of [str], the terminator as a byte of
    value 0, and arbitrary bytes [junk] behind it. *)

Lemma no_NUL_suffix (cur str : cstr) :
  suffix_of cur str -> no_NUL str -> no_NUL cur.
Proof.
  intros (n & _ & ->) H. unfold no_NUL in *.
  rewrite <- (firstn_skipn n str) in H. apply Forall_app in H. apply H.
Qed.

Section Terminator.
Variable junk : cstr.


Lemma skipn_before (k : nat) (cur : cstr) :
  (k <= length cur)%nat ->
  skipn k (cur ++ 0 :: junk) = skipn k cur ++ 0 :: junk.
Proof.
  intros H. rewrite skipn_app.
  replace (k - length cur)%nat with 0%nat by lia. reflexivity.
Qed.












Variable sgn : bool.

















Lemma no_NUL_slash_segments fuel str :
  no_NUL str -> no_NUL (snd (slash_segments fuel str)).
Proof. apply no_NUL_suffix. apply slash_segments_suffix. Qed.


















End Terminator.



(** ** Productions that cannot fail, and one that fails on a lone slash *)

(** X12.  The query, fragment and path-abempty productions never report a
    failure: whenever they return, the code is 0. *)
Theorem query_fragment_abempty_return_0 :
  forall (sgn : bool) (uri : option bURI) (str : cstr) (r : Z)
         (uri' : option bURI) (cur : cstr),
    (minio_rfc3986_query sgn uri str = Done (r, uri', cur)
     \/ minio_rfc3986_fragment sgn uri str = Done (r, uri', cur)
     \/ minio_rfc3986_path_ab_empty sgn uri str = Done (r, uri', cur)) ->
    r = 0.
Proof.
  intros sgn uri str r uri' cur [H|[H|H]].
  - unfold minio_rfc3986_query in H. inv_done. reflexivity.
  - unfold minio_rfc3986_fragment in H. inv_done. reflexivity.
  - unfold minio_rfc3986_path_ab_empty in H.
    pose proof (slash_segments_code (length str) str) as HC.
    destruct (slash_segments (length str) str) as [ret c].
    cbn [fst] in HC. subst ret. cbn [negb Z.eqb] in H. inv_done. reflexivity.
Qed.

(** The hypothesis of X12 holds for the query [a=b] before a fragment. *)
Lemma query_code_example :
  minio_rfc3986_query true None (lit "a=b#f") = Done (0, None, lit "#f")
  /\ 0 = 0.
Proof.
  assert (H : minio_rfc3986_query true None (lit "a=b#f")
              = Done (0, None, lit "#f")) by (vm_compute; reflexivity).
  split; [exact H|].
  exact (query_fragment_abempty_return_0 true None (lit "a=b#f") 0 None
           (lit "#f") (or_introl H)).
Defined.

(** X13.  A slash that is not followed by a path char makes
    [minio_rfc3986_path_absolute] return 1, although it has stepped over
    the slash: the code of the failed first segment is kept.  So a
    reference that starts with such a slash and not with two slashes (the
    root path alone, or the root path before a query or fragment) is
    rejected with code 1; on a fresh record the stored path is released
    again and the field is left with the marker of [FREE]. *)
Theorem slash_without_segment_is_rejected :
  forall (sgn : bool) (rest : cstr),
    ISA_PCHAR rest = false ->
    peek rest 0 <> ch "/" ->
    minio_rfc3986_path_absolute sgn None (ch "/" :: rest)
      = Done (1, None, rest)
    /\ minio_uri_parse_into sgn None (Some (ch "/" :: rest)) = Done (1, None)
    /\ minio_uri_parse_into sgn (Some minio_uri_new) (Some (ch "/" :: rest))
       = Done (1, Some (set_path FREED minio_uri_new)).
Proof.
  intros sgn rest HP HS.
  assert (Hseg : minio_rfc3986_segment rest 0 false = (1, rest)).
  { unfold minio_rfc3986_segment. rewrite HP. reflexivity. }
  assert (Hs : (peek rest 0 =? ch "/") = false) by (apply Z.eqb_neq; exact HS).
  split; [|split].
  - unfold minio_rfc3986_path_absolute.
    change (skipn 1 (ch "/" :: rest)) with rest. rewrite Hseg. reflexivity.
  - unfold minio_uri_parse_into, minio_rfc3986_uri_reference,
      minio_rfc3986, minio_rfc3986_relative_ref, minio_rfc3986_path_absolute.
    cbn [URI_TRIM on_uri bind].
    change (skipn 1 (ch "/" :: rest)) with rest.
    change (peek (ch "/" :: rest) 1) with (peek rest 0).
    rewrite Hseg, Hs. reflexivity.
  - assert (HA : minio_rfc3986 sgn (Some minio_uri_new) (ch "/" :: rest)
                 = Done (2, Some minio_uri_new)) by reflexivity.
    assert (HB : minio_rfc3986_path_absolute sgn (Some minio_uri_new)
                   (ch "/" :: rest)
                 = Done (1, Some (set_path (Owned [ch "/"]) minio_uri_new),
                         rest)).
    { unfold minio_rfc3986_path_absolute, store_path.
      change (skipn 1 (ch "/" :: rest)) with rest. rewrite Hseg.
      assert (HD : ptr_diff rest (ch "/" :: rest) = 1%nat)
        by (unfold ptr_diff; cbn [length]; lia).
      rewrite HD. reflexivity. }
    assert (HC : minio_rfc3986_relative_ref sgn (Some minio_uri_new)
                   (ch "/" :: rest)
                 = Done (1, Some (set_path (Owned [ch "/"]) minio_uri_new))).
    { unfold minio_rfc3986_relative_ref.
      change (peek (ch "/" :: rest) 1) with (peek rest 0).
      change (peek (ch "/" :: rest) 0 =? ch "/") with true.
      rewrite Hs. cbn [andb]. rewrite HB. reflexivity. }
    unfold minio_uri_parse_into, minio_rfc3986_uri_reference.
    change (URI_TRIM (Some minio_uri_new)) with (Done (Some minio_uri_new)).
    cbn [bind]. rewrite HA. cbn [bind negb Z.eqb].
    change (URI_TRIM (Some minio_uri_new)) with (Done (Some minio_uri_new)).
    cbn [bind]. rewrite HC. reflexivity.
Qed.

(** The hypotheses of X13 hold for what follows the slash in [/?q]. *)
Lemma root_path_with_query_example :
  ISA_PCHAR (lit "?q") = false
  /\ peek (lit "?q") 0 <> ch "/"
  /\ minio_uri_parse_into true None (Some (ch "/" :: lit "?q"))
     = Done (1, None).
Proof.
  assert (H1 : ISA_PCHAR (lit "?q") = false) by reflexivity.
  assert (H2 : peek (lit "?q") 0 <> ch "/") by discriminate.
  split; [exact H1|]. split; [exact H2|].
  exact (proj1 (proj2 (slash_without_segment_is_rejected true (lit "?q")
                         H1 H2))).
Defined.

(** ** A zero-length match in decoding mode *)

(** X14.  When the query or userinfo production matches nothing and raw
    mode is off, the span of length 0 is handed to the unescaper, which
    takes a length of 0 to mean the whole string: the field receives the
    unescaped whole remainder of the input, not the empty string.  So an
    empty query before a fragment stores the fragment, hash sign
    included, as the query (with [query_raw] empty), and an empty
    userinfo stores everything from the [@] on as the user. *)
Theorem empty_match_stores_whole_remainder :
  forall (sgn : bool) (u : bURI) (rest : cstr),
    Z.land (cleanup u) 2 = 0 ->
    query u <> FREED -> query_raw u <> FREED -> user u <> FREED ->
    minio_rfc3986_query sgn (Some u) (ch "#" :: rest)
      = Done (0,
              Some (set_query_raw (Owned [])
                     (set_query
                        (minio_uri_string_unescape sgn
                           (Some (ch "#" :: rest)) 0) u)),
              ch "#" :: rest)
    /\ minio_rfc3986_user_info sgn (Some u) (ch "@" :: rest)
       = Done (0,
               Some (set_user
                       (minio_uri_string_unescape sgn
                          (Some (ch "@" :: rest)) 0) u),
               ch "@" :: rest)
    /\ (~ In (ch "%") rest ->
        minio_uri_string_unescape sgn (Some (ch "#" :: rest)) 0
          = Owned (ch "#" :: rest)
        /\ minio_uri_string_unescape sgn (Some (ch "@" :: rest)) 0
          = Owned (ch "@" :: rest)).
Proof.
  intros sgn u rest Hraw Hq Hqr Hu.
  assert (Hfq : free_if_set (query u) = Done tt)
    by (destruct (query u); [reflexivity|contradiction|reflexivity]).
  assert (Hfr : free_if_set (query_raw u) = Done tt)
    by (destruct (query_raw u); [reflexivity|contradiction|reflexivity]).
  assert (Hfu : free_if_set (user u) = Done tt)
    by (destruct (user u); [reflexivity|contradiction|reflexivity]).
  assert (HD : forall s : cstr, ptr_diff s s = 0%nat)
    by (intros s; unfold ptr_diff; lia).
  split; [|split].
  - unfold minio_rfc3986_query.
    cbn [while_NEXT].
    replace (ISA_PCHAR (ch "#" :: rest) || (peek (ch "#" :: rest) 0 =? ch "/")
             || (peek (ch "#" :: rest) 0 =? ch "?")
             || unwise_allowed (Some u) && IS_UNWISE (ch "#" :: rest))
      with false
      by (change (IS_UNWISE (ch "#" :: rest)) with false;
          rewrite andb_false_r; reflexivity).
    unfold on_uri. rewrite Hfq. cbn [bind query_raw set_query].
    rewrite Hfr. cbn [bind]. rewrite HD.
    unfold capture. rewrite Hraw. reflexivity.
  - unfold minio_rfc3986_user_info, user_info_scan.
    cbn [while_NEXT].
    change (ISA_UNRESERVED (ch "@" :: rest) || ISA_PCT_ENCODED (ch "@" :: rest)
            || ISA_SUB_DELIM (ch "@" :: rest)
            || (peek (ch "@" :: rest) 0 =? ch ":")) with false.
    cbn [peek nth]. change (ch "@" =? ch "@") with true. cbv iota.
    unfold on_uri. rewrite Hfu. cbn [bind]. rewrite HD.
    unfold capture. rewrite Hraw. reflexivity.
  - intros Hp. unfold minio_uri_string_unescape. cbn [Z.leb Z.compare].
    unfold strlen. cbn [length].
    destruct (Z.of_nat (S (length rest)) <? 0) eqn:E;
      [apply Z.ltb_lt in E; lia|].
    rewrite Nat2Z.id.
    rewrite !unescape_loop_no_percent;
      try (cbn [length]; lia);
      try (rewrite firstn_all2 by (cbn [length]; lia);
           intros [H|H]; [discriminate H|contradiction]).
    rewrite !firstn_all2 by (cbn [length]; lia). split; reflexivity.
Qed.

(** The hypotheses of X14 hold for a fresh record. *)
Lemma empty_query_example :
  Z.land (cleanup minio_uri_new) 2 = 0
  /\ query minio_uri_new <> FREED /\ query_raw minio_uri_new <> FREED
  /\ user minio_uri_new <> FREED
  /\ minio_rfc3986_query true (Some minio_uri_new) (ch "#" :: lit "top")
     = Done (0,
             Some (set_query_raw (Owned [])
                    (set_query
                       (minio_uri_string_unescape true
                          (Some (ch "#" :: lit "top")) 0) minio_uri_new)),
             ch "#" :: lit "top").
Proof.
  assert (H1 : Z.land (cleanup minio_uri_new) 2 = 0) by reflexivity.
  assert (H2 : query minio_uri_new <> FREED) by discriminate.
  assert (H3 : query_raw minio_uri_new <> FREED) by discriminate.
  assert (H4 : user minio_uri_new <> FREED) by discriminate.
  repeat (split; [assumption|]).
  exact (proj1 (empty_match_stores_whole_remainder true minio_uri_new
                  (lit "top") H1 H2 H3 H4)).
Defined.

(** ** Trimming twice *)

(** X15.  [URI_TRIM] cannot be repeated: applied to a record it has
    already trimmed it runs into [free] of the marker, unless all eight
    fields were null from the start, in which case it changes nothing. *)
Theorem URI_TRIM_twice : forall u u' : bURI,
  URI_TRIM (Some u) = Done (Some u') ->
  (no_strings u /\ u' = u /\ URI_TRIM (Some u') = Done (Some u'))
  \/ URI_TRIM (Some u') = Fault.
Proof.
  intros [s o a sv us p pa f c q qr] u'.
  unfold URI_TRIM, on_uri, no_strings. cbn.
  destruct s; cbn; try discriminate;
  destruct sv; cbn; try discriminate;
  destruct us; cbn; try discriminate;
  destruct pa; cbn; try discriminate;
  destruct f; cbn; try discriminate;
  destruct o; cbn; try discriminate;
  destruct a; cbn; try discriminate;
  destruct q; cbn; try discriminate;
  intros H; inversion H; subst; clear H; cbn;
  first [right; reflexivity | left; repeat split; reflexivity].
Qed.

(** The hypothesis of X15 holds for a record that holds a path. *)
Lemma trim_twice_example :
  URI_TRIM (Some (set_path (Owned (lit "/x")) minio_uri_new))
    = Done (Some (set_path FREED minio_uri_new))
  /\ URI_TRIM (Some (set_path FREED minio_uri_new)) = Fault.
Proof.
  assert (H : URI_TRIM (Some (set_path (Owned (lit "/x")) minio_uri_new))
              = Done (Some (set_path FREED minio_uri_new))) by reflexivity.
  split; [exact H|].
  destruct (URI_TRIM_twice _ _ H) as [(Hn & _)|HF]; [|exact HF].
  destruct Hn as (_ & _ & _ & Hp & _). discriminate Hp.
Defined.

(** ** What the productions leave alone *)

Section Frame.
Context {A : Type} (f : bURI -> A).
Hypothesis f_kept : kept_by_stores f.
Variable sgn : bool.

Let f_authority : forall v u, f (set_authority v u) = f u.
Proof. apply f_kept. Qed.
Let f_server : forall v u, f (set_server v u) = f u.
Proof. apply f_kept. Qed.
Let f_user : forall v u, f (set_user v u) = f u.
Proof. apply f_kept. Qed.
Let f_port : forall v u, f (set_port v u) = f u.
Proof. apply f_kept. Qed.
Let f_path : forall v u, f (set_path v u) = f u.
Proof. apply f_kept. Qed.
Let f_fragment : forall v u, f (set_fragment v u) = f u.
Proof. apply f_kept. Qed.
Let f_query : forall v u, f (set_query v u) = f u.
Proof. apply f_kept. Qed.
Let f_query_raw : forall v u, f (set_query_raw v u) = f u.
Proof. apply f_kept. Qed.

Ltac untouched :=
  intros H; inv_done;
  repeat match goal with
  | E : on_uri _ _ = Done _ |- _ =>
      eapply (on_uri_frame f) in E;
      [|let Hu := fresh "Hu" in
        intros ? ? Hu; cbv beta in Hu; inv_done;
        repeat first [rewrite f_authority | rewrite f_server
                     | rewrite f_user | rewrite f_port | rewrite f_path
                     | rewrite f_fragment | rewrite f_query
                     | rewrite f_query_raw];
        reflexivity]
  end;
  try congruence.

Lemma fragment_untouched uri str r uri' c :
  minio_rfc3986_fragment sgn uri str = Done (r, uri', c) ->
  field f uri' = field f uri.
Proof. unfold minio_rfc3986_fragment. untouched. Qed.

Lemma query_untouched uri str r uri' c :
  minio_rfc3986_query sgn uri str = Done (r, uri', c) ->
  field f uri' = field f uri.
Proof. unfold minio_rfc3986_query. untouched. Qed.

Lemma port_untouched uri str r uri' c :
  minio_rfc3986_port uri str = Done (r, uri', c) ->
  field f uri' = field f uri.
Proof.
  unfold minio_rfc3986_port; intros H.
  destruct (ISA_DIGIT str); [|inv_done; reflexivity].
  pose proof (port_loop_frame f f_port str (option_map (set_port 0) uri))
    as HS.
  destruct (port_loop (option_map (set_port 0) uri) str) as [u1 c1].
  inv_done. simpl in HS. rewrite HS.
  destruct uri; simpl; [rewrite f_port|]; reflexivity.
Qed.

Lemma user_info_untouched uri str r uri' c :
  minio_rfc3986_user_info sgn uri str = Done (r, uri', c) ->
  field f uri' = field f uri.
Proof. unfold minio_rfc3986_user_info. untouched. Qed.

Lemma host_untouched uri str r uri' c :
  minio_rfc3986_host sgn uri str = Done (r, uri', c) ->
  field f uri' = field f uri.
Proof. unfold minio_rfc3986_host, host_found. untouched. Qed.

Lemma authority_untouched uri str r uri' c :
  minio_rfc3986_authority sgn uri str = Done (r, uri', c) ->
  field f uri' = field f uri.
Proof.
  unfold minio_rfc3986_authority; intros H; inv_done;
    repeat match goal with
    | E : minio_rfc3986_user_info _ _ _ = Done _ |- _ =>
        apply user_info_untouched in E
    | E : minio_rfc3986_host _ _ _ = Done _ |- _ => apply host_untouched in E
    | E : minio_rfc3986_port _ _ = Done _ |- _ => apply port_untouched in E
    end; congruence.
Qed.

Lemma path_ab_empty_untouched uri str r uri' c :
  minio_rfc3986_path_ab_empty sgn uri str = Done (r, uri', c) ->
  field f uri' = field f uri.
Proof. unfold minio_rfc3986_path_ab_empty, store_path. untouched. Qed.

Lemma path_absolute_untouched uri str r uri' c :
  minio_rfc3986_path_absolute sgn uri str = Done (r, uri', c) ->
  field f uri' = field f uri.
Proof. unfold minio_rfc3986_path_absolute, store_path. untouched. Qed.

Lemma path_rootless_untouched uri str r uri' c :
  minio_rfc3986_path_rootless sgn uri str = Done (r, uri', c) ->
  field f uri' = field f uri.
Proof. unfold minio_rfc3986_path_rootless, store_path. untouched. Qed.

Lemma path_no_scheme_untouched uri str r uri' c :
  minio_rfc3986_path_no_scheme sgn uri str = Done (r, uri', c) ->
  field f uri' = field f uri.
Proof. unfold minio_rfc3986_path_no_scheme, store_path. untouched. Qed.

Lemma path_empty_untouched uri uri' :
  path_empty uri = Done uri' -> field f uri' = field f uri.
Proof.
  unfold path_empty. intros H. eapply (on_uri_frame f) in H; [exact H|].
  intros ? ? Hu; cbv beta in Hu; inv_done. rewrite f_path. reflexivity.
Qed.

Lemma hier_part_untouched uri str r uri' c :
  minio_rfc3986_hier_part sgn uri str = Done (r, uri', c) ->
  field f uri' = field f uri.
Proof.
  unfold minio_rfc3986_hier_part; intros H; inv_done;
    repeat match goal with
    | E : minio_rfc3986_authority _ _ _ = Done _ |- _ =>
        apply authority_untouched in E
    | E : minio_rfc3986_path_ab_empty _ _ _ = Done _ |- _ =>
        apply path_ab_empty_untouched in E
    | E : minio_rfc3986_path_absolute _ _ _ = Done _ |- _ =>
        apply path_absolute_untouched in E
    | E : minio_rfc3986_path_rootless _ _ _ = Done _ |- _ =>
        apply path_rootless_untouched in E
    | E : path_empty _ = Done _ |- _ => apply path_empty_untouched in E
    end; congruence.
Qed.

(** The part of [minio_rfc3986_relative_ref] before the query. *)
Lemma relative_part_untouched uri str r uri' c :
  (if (peek str 0 =? ch "/") && (peek str 1 =? ch "/") then
     '(ret, uri, cur) <- minio_rfc3986_authority sgn uri (skipn 2 str) ;;
     if negb (ret =? 0) then Done (ret, uri, cur) else
     minio_rfc3986_path_ab_empty sgn uri cur
   else if peek str 0 =? ch "/" then minio_rfc3986_path_absolute sgn uri str
   else if ISA_PCHAR str then minio_rfc3986_path_no_scheme sgn uri str
   else
     uri <- path_empty uri ;;
     Done (0, uri, str)) = Done (r, uri', c) ->
  field f uri' = field f uri.
Proof.
  intros H; inv_done;
    repeat match goal with
    | E : minio_rfc3986_authority _ _ _ = Done _ |- _ =>
        apply authority_untouched in E
    | E : minio_rfc3986_path_ab_empty _ _ _ = Done _ |- _ =>
        apply path_ab_empty_untouched in E
    | E : minio_rfc3986_path_absolute _ _ _ = Done _ |- _ =>
        apply path_absolute_untouched in E
    | E : minio_rfc3986_path_no_scheme _ _ _ = Done _ |- _ =>
        apply path_no_scheme_untouched in E
    | E : path_empty _ = Done _ |- _ => apply path_empty_untouched in E
    end; congruence.
Qed.

End Frame.

Lemma scheme_untouched {A : Type} (f : bURI -> A) uri str r uri' c :
  (forall v u, f (set_scheme v u) = f u) ->
  minio_rfc3986_scheme uri str = Done (r, uri', c) ->
  field f uri' = field f uri.
Proof.
  intros Hf. unfold minio_rfc3986_scheme. intros H. inv_done.
  - reflexivity.
  - eapply (on_uri_frame f) in E0; [exact E0|].
    intros ? ? Hu; cbv beta in Hu; inv_done. apply Hf.
Qed.

Lemma parse_into_sink sgn uri str r uri' :
  minio_uri_parse_into sgn uri str = Done (r, uri') ->
  has_sink uri' = has_sink uri.
Proof.
  unfold minio_uri_parse_into, minio_rfc3986_uri_reference.
  intros H; inv_done;
    repeat match goal with
    | E : URI_TRIM _ = Done _ |- _ => apply URI_TRIM_sink in E
    | E : minio_rfc3986 _ _ _ = Done _ |- _ => apply rfc3986_sink in E
    | E : minio_rfc3986_relative_ref _ _ _ = Done _ |- _ =>
        apply relative_ref_sink in E
    end; congruence.
Qed.

(** ** The mode bits and the opaque field *)

Lemma mode_opaque_kept : kept_by_stores (fun u => (cleanup u, opaque u)).
Proof. repeat split. Qed.

Lemma mode_and_opaque_frame c uri uri' :
  field (fun u => (cleanup u, opaque u)) uri'
  = field (fun u => (cleanup u, opaque u)) uri ->
  mode_and_opaque c uri -> mode_and_opaque c uri'.
Proof.
  destruct uri as [u|], uri' as [u'|]; simpl; try discriminate; auto.
  intros H; inversion H as [[Hc Ho]]. intros [Ha Hb]. split; congruence.
Qed.

Lemma URI_TRIM_mode_and_opaque uri uri' :
  URI_TRIM uri = Done uri' ->
  match uri, uri' with
  | Some u, Some u' => cleanup u' = cleanup u /\ is_owned (opaque u') = false
  | None, None => True
  | _, _ => False
  end.
Proof.
  destruct uri as [u|]; intros H.
  - apply URI_TRIM_Done in H. destruct H as (u' & -> & Hr & _ & Hc & _).
    split; [exact Hc|apply Hr].
  - inversion H. exact I.
Qed.

Lemma URI_TRIM_keeps_mode_and_opaque c uri uri' :
  URI_TRIM uri = Done uri' -> mode_and_opaque c uri -> mode_and_opaque c uri'.
Proof.
  intros H. apply URI_TRIM_mode_and_opaque in H.
  destruct uri as [u|], uri' as [u'|]; simpl; try contradiction; auto.
  destruct H as [H1 H2]. intros [H3 _]. split; congruence.
Qed.

Section Mode.
Variable sgn : bool.
Variable c0 : Z.

Ltac mode_steps :=
  repeat match goal with
  | E : URI_TRIM ?a = Done ?b |- _ =>
      generalize (URI_TRIM_keeps_mode_and_opaque c0 a b E); clear E; intro
  | E : minio_rfc3986_query sgn ?a ?s = Done (?r, ?b, ?c) |- _ =>
      generalize (mode_and_opaque_frame c0 a b
                    (query_untouched _ mode_opaque_kept sgn a s r b c E));
      clear E; intro
  | E : minio_rfc3986_fragment sgn ?a ?s = Done (?r, ?b, ?c) |- _ =>
      generalize (mode_and_opaque_frame c0 a b
                    (fragment_untouched _ mode_opaque_kept sgn a s r b c E));
      clear E; intro
  | E : minio_rfc3986_scheme ?a ?s = Done (?r, ?b, ?c) |- _ =>
      generalize (mode_and_opaque_frame c0 a b
                    (scheme_untouched (fun u => (cleanup u, opaque u)) a s r b c
                       (fun _ _ => eq_refl) E));
      clear E; intro
  | E : minio_rfc3986_hier_part sgn ?a ?s = Done (?r, ?b, ?c) |- _ =>
      generalize (mode_and_opaque_frame c0 a b
                    (hier_part_untouched _ mode_opaque_kept sgn a s r b c E));
      clear E; intro
  end.

Lemma query_fragment_end_mode uri str r uri' :
  query_fragment_end sgn uri str = Done (r, uri') ->
  mode_and_opaque c0 uri -> mode_and_opaque c0 uri'.
Proof.
  unfold query_fragment_end; intros H HS; inv_done; mode_steps; auto.
Qed.

Lemma relative_ref_mode uri str r uri' :
  minio_rfc3986_relative_ref sgn uri str = Done (r, uri') ->
  mode_and_opaque c0 uri -> mode_and_opaque c0 uri'.
Proof.
  unfold minio_rfc3986_relative_ref; intros H HS.
  match type of H with
  | bind ?x _ = _ => destruct x as [[[r1 o1] c1]|] eqn:E; cbn [bind] in H;
                     [|discriminate]
  end.
  apply (relative_part_untouched _ mode_opaque_kept) in E.
  apply (mode_and_opaque_frame c0) in E; [|exact HS].
  destruct (negb (r1 =? 0)); [inversion H; subst; exact E|].
  eapply query_fragment_end_mode; eassumption.
Qed.

Lemma rfc3986_mode uri str r uri' :
  minio_rfc3986 sgn uri str = Done (r, uri') ->
  mode_and_opaque c0 uri -> mode_and_opaque c0 uri'.
Proof.
  unfold minio_rfc3986; intros H HS; inv_done;
    repeat match goal with
    | E : query_fragment_end sgn ?a ?s = Done (?r, ?b) |- _ =>
        generalize (query_fragment_end_mode a s r b E); clear E; intro
    end; mode_steps; auto.
Qed.

End Mode.

(** X16.  A parse never changes the mode bits of the record and never
    leaves a string in its [opaque] field: whatever the record held,
    after [minio_uri_parse_into] returns, with any code, [cleanup] is as
    before and [opaque] is null or carries the marker of [FREE]. *)
Theorem parse_keeps_mode_and_clears_opaque :
  forall (sgn : bool) (u : bURI) (str : cstr) (r : Z) (uri' : option bURI),
    minio_uri_parse_into sgn (Some u) (Some str) = Done (r, uri') ->
    exists u', uri' = Some u'
               /\ cleanup u' = cleanup u /\ is_owned (opaque u') = false.
Proof.
  intros sgn u str r uri' H.
  assert (HS := parse_into_sink _ _ _ _ _ H).
  destruct uri' as [u'|]; [|discriminate HS].
  exists u'. split; [reflexivity|].
  unfold minio_uri_parse_into, minio_rfc3986_uri_reference in H.
  destruct (URI_TRIM (Some u)) as [o1|] eqn:T1; cbn [bind] in H;
    [|discriminate].
  assert (H1 : mode_and_opaque (cleanup u) o1).
  { apply URI_TRIM_mode_and_opaque in T1. destruct o1; [|contradiction].
    exact T1. }
  clear T1.
  assert (Hfin : mode_and_opaque (cleanup u) (Some u')); [|exact Hfin].
  inv_done;
    repeat match goal with
    | E : URI_TRIM ?a = Done ?b |- _ =>
        generalize (URI_TRIM_keeps_mode_and_opaque (cleanup u) a b E);
        clear E; intro
    | E : minio_rfc3986 sgn ?a ?s = Done (?r, ?b) |- _ =>
        generalize (rfc3986_mode sgn (cleanup u) a s r b E); clear E; intro
    | E : minio_rfc3986_relative_ref sgn ?a ?s = Done (?r, ?b) |- _ =>
        generalize (relative_ref_mode sgn (cleanup u) a s r b E);
        clear E; intro
    end; auto 6.
Qed.

(** The hypothesis of X16 holds for a raw-mode record and [mailto:a@b]. *)
Lemma mode_kept_example :
  minio_uri_parse_into true (Some (set_cleanup 2 minio_uri_new))
                       (Some (lit "mailto:a@b"))
    = Done (0, Some (set_path (Owned (lit "a@b"))
                       (set_scheme (Owned (lit "mailto"))
                          (set_cleanup 2 minio_uri_new))))
  /\ exists u', Some (set_path (Owned (lit "a@b"))
                       (set_scheme (Owned (lit "mailto"))
                          (set_cleanup 2 minio_uri_new))) = Some u'
                /\ cleanup u' = cleanup (set_cleanup 2 minio_uri_new)
                /\ is_owned (opaque u') = false.
Proof.
  assert (H : minio_uri_parse_into true (Some (set_cleanup 2 minio_uri_new))
                (Some (lit "mailto:a@b"))
              = Done (0, Some (set_path (Owned (lit "a@b"))
                                 (set_scheme (Owned (lit "mailto"))
                                    (set_cleanup 2 minio_uri_new)))))
    by (vm_compute; reflexivity).
  split; [exact H|].
  exact (parse_keeps_mode_and_clears_opaque true _ _ _ _ H).
Defined.

(** ** What the entry points return *)

(** X17.  [minio_uri_parse_raw] never returns NULL for a non-null string.
    It returns the record exactly when the parse returned 0; when the
    parse failed it returns the marker that [URI_FREE] left in the local
    pointer, so a caller that tests the result against NULL does not see
    the failure. *)
Theorem parse_raw_never_returns_null :
  forall (sgn : bool) (str : cstr) (raw : Z) (p : ptr bURI),
    minio_uri_parse_raw sgn (Some str) raw = Done p ->
    p <> NULL
    /\ (forall u, p = Owned u <->
                  minio_uri_parse_into sgn (Some (raw_record raw)) (Some str)
                  = Done (0, Some u))
    /\ (p = FREED <->
        exists r o, r <> 0
                    /\ minio_uri_parse_into sgn (Some (raw_record raw))
                                            (Some str) = Done (r, o)).
Proof.
  intros sgn str raw p H. unfold minio_uri_parse_raw in H.
  fold (raw_record raw) in H.
  destruct (minio_uri_parse_into sgn (Some (raw_record raw)) (Some str))
    as [[r o]|] eqn:E; cbn [bind] in H; [|discriminate].
  assert (HS := parse_into_sink _ _ _ _ _ E).
  destruct o as [u|]; [|discriminate HS].
  destruct (negb (r =? 0)) eqn:N.
  - apply negb_true_iff, Z.eqb_neq in N.
    destruct (URI_TRIM (Some u)); cbn [bind] in H; [|discriminate].
    inversion H; subst; clear H.
    split; [discriminate|]. split.
    + intros u'. split; [discriminate|].
      intros H'. inversion H'. congruence.
    + split; [intros _; exists r, (Some u); split; [exact N|reflexivity]|].
      reflexivity.
  - apply negb_false_iff, Z.eqb_eq in N. subst r.
    inversion H; subst; clear H.
    split; [discriminate|]. split.
    + intros u'. split; intros H'; inversion H'; reflexivity.
    + split; [discriminate|].
      intros (r & o & Hr & H'). inversion H'. congruence.
Qed.

(** The hypothesis of X17 holds for a lone space in raw mode. *)
Lemma parse_raw_space_example :
  minio_uri_parse_raw true (Some (lit " ")) 1 = Done FREED
  /\ (FREED : ptr bURI) <> NULL.
Proof.
  assert (H : minio_uri_parse_raw true (Some (lit " ")) 1 = Done FREED)
    by (vm_compute; reflexivity).
  split; [exact H|].
  exact (proj1 (parse_raw_never_returns_null true (lit " ") 1 FREED H)).
Defined.

(** ** The marker in the scheme field *)

Lemma scheme_kept : kept_by_stores scheme.
Proof. repeat split. Qed.

Lemma scheme_set_frame uri uri' :
  field scheme uri' = field scheme uri -> scheme_set uri -> scheme_set uri'.
Proof.
  destruct uri as [u|], uri' as [u'|]; simpl; try discriminate; auto.
  intros H; inversion H. congruence.
Qed.

Lemma scheme_freed_frame uri uri' :
  field scheme uri' = field scheme uri ->
  scheme_freed uri -> scheme_freed uri'.
Proof.
  destruct uri as [u|], uri' as [u'|]; simpl; try discriminate; auto.
  intros H; inversion H. congruence.
Qed.

Lemma URI_TRIM_scheme_set uri uri' :
  URI_TRIM uri = Done uri' -> scheme_set uri -> scheme_freed uri'.
Proof.
  destruct uri as [u|]; [|intros _ []].
  unfold URI_TRIM, on_uri. intros H HS. simpl in HS.
  destruct (FREE_if_set (scheme u)) as [v|] eqn:E; cbn [bind] in H;
    [|discriminate].
  assert (Hv : v = FREED).
  { destruct (scheme u); simpl in *; try discriminate.
    inversion E. reflexivity. }
  subst v. inv_done. reflexivity.
Qed.

Lemma URI_TRIM_scheme_freed uri : scheme_freed uri -> URI_TRIM uri = Fault.
Proof.
  destruct uri as [u|]; [|intros []]. simpl. intros H.
  unfold URI_TRIM, on_uri. rewrite H. reflexivity.
Qed.

Lemma scheme_freed_set uri : scheme_freed uri -> scheme_set uri.
Proof.
  destruct uri as [u|]; [|auto]. simpl. intros ->. reflexivity.
Qed.

Section SchemeMarker.
Variable sgn : bool.

Ltac scheme_frames :=
  repeat match goal with
  | E : minio_rfc3986_query sgn ?a ?s = Done (?r, ?b, ?c) |- _ =>
      generalize (query_untouched _ scheme_kept sgn a s r b c E);
      clear E; intro
  | E : minio_rfc3986_fragment sgn ?a ?s = Done (?r, ?b, ?c) |- _ =>
      generalize (fragment_untouched _ scheme_kept sgn a s r b c E);
      clear E; intro
  | E : minio_rfc3986_hier_part sgn ?a ?s = Done (?r, ?b, ?c) |- _ =>
      generalize (hier_part_untouched _ scheme_kept sgn a s r b c E);
      clear E; intro
  end.

(** After the query and the fragment the scheme pointer is still not
    null; if it carried the marker, it still does. *)
Lemma query_fragment_end_scheme uri str r uri' :
  query_fragment_end sgn uri str = Done (r, uri') ->
  (scheme_set uri -> scheme_set uri')
  /\ (scheme_freed uri -> scheme_freed uri').
Proof.
  unfold query_fragment_end; intros H; inv_done; scheme_frames;
    repeat match goal with
    | E : field scheme ?b = field scheme ?a |- _ =>
        generalize (scheme_set_frame a b E);
        generalize (scheme_freed_frame a b E); clear E; intros
    end;
    split; intros HS;
    try solve [auto 6];
    try solve [
      match goal with
      | E : URI_TRIM ?a = Done _ |- _ =>
          first
            [ apply scheme_freed_set; eapply URI_TRIM_scheme_set;
              [exact E|auto 6]
            | assert (HF : URI_TRIM a = Fault)
                by (apply URI_TRIM_scheme_freed; auto 6);
              rewrite HF in E; discriminate E ]
      end ].
Qed.

Lemma rfc3986_sets_scheme u str r uri' :
  ISA_ALPHA str = true -> scheme u = NULL ->
  minio_rfc3986 sgn (Some u) str = Done (r, uri') -> scheme_set uri'.
Proof.
  intros HA Hnull. unfold minio_rfc3986, minio_rfc3986_scheme.
  rewrite HA. cbn [negb on_uri]. rewrite Hnull.
  cbn [free_if_set is_null negb bind Z.eqb].
  intros H.
  match type of H with
  | context [Some ?x] =>
      assert (H0 : scheme_set (Some x)) by reflexivity
  end.
  inv_done; scheme_frames;
    repeat match goal with
    | E : field scheme ?b = field scheme ?a |- _ =>
        generalize (scheme_set_frame a b E); clear E; intro
    | E : query_fragment_end sgn ?a ?s = Done (?r, ?b) |- _ =>
        generalize (proj1 (query_fragment_end_scheme a s r b E));
        clear E; intro
    end; auto.
Qed.

Lemma relative_ref_keeps_marker uri str r uri' :
  minio_rfc3986_relative_ref sgn uri str = Done (r, uri') ->
  scheme_freed uri -> scheme_freed uri'.
Proof.
  unfold minio_rfc3986_relative_ref; intros H HS.
  match type of H with
  | bind ?x _ = _ => destruct x as [[[r1 o1] c1]|] eqn:E; cbn [bind] in H;
                     [|discriminate]
  end.
  apply (relative_part_untouched _ scheme_kept) in E.
  apply scheme_freed_frame in E; [|exact HS].
  destruct (negb (r1 =? 0)); [inversion H; subst; exact E|].
  apply query_fragment_end_scheme in H. apply H. exact E.
Qed.

End SchemeMarker.

(** X18.  For an input that starts with a letter, [minio_uri_parse]
    delivers a record only when the absolute grammar matched: the record
    delivered is the one the absolute grammar built.  When that grammar
    fails, the scheme it stored is trimmed to the marker before the
    relative grammar runs, and the marker is what [minio_uri_parse]
    tests; so a reference without scheme that starts with a letter, such
    as a relative path, is answered with -1 (or ends in an invalid
    [free]) even though the relative grammar accepts it. *)
Theorem letter_led_input_needs_absolute_grammar :
  forall (sgn : bool) (str : cstr) (u : bURI),
    ISA_ALPHA str = true ->
    minio_uri_parse sgn (Some str) = Done (0, Some u) ->
    minio_rfc3986 sgn (Some minio_uri_new) str = Done (0, Some u).
Proof.
  intros sgn str u HA H. unfold minio_uri_parse in H.
  destruct (minio_uri_parse_into sgn (Some minio_uri_new) (Some str))
    as [[r o]|] eqn:E; cbn [bind] in H; [|discriminate].
  destruct o as [u1|]; [|discriminate].
  assert (Hu : u1 = u /\ scheme u <> FREED).
  { destruct (scheme u1) eqn:S; inversion H; subst;
      split; congruence. }
  destruct Hu as [-> Hs]. clear H.
  unfold minio_uri_parse_into, minio_rfc3986_uri_reference in E.
  change (URI_TRIM (Some minio_uri_new)) with (Done (Some minio_uri_new)) in E.
  cbn [bind] in E.
  destruct (minio_rfc3986 sgn (Some minio_uri_new) str) as [[r1 o2]|] eqn:P1;
    cbn [bind] in E; [|discriminate].
  destruct (negb (r1 =? 0)) eqn:N1.
  - exfalso.
    apply rfc3986_sets_scheme in P1; [|exact HA|reflexivity].
    destruct (URI_TRIM o2) as [o3|] eqn:T2; cbn [bind] in E; [|discriminate].
    apply URI_TRIM_scheme_set in T2; [|exact P1].
    destruct (minio_rfc3986_relative_ref sgn o3 str) as [[r2 o4]|] eqn:P2;
      cbn [bind] in E; [|discriminate].
    apply relative_ref_keeps_marker in P2; [|exact T2].
    destruct (negb (r2 =? 0)).
    + rewrite (URI_TRIM_scheme_freed o4 P2) in E. discriminate E.
    + inversion E; subst. simpl in P2. contradiction.
  - apply negb_false_iff, Z.eqb_eq in N1. subst r1.
    inversion E; subst. reflexivity.
Qed.

(** The hypotheses of X18 hold for [http://h]. *)
Lemma letter_led_example :
  ISA_ALPHA (lit "http://h") = true
  /\ minio_uri_parse true (Some (lit "http://h"))
     = Done (0, Some (set_server (Owned (lit "h"))
                        (set_scheme (Owned (lit "http")) minio_uri_new)))
  /\ minio_rfc3986 true (Some minio_uri_new) (lit "http://h")
     = Done (0, Some (set_server (Owned (lit "h"))
                        (set_scheme (Owned (lit "http")) minio_uri_new))).
Proof.
  assert (H1 : ISA_ALPHA (lit "http://h") = true) by reflexivity.
  assert (H2 : minio_uri_parse true (Some (lit "http://h"))
               = Done (0, Some (set_server (Owned (lit "h"))
                                  (set_scheme (Owned (lit "http"))
                                     minio_uri_new))))
    by (vm_compute; reflexivity).
  split; [exact H1|]. split; [exact H2|].
  exact (letter_led_input_needs_absolute_grammar true (lit "http://h") _
           H1 H2).
Defined.

(** ** Failed parses that stored a scheme *)

(** C2.  A failed parse does not leave a cleared record behind, because
    it does not return.  On a fresh record and an input that starts with
    a letter, the scheme production stores the scheme; when the absolute
    grammar then fails, [minio_rfc3986_uri_reference] trims the record,
    which puts the marker of [FREE] into the scheme field, runs the
    relative grammar, and on its failure trims again, handing the marker
    to [free].  When the absolute grammar matched a prefix and stopped
    before the end of the input it has trimmed the record itself, and the
    trim that follows already frees the marker.  So for such an input the
    call either returns 0 or ends in that invalid [free]; it never
    returns a failure code. *)
Theorem failed_parse_frees_the_marker :
  forall (sgn : bool) (str : cstr),
    ISA_ALPHA str = true ->
    minio_uri_parse_into sgn (Some minio_uri_new) (Some str) = Fault
    \/ exists u : bURI,
         minio_uri_parse_into sgn (Some minio_uri_new) (Some str)
         = Done (0, Some u).
Proof.
  intros sgn str HA.
  destruct (minio_uri_parse_into sgn (Some minio_uri_new) (Some str))
    as [[r o]|] eqn:E; [right|left; reflexivity].
  pose proof (parse_into_sink _ _ _ _ _ E) as Hsink.
  destruct o as [u|]; [|discriminate Hsink].
  exists u. f_equal. f_equal.
  unfold minio_uri_parse_into, minio_rfc3986_uri_reference in E.
  change (URI_TRIM (Some minio_uri_new)) with (Done (Some minio_uri_new)) in E.
  cbn [bind] in E.
  destruct (minio_rfc3986 sgn (Some minio_uri_new) str) as [[r1 o2]|] eqn:P1;
    cbn [bind] in E; [|discriminate].
  destruct (negb (r1 =? 0)) eqn:N1.
  - apply rfc3986_sets_scheme in P1; [|exact HA|reflexivity].
    destruct (URI_TRIM o2) as [o3|] eqn:T2; cbn [bind] in E; [|discriminate].
    apply URI_TRIM_scheme_set in T2; [|exact P1].
    destruct (minio_rfc3986_relative_ref sgn o3 str) as [[r2 o4]|] eqn:P2;
      cbn [bind] in E; [|discriminate].
    apply relative_ref_keeps_marker in P2; [|exact T2].
    destruct (negb (r2 =? 0)) eqn:N2.
    + rewrite (URI_TRIM_scheme_freed o4 P2) in E. discriminate E.
    + apply negb_false_iff, Z.eqb_eq in N2. inversion E; subst. reflexivity.
  - apply negb_false_iff, Z.eqb_eq in N1. inversion E; subst. reflexivity.
Qed.

(** The hypothesis of C2 holds for [http://h/path garbage], which the
    grammar rejects (code 1 with a null record) because of the space
    after the path: on a fresh record the call does not return. *)
Lemma trailing_garbage_example :
  ISA_ALPHA (lit "http://h/path garbage") = true
  /\ minio_uri_parse_into true None (Some (lit "http://h/path garbage"))
     = Done (1, None)
  /\ minio_uri_parse_into true (Some minio_uri_new)
                          (Some (lit "http://h/path garbage"))
     = Fault.
Proof.
  assert (H : ISA_ALPHA (lit "http://h/path garbage") = true) by reflexivity.
  split; [exact H|]. split; [vm_compute; reflexivity|].
  destruct (failed_parse_frees_the_marker true
              (lit "http://h/path garbage") H) as [F|[u D]].
  - exact F.
  - vm_compute in D. discriminate D.
Defined.

(** ** The two query pointers *)

(** X19.  The two query pointers stay in step as pointers: if [query]
    and [query_raw] of the record are both null or both non-null before
    [minio_uri_parse_into], they are so afterwards, whatever the input
    and the code returned. *)
Theorem query_pointers_null_together :
  forall (sgn : bool) (uri : option bURI) (str : option cstr) (r : Z)
         (uri' : option bURI),
    minio_uri_parse_into sgn uri str = Done (r, uri') ->
    null_sync uri -> null_sync uri'.
Proof. exact parse_into_null_sync. Qed.

(** The hypotheses of X19 hold for a fresh record and [//h?k=v]. *)
Lemma query_pointers_example :
  minio_uri_parse_into true (Some minio_uri_new) (Some (lit "//h?k=v"))
    = Done (0, Some (set_query_raw (Owned (lit "k=v"))
                       (set_query (Owned (lit "k=v"))
                          (set_server (Owned (lit "h")) minio_uri_new))))
  /\ null_sync (Some minio_uri_new)
  /\ null_sync (Some (set_query_raw (Owned (lit "k=v"))
                        (set_query (Owned (lit "k=v"))
                           (set_server (Owned (lit "h")) minio_uri_new)))).
Proof.
  assert (H1 : minio_uri_parse_into true (Some minio_uri_new)
                 (Some (lit "//h?k=v"))
               = Done (0, Some (set_query_raw (Owned (lit "k=v"))
                                  (set_query (Owned (lit "k=v"))
                                     (set_server (Owned (lit "h"))
                                        minio_uri_new)))))
    by (vm_compute; reflexivity).
  assert (H2 : null_sync (Some minio_uri_new)) by reflexivity.
  split; [exact H1|]. split; [exact H2|].
  exact (query_pointers_null_together true _ _ _ _ H1 H2).
Defined.

(** ** The serializer *)

Lemma sb_len_put c b : sb_len (put c b) = sb_len b + 1.
Proof. unfold sb_len, put. cbn. rewrite length_app. simpl. lia. Qed.

Lemma appended_refl b : sb_ok b -> appended b [] b.
Proof. intros H. split; [rewrite app_nil_r; reflexivity|exact H]. Qed.

Lemma appended_trans b1 t1 b2 t2 b3 :
  appended b1 t1 b2 -> appended b2 t2 b3 -> appended b1 (t1 ++ t2) b3.
Proof.
  intros [H1 _] [H2 H3]. split; [|exact H3].
  rewrite H2, H1, app_assoc. reflexivity.
Qed.

(** After the capacity test with a slack of at most 77, up to [slack]
    more bytes (at least one) fit. *)
Lemma grow_if_room slack b :
  0 <= slack <= 77 -> sb_ok b ->
  sb_ret (grow_if slack b) = sb_ret b
  /\ sb_len b + slack < sb_max (grow_if slack b)
  /\ sb_len b < sb_max (grow_if slack b)
  /\ 80 <= sb_max (grow_if slack b).
Proof.
  intros Hs [H1 H2]. unfold grow_if, realloc2n.
  destruct (sb_len b + slack >=? sb_max b) eqn:E; cbn.
  - repeat split; lia.
  - assert (sb_len b + slack < sb_max b) by lia. repeat split; lia.
Qed.

Lemma grow_if_appended slack b :
  0 <= slack <= 77 -> sb_ok b -> appended b [] (grow_if slack b).
Proof.
  intros Hs Hb. destruct (grow_if_room slack b Hs Hb) as (H1 & H2 & H3 & H4).
  split; [rewrite H1, app_nil_r; reflexivity|].
  split; [|exact H4]. unfold sb_len in *. rewrite H1. lia.
Qed.

Lemma grow_put_appended slack c b :
  0 <= slack <= 77 -> sb_ok b -> appended b [c] (put c (grow_if slack b)).
Proof.
  intros Hs Hb. destruct (grow_if_room slack b Hs Hb) as (H1 & H2 & H3 & H4).
  split; [cbn; rewrite H1; reflexivity|].
  split; [|exact H4]. rewrite sb_len_put. unfold sb_len in *. cbn.
  rewrite H1. lia.
Qed.

Lemma grow_put2_appended c1 c2 b :
  sb_ok b -> appended b [c1; c2] (put c2 (put c1 (grow_if 3 b))).
Proof.
  intros Hb.
  destruct (grow_if_room 3 b ltac:(lia) Hb) as (H1 & H2 & H3 & H4).
  split; [cbn; rewrite H1, <- app_assoc; reflexivity|].
  split; [|exact H4]. rewrite !sb_len_put. unfold sb_len in *. cbn.
  rewrite H1. lia.
Qed.

Lemma grow_put3_appended c1 c2 c3 b :
  sb_ok b ->
  appended b [c1; c2; c3] (put c3 (put c2 (put c1 (grow_if 3 b)))).
Proof.
  intros Hb.
  destruct (grow_if_room 3 b ltac:(lia) Hb) as (H1 & H2 & H3 & H4).
  split; [cbn; rewrite H1, <- !app_assoc; reflexivity|].
  split; [|exact H4]. rewrite !sb_len_put. unfold sb_len in *. cbn.
  rewrite H1. lia.
Qed.

Lemma copy_loop_appended slack : 0 <= slack <= 77 ->
  forall p b, sb_ok b -> appended b (c_str p) (copy_loop slack p b).
Proof.
  intros Hs. induction p as [|c p IH]; intros b Hb; cbn [copy_loop c_str].
  - apply appended_refl. exact Hb.
  - destruct (c =? 0); [apply appended_refl; exact Hb|].
    pose proof (grow_put_appended slack c b Hs Hb) as H1.
    apply (appended_trans _ [c] _ (c_str p) _ H1).
    apply IH. apply H1.
Qed.

Lemma escape_to_appended sgn keep : forall p b,
  sb_ok b -> appended b (escape_with sgn keep p) (escape_to sgn keep p b).
Proof.
  unfold escape_with.
  induction p as [|c p IH]; intros b Hb; cbn [escape_to c_str flat_map].
  - apply appended_refl. exact Hb.
  - destruct (c =? 0); [apply appended_refl; exact Hb|]. cbn [flat_map].
    destruct (keep c).
    + pose proof (grow_put_appended 3 c b ltac:(lia) Hb) as H1.
      eapply appended_trans; [exact H1|]. apply IH. apply H1.
    + pose proof (grow_put3_appended (ch "%")
                    (hex_char sgn (to_uchar c / 16))
                    (hex_char sgn (to_uchar c mod 16)) b Hb) as H1.
      eapply appended_trans; [exact H1|]. apply IH. apply H1.
Qed.

Lemma decimal_chars_length : forall fuel n,
  (length (decimal_chars fuel n) <= fuel)%nat.
Proof.
  induction fuel as [|fuel IH]; intros n; cbn [decimal_chars]; [simpl; lia|].
  rewrite length_app. cbn [length].
  destruct (n <? 10); [simpl; lia|]. specialize (IH (n / 10)). lia.
Qed.

Lemma decimal_chars_short : forall fuel k n,
  (1 <= k)%nat -> 0 <= n < 10 ^ Z.of_nat k ->
  (length (decimal_chars fuel n) <= k)%nat.
Proof.
  induction fuel as [|fuel IH]; intros k n Hk Hn; cbn [decimal_chars];
    [simpl; lia|].
  rewrite length_app. cbn [length].
  destruct (n <? 10) eqn:E; [simpl; lia|].
  apply Z.ltb_ge in E.
  destruct k as [|[|k]]; [lia|simpl in Hn; lia|].
  assert (Hdiv : 0 <= n / 10 < 10 ^ Z.of_nat (S k)).
  { split; [apply Z.div_pos; lia|].
    apply Z.div_lt_upper_bound; [lia|].
    replace (Z.of_nat (S (S k))) with (Z.succ (Z.of_nat (S k))) in Hn by lia.
    rewrite Z.pow_succ_r in Hn by lia. lia. }
  specialize (IH (S k) (n / 10) ltac:(lia) Hdiv). lia.
Qed.

Lemma snprintf_port_appended port b :
  0 < port < 10 ^ 9 -> sb_ok b ->
  exists b', snprintf_port port (grow_if 10 b) = Done b'
             /\ appended b (ch ":" :: decimal_chars 10 port) b'.
Proof.
  intros Hp Hb.
  destruct (grow_if_room 10 b ltac:(lia) Hb) as (H1 & H2 & H3 & H4).
  pose proof (decimal_chars_short 10 9 port ltac:(lia) ltac:(simpl; lia))
    as HL.
  unfold snprintf_port.
  assert (Hlen : sb_len (grow_if 10 b) = sb_len b)
    by (unfold sb_len; rewrite H1; reflexivity).
  rewrite Hlen.
  destruct (Z.of_nat (length (ch ":" :: decimal_chars 10 port))
            <? sb_max (grow_if 10 b) - sb_len b) eqn:E.
  - eexists; split; [reflexivity|]. split; [cbn; rewrite H1; reflexivity|].
    apply Z.ltb_lt in E. split; [|exact H4].
    unfold sb_len in *. cbn [sb_ret sb_max]. rewrite length_app, H1. lia.
  - apply Z.ltb_ge in E. cbn [length] in E. lia.
Qed.

Lemma appended_cons b c t b1 b2 :
  appended b [c] b1 -> appended b1 t b2 -> appended b (c :: t) b2.
Proof. intros H1 H2. exact (appended_trans _ _ _ _ _ H1 H2). Qed.

Lemma to_string_scheme_appended u b :
  sb_ok b -> is_freed (scheme u) = false ->
  exists b',
    to_string_scheme u b = Done b'
    /\ appended b (if negb (is_null (scheme u))
                   then c_str (field_text (scheme u)) ++ [ch ":"] else [])
                b'.
Proof.
  intros Hb Hf. unfold to_string_scheme.
  destruct (scheme u) as [| |s]; try discriminate; cbn [is_null negb deref bind field_text].
  - eexists; split; [reflexivity|apply appended_refl; exact Hb].
  - eexists; split; [reflexivity|].
    pose proof (copy_loop_appended 0 ltac:(lia) s b Hb) as H1.
    eapply appended_trans; [exact H1|].
    apply (grow_put_appended 0); [lia|apply H1].
Qed.

Lemma to_string_server_appended sgn u b :
  sb_ok b -> port u < 10 ^ 9 ->
  is_null (server u) = false -> is_freed (server u) = false ->
  is_freed (user u) = false ->
  exists b',
    to_string_server sgn u b = Done b'
    /\ appended b
         (lit "//"
          ++ (if negb (is_null (user u))
              then escape_with sgn keep_user (field_text (user u)) ++ [ch "@"]
              else [])
          ++ c_str (field_text (server u))
          ++ (if 0 <? port u then ch ":" :: decimal_chars 10 (port u) else []))
         b'.
Proof.
  intros Hb Hp Hn Hs Hu. unfold to_string_server.
  pose proof (grow_put2_appended (ch "/") (ch "/") b Hb) as H0.
  set (b0 := put (ch "/") (put (ch "/") (grow_if 3 b))) in *.
  assert (H1 : exists b1,
             (if negb (is_null (user u))
              then p <- deref (user u);;
                   Done (put (ch "@")
                           (grow_if 3 (escape_to sgn keep_user p b0)))
              else Done b0) = Done b1
             /\ appended b0 (if negb (is_null (user u))
                             then escape_with sgn keep_user
                                    (field_text (user u)) ++ [ch "@"]
                             else []) b1).
  { destruct (user u) as [| |us]; try discriminate; cbn [is_null negb deref bind field_text].
    - eexists; split; [reflexivity|apply appended_refl; apply H0].
    - eexists; split; [reflexivity|].
      pose proof (escape_to_appended sgn keep_user us b0 (proj2 H0)) as H1.
      eapply appended_trans; [exact H1|].
      apply (grow_put_appended 3); [lia|apply H1]. }
  destruct H1 as (b1 & E1 & A1). rewrite E1. cbn [bind].
  destruct (server u) as [| |h]; try discriminate. cbn [deref bind field_text].
  pose proof (copy_loop_appended 0 ltac:(lia) h b1 (proj2 A1)) as A2.
  set (b2 := copy_loop 0 h b1) in *.
  assert (H3 : exists b3,
             (if 0 <? port u then snprintf_port (port u) (grow_if 10 b2)
              else Done b2) = Done b3
             /\ appended b2 (if 0 <? port u
                             then ch ":" :: decimal_chars 10 (port u)
                             else []) b3).
  { destruct (0 <? port u) eqn:E.
    - apply Z.ltb_lt in E.
      apply snprintf_port_appended; [lia|apply A2].
    - eexists; split; [reflexivity|apply appended_refl; apply A2]. }
  destruct H3 as (b3 & E3 & A3). rewrite E3.
  exists b3. split; [reflexivity|].
  change (lit "//") with [ch "/"; ch "/"].
  eapply appended_trans; [exact H0|].
  eapply appended_trans; [exact A1|].
  eapply appended_trans; [exact A2|exact A3].
Qed.

Lemma to_string_authority_appended sgn u b :
  sb_ok b -> port u < 10 ^ 9 ->
  is_freed (server u) = false ->
  (negb (is_null (server u)) && is_freed (user u)) = false ->
  (is_null (server u) && is_freed (authority u)) = false ->
  exists b',
    to_string_authority sgn u b = Done b'
    /\ appended b
         (if negb (is_null (server u)) then
            lit "//"
            ++ (if negb (is_null (user u))
                then escape_with sgn keep_user (field_text (user u))
                     ++ [ch "@"]
                else [])
            ++ c_str (field_text (server u))
            ++ (if 0 <? port u then ch ":" :: decimal_chars 10 (port u)
                else [])
          else if negb (is_null (authority u)) then
            lit "//"
            ++ escape_with sgn keep_authority (field_text (authority u))
          else if negb (is_null (scheme u)) then lit "//"
          else [])
         b'.
Proof.
  intros Hb Hp Hs Hu Ha. unfold to_string_authority.
  destruct (is_null (server u)) eqn:N; cbn [negb andb] in *.
  - destruct (authority u) as [| |a]; try discriminate; cbn [is_null negb deref bind field_text].
    + change (lit "//") with [ch "/"; ch "/"].
      destruct (is_null (scheme u)); cbn [negb].
      * eexists; split; [reflexivity|apply appended_refl; exact Hb].
      * eexists; split; [reflexivity|apply grow_put2_appended; exact Hb].
    + eexists; split; [reflexivity|].
      pose proof (grow_put2_appended (ch "/") (ch "/") b Hb) as H0.
      change (lit "//") with [ch "/"; ch "/"].
      eapply appended_trans; [exact H0|].
      apply escape_to_appended. apply H0.
  - apply to_string_server_appended; assumption.
Qed.

Lemma drive_letter_path_prefix u p sch :
  drive_letter_path u p sch = true ->
  firstn 3 p = [peek p 0; peek p 1; peek p 2]
  /\ peek p 0 <> 0 /\ peek p 1 <> 0 /\ peek p 2 <> 0.
Proof.
  unfold drive_letter_path, drive_letter_shape. intros H.
  apply andb_true_iff in H. destruct H as [H _].
  apply andb_true_iff in H. destruct H as [H H2].
  apply andb_true_iff in H. destruct H as [H H1].
  apply andb_true_iff in H. destruct H as [_ H0].
  apply Z.eqb_eq in H0, H2.
  assert (H1' : 65 <= peek p 1).
  { apply orb_true_iff in H1. destruct H1 as [H1|H1];
      apply andb_true_iff in H1; destruct H1 as [H1 _];
      apply Z.leb_le in H1;
      change (ch "a") with 97 in H1; change (ch "A") with 65 in H1; lia. }
  change (ch "/") with 47 in H0. change (ch ":") with 58 in H2.
  destruct p as [|p0 [|p1 [|p2 p3]]]; cbn [peek nth] in *;
    try discriminate; try lia.
  split; [reflexivity|]. repeat split; lia.
Qed.

Lemma to_string_path_appended sgn u b :
  sb_ok b -> is_freed (path u) = false -> is_freed (scheme u) = false ->
  exists b',
    to_string_path sgn u b = Done b'
    /\ appended b
         (if negb (is_null (path u)) then
            if drive_letter_path u (field_text (path u))
                                 (field_text (scheme u))
            then firstn 3 (field_text (path u))
                 ++ escape_with sgn keep_path (skipn 3 (field_text (path u)))
            else escape_with sgn keep_path (field_text (path u))
          else [])
         b'.
Proof.
  intros Hb Hp Hs. unfold to_string_path.
  destruct (path u) as [| |p]; try discriminate; cbn [is_null negb deref bind field_text].
  - eexists; split; [reflexivity|apply appended_refl; exact Hb].
  - assert (Hd : (if drive_letter_shape u p
                  then sch <- deref (scheme u);; Done (is_file sch)
                  else Done false)
                 = Done (drive_letter_path u p (field_text (scheme u)))).
    { unfold drive_letter_path, drive_letter_shape.
      destruct (scheme u) as [| |s]; try discriminate Hs;
        cbn [is_null negb andb deref bind field_text]; [reflexivity|].
      match goal with |- (if ?x then _ else _) = _ => destruct x end;
        reflexivity. }
    rewrite Hd. cbn [bind].
    destruct (drive_letter_path u p (field_text (scheme u))) eqn:D.
    + eexists; split; [reflexivity|].
      destruct (drive_letter_path_prefix _ _ _ D) as (-> & _).
      pose proof (grow_put3_appended (peek p 0) (peek p 1) (peek p 2) b Hb)
        as H0.
      eapply appended_trans; [exact H0|].
      apply escape_to_appended. apply H0.
    + eexists; split; [reflexivity|].
      apply escape_to_appended. exact Hb.
Qed.

Lemma to_string_query_appended u b :
  sb_ok b -> is_freed (query u) = false ->
  exists b',
    to_string_query u b = Done b'
    /\ appended b (if negb (is_null (query u))
                   then ch "?" :: c_str (field_text (query u)) else [])
                b'.
Proof.
  intros Hb Hq. unfold to_string_query.
  destruct (query u) as [| |q]; try discriminate; cbn [is_null negb deref bind field_text].
  - eexists; split; [reflexivity|apply appended_refl; exact Hb].
  - eexists; split; [reflexivity|].
    pose proof (grow_put_appended 1 (ch "?") b ltac:(lia) Hb) as H0.
    eapply appended_cons; [exact H0|].
    apply copy_loop_appended; [lia|apply H0].
Qed.

Lemma to_string_fragment_appended sgn u b :
  sb_ok b -> is_freed (fragment u) = false ->
  exists b',
    to_string_fragment sgn u b = Done b'
    /\ appended b (if negb (is_null (fragment u))
                   then ch "#" :: escape_with sgn keep_fragment
                                    (field_text (fragment u))
                   else [])
                b'.
Proof.
  intros Hb Hq. unfold to_string_fragment.
  destruct (fragment u) as [| |q]; try discriminate; cbn [is_null negb deref bind field_text].
  - eexists; split; [reflexivity|apply appended_refl; exact Hb].
  - eexists; split; [reflexivity|].
    pose proof (grow_put_appended 3 (ch "#") b ltac:(lia) Hb) as H0.
    eapply appended_cons; [exact H0|].
    apply escape_to_appended. apply H0.
Qed.

(** *** No NUL inside the text *)

Lemma c_str_nonzero : forall buf, Forall (fun c => c <> 0) (c_str buf).
Proof.
  induction buf as [|c buf IH]; cbn [c_str]; [constructor|].
  destruct (c =? 0) eqn:E; [constructor|].
  apply Z.eqb_neq in E. constructor; assumption.
Qed.

Lemma c_str_id : forall buf, Forall (fun c => c <> 0) buf -> c_str buf = buf.
Proof.
  induction 1 as [|c buf Hc _ IH]; [reflexivity|].
  cbn [c_str]. apply Z.eqb_neq in Hc. rewrite Hc, IH. reflexivity.
Qed.

Lemma hex_char_nonzero sgn d : 0 <= d < 16 -> hex_char sgn d <> 0.
Proof.
  intros H.
  assert (Hall : forallb (fun d => negb (hex_char sgn d =? 0))
                         (chars_from 0 16) = true)
    by (destruct sgn; vm_compute; reflexivity).
  rewrite forallb_forall in Hall.
  specialize (Hall d (chars_from_In 0 16 d ltac:(simpl; lia))).
  apply negb_true_iff, Z.eqb_neq in Hall. exact Hall.
Qed.

Lemma escape_with_nonzero sgn keep p :
  Forall (fun c => c <> 0) (escape_with sgn keep p).
Proof.
  unfold escape_with.
  pose proof (c_str_nonzero p) as H.
  induction H as [|c l Hc _ IH]; cbn [flat_map]; [constructor|].
  apply Forall_app. split; [|exact IH].
  destruct (keep c); [repeat constructor; exact Hc|].
  unfold to_uchar.
  repeat constructor;
    [discriminate
    |apply hex_char_nonzero; split;
       [apply Z.div_pos; [apply Z.mod_pos_bound|]; lia
       |apply Z.div_lt_upper_bound; [lia|];
        pose proof (Z.mod_pos_bound c 256 ltac:(lia)); lia]
    |apply hex_char_nonzero; apply Z.mod_pos_bound; lia].
Qed.

Lemma decimal_chars_nonzero : forall fuel n,
  0 <= n -> Forall (fun c => c <> 0) (decimal_chars fuel n).
Proof.
  induction fuel as [|fuel IH]; intros n Hn; cbn [decimal_chars];
    [constructor|].
  apply Forall_app. split.
  - destruct (n <? 10); [constructor|].
    apply IH. apply Z.div_pos; lia.
  - repeat constructor. change (ch "0") with 48.
    pose proof (Z.mod_pos_bound n 10 ltac:(lia)). lia.
Qed.

Lemma to_string_text_nonzero sgn u :
  Forall (fun c => c <> 0) (to_string_text sgn u).
Proof.
  unfold to_string_text.
  repeat first
    [ apply Forall_nil
    | apply c_str_nonzero
    | apply escape_with_nonzero
    | match goal with
      | E : (0 <? _) = true |- Forall _ (decimal_chars _ _) =>
          apply decimal_chars_nonzero; apply Z.ltb_lt in E; lia
      end
    | match goal with
      | |- Forall _ (_ :: _) => apply Forall_cons; [discriminate|]
      | |- Forall _ (lit _ ++ _) => apply Forall_app; split
      | |- Forall _ (lit _) => repeat constructor; discriminate
      | |- Forall _ (if ?b then _ else _) => destruct b eqn:?
      | |- Forall _ (_ ++ _) => apply Forall_app; split
      end ].
  match goal with
  | D : drive_letter_path _ _ _ = true |- _ =>
      destruct (drive_letter_path_prefix _ _ _ D) as (-> & H0 & H1 & H2)
  end.
  repeat (apply Forall_cons; [assumption|]). apply Forall_nil.
Qed.

(** *** The serializer computes the concatenation *)

(** X20.  When no field that it reads carries the marker of [FREE] and
    the port is below 10^9, [minio_uri_to_string] returns exactly the
    text of the record, [to_string_text]: the growing of the buffer never
    shows in the result, the port is printed in full, and the text holds
    no NUL, so nothing is cut off. *)
Theorem to_string_is_the_text_of_the_record :
  forall (sgn : bool) (u : bURI),
    reads_marker u = false ->
    port u < 10 ^ 9 ->
    minio_uri_to_string sgn (Some u) = Done (Owned (to_string_text sgn u)).
Proof.
  intros sgn u HR HP. unfold reads_marker in HR.
  apply orb_false_iff in HR. destruct HR as [HR Hrest].
  apply orb_false_iff in HR. destruct HR as [HR Hfr].
  apply orb_false_iff in HR. destruct HR as [Hsch Hop].
  assert (Hb0 : sb_ok (mkBuf [] 80)) by (split; cbn; lia).
  unfold minio_uri_to_string.
  destruct (to_string_scheme_appended u _ Hb0 Hsch) as (b1 & E1 & A1).
  rewrite E1. cbn [bind].
  assert (H2 : exists b2,
     (if negb (is_null (opaque u))
      then p <- deref (opaque u);; Done (escape_to sgn keep_opaque p b1)
      else
       b <- to_string_authority sgn u b1;;
       b0 <- to_string_path sgn u b;; to_string_query u b0) = Done b2
     /\ appended b1
          (if negb (is_null (opaque u))
           then escape_with sgn keep_opaque (field_text (opaque u))
           else
             (if negb (is_null (server u)) then
                lit "//"
                ++ (if negb (is_null (user u))
                    then escape_with sgn keep_user (field_text (user u))
                         ++ [ch "@"]
                    else [])
                ++ c_str (field_text (server u))
                ++ (if 0 <? port u then ch ":" :: decimal_chars 10 (port u)
                    else [])
              else if negb (is_null (authority u)) then
                lit "//"
                ++ escape_with sgn keep_authority (field_text (authority u))
              else if negb (is_null (scheme u)) then lit "//"
              else [])
             ++ (if negb (is_null (path u)) then
                   if drive_letter_path u (field_text (path u))
                                        (field_text (scheme u))
                   then firstn 3 (field_text (path u))
                        ++ escape_with sgn keep_path
                             (skipn 3 (field_text (path u)))
                   else escape_with sgn keep_path (field_text (path u))
                 else [])
             ++ (if negb (is_null (query u))
                 then ch "?" :: c_str (field_text (query u)) else []))
          b2).
  { destruct (opaque u) as [| |o] eqn:O; try discriminate;
      cbn [is_null negb deref bind field_text andb] in *.
    - apply orb_false_iff in Hrest. destruct Hrest as [Hrest Hau].
      apply orb_false_iff in Hrest. destruct Hrest as [Hrest Hus].
      apply orb_false_iff in Hrest. destruct Hrest as [Hrest Hq].
      apply orb_false_iff in Hrest. destruct Hrest as [Hsv Hpa].
      destruct (to_string_authority_appended sgn u b1 (proj2 A1) HP
                  Hsv Hus Hau) as (b2 & E2 & A2).
      rewrite E2. cbn [bind].
      destruct (to_string_path_appended sgn u b2 (proj2 A2) Hpa Hsch)
        as (b3 & E3 & A3).
      rewrite E3. cbn [bind].
      destruct (to_string_query_appended u b3 (proj2 A3) Hq)
        as (b4 & E4 & A4).
      exists b4. split; [exact E4|].
      eapply appended_trans; [exact A2|].
      eapply appended_trans; [exact A3|exact A4].
    - eexists; split; [reflexivity|].
      apply escape_to_appended. apply A1. }
  destruct H2 as (b2 & E2 & A2). rewrite E2. cbn [bind].
  destruct (to_string_fragment_appended sgn u b2 (proj2 A2) Hfr)
    as (b3 & E3 & A3).
  rewrite E3. cbn [bind].
  pose proof (grow_if_appended 0 b3 ltac:(lia) (proj2 A3)) as A4.
  pose proof (appended_trans _ _ _ _ _ A1
                (appended_trans _ _ _ _ _ A2
                   (appended_trans _ _ _ _ _ A3 A4))) as A.
  destruct A as [A _]. cbn [sb_ret app] in A. rewrite app_nil_r in A.
  rewrite A.
  fold (to_string_text sgn u) in *.
  do 2 f_equal.
  change ((if negb (is_null (scheme u))
           then c_str (field_text (scheme u)) ++ [ch ":"] else [])
          ++ (if negb (is_null (opaque u))
              then escape_with sgn keep_opaque (field_text (opaque u))
              else
                (if negb (is_null (server u)) then
                   lit "//"
                   ++ (if negb (is_null (user u))
                       then escape_with sgn keep_user (field_text (user u))
                            ++ [ch "@"]
                       else [])
                   ++ c_str (field_text (server u))
                   ++ (if 0 <? port u
                       then ch ":" :: decimal_chars 10 (port u) else [])
                 else if negb (is_null (authority u)) then
                   lit "//"
                   ++ escape_with sgn keep_authority
                        (field_text (authority u))
                 else if negb (is_null (scheme u)) then lit "//"
                 else [])
                ++ (if negb (is_null (path u)) then
                      if drive_letter_path u (field_text (path u))
                                           (field_text (scheme u))
                      then firstn 3 (field_text (path u))
                           ++ escape_with sgn keep_path
                                (skipn 3 (field_text (path u)))
                      else escape_with sgn keep_path (field_text (path u))
                    else [])
                ++ (if negb (is_null (query u))
                    then ch "?" :: c_str (field_text (query u)) else []))
          ++ (if negb (is_null (fragment u))
              then ch "#" :: escape_with sgn keep_fragment
                               (field_text (fragment u))
              else []))
    with (to_string_text sgn u).
  apply c_str_id. apply to_string_text_nonzero.
Qed.

(** The hypotheses of X20 hold for a record with scheme, user, host, port
    and path. *)
Lemma to_string_example :
  reads_marker (set_path (Owned (lit "/a b"))
                  (set_port 8080
                     (set_user (Owned (lit "me"))
                        (set_server (Owned (lit "h"))
                           (set_scheme (Owned (lit "http"))
                              minio_uri_new))))) = false
  /\ 8080 < 10 ^ 9
  /\ minio_uri_to_string true
       (Some (set_path (Owned (lit "/a b"))
                (set_port 8080
                   (set_user (Owned (lit "me"))
                      (set_server (Owned (lit "h"))
                         (set_scheme (Owned (lit "http"))
                            minio_uri_new))))))
     = Done (Owned (lit "http://me@h:8080/a%20b")).
Proof.
  assert (H1 : reads_marker (set_path (Owned (lit "/a b"))
                  (set_port 8080
                     (set_user (Owned (lit "me"))
                        (set_server (Owned (lit "h"))
                           (set_scheme (Owned (lit "http"))
                              minio_uri_new))))) = false) by reflexivity.
  assert (H2 : 8080 < 10 ^ 9) by reflexivity.
  split; [exact H1|]. split; [exact H2|].
  exact (to_string_is_the_text_of_the_record true _ H1 H2).
Defined.

Lemma bind_always_fault {A B : Type} (c : outcome A) (k : A -> outcome B) :
  (forall a, k a = Fault) -> bind c k = Fault.
Proof. intros H. destruct c; [apply H|reflexivity]. Qed.

Lemma to_string_scheme_fault u b :
  is_freed (scheme u) = true -> to_string_scheme u b = Fault.
Proof.
  unfold to_string_scheme. destruct (scheme u); try discriminate. reflexivity.
Qed.

Lemma to_string_server_fault sgn u b :
  is_freed (server u) || is_freed (user u) = true ->
  to_string_server sgn u b = Fault.
Proof.
  unfold to_string_server. intros H.
  destruct (user u) as [| |us]; cbn [is_null negb deref bind is_freed] in *;
    [|reflexivity|];
    (destruct (server u); cbn [is_freed orb] in H; try discriminate H;
     reflexivity).
Qed.

Lemma to_string_authority_fault sgn u b :
  is_freed (server u)
  || negb (is_null (server u)) && is_freed (user u)
  || is_null (server u) && is_freed (authority u) = true ->
  to_string_authority sgn u b = Fault.
Proof.
  unfold to_string_authority. intros H.
  destruct (server u) as [| |h] eqn:Sv;
    cbn [is_null negb is_freed orb andb] in *.
  - destruct (authority u); try discriminate H. reflexivity.
  - apply to_string_server_fault. rewrite Sv. reflexivity.
  - apply to_string_server_fault. rewrite Sv. cbn [is_freed orb].
    rewrite orb_false_r in H. exact H.
Qed.

Lemma to_string_path_fault sgn u b :
  is_freed (path u) = true -> to_string_path sgn u b = Fault.
Proof.
  unfold to_string_path. destruct (path u); try discriminate. reflexivity.
Qed.

Lemma to_string_query_fault u b :
  is_freed (query u) = true -> to_string_query u b = Fault.
Proof.
  unfold to_string_query. destruct (query u); try discriminate. reflexivity.
Qed.

Lemma to_string_fragment_fault sgn u b :
  is_freed (fragment u) = true -> to_string_fragment sgn u b = Fault.
Proof.
  unfold to_string_fragment. destruct (fragment u); try discriminate.
  reflexivity.
Qed.

(** X21.  [minio_uri_to_string] ends in a read through the marker of
    [FREE] whenever a field that it reads carries it: the scheme, the
    opaque part or the fragment in any case, and, when there is no opaque
    part, the server, the path, the query, the user of a record with a
    server, or the authority of a record without one. *)
Theorem to_string_reads_the_marker :
  forall (sgn : bool) (u : bURI),
    reads_marker u = true -> minio_uri_to_string sgn (Some u) = Fault.
Proof.
  intros sgn u H. unfold minio_uri_to_string, reads_marker in *.
  apply orb_true_iff in H. destruct H as [H|H].
  apply orb_true_iff in H. destruct H as [H|H].
  apply orb_true_iff in H. destruct H as [H|H].
  - rewrite to_string_scheme_fault by exact H. reflexivity.
  - apply bind_always_fault. intros b.
    destruct (opaque u); try discriminate H. reflexivity.
  - apply bind_always_fault. intros b.
    apply bind_always_fault. intros b'.
    rewrite to_string_fragment_fault by exact H. reflexivity.
  - apply andb_true_iff in H. destruct H as [HO H].
    apply bind_always_fault. intros b.
    destruct (opaque u); try discriminate HO. cbn [is_null negb].
    assert (HM : (b0 <- to_string_authority sgn u b;;
                  b1 <- to_string_path sgn u b0;; to_string_query u b1)
                 = Fault).
    { destruct (is_freed (server u)
                || negb (is_null (server u)) && is_freed (user u)
                || is_null (server u) && is_freed (authority u)) eqn:HA.
      - rewrite to_string_authority_fault by exact HA. reflexivity.
      - apply bind_always_fault. intros b0.
        destruct (is_freed (path u)) eqn:HP.
        + rewrite to_string_path_fault by exact HP. reflexivity.
        + apply bind_always_fault. intros b1.
          apply to_string_query_fault.
          destruct (is_freed (query u)); [reflexivity|].
          destruct (is_freed (server u)); cbn [orb] in *;
            [discriminate HA|].
          destruct (negb (is_null (server u)) && is_freed (user u));
            cbn [orb] in *; [discriminate HA|].
          rewrite HA in H. discriminate H. }
    rewrite HM. reflexivity.
Qed.

(** X22.  The digits that the serializer prints for a port are read back
    by the port production to the same port: for every positive [int]
    value [n] and every continuation that does not start with a digit,
    [minio_rfc3986_port] on the printed digits returns 0 and stores
    [n]. *)
Theorem printed_port_is_read_back :
  forall (u : bURI) (n : Z) (rest : cstr),
    0 < n < 2 ^ 31 ->
    ISA_DIGIT rest = false ->
    minio_rfc3986_port (Some u) (decimal_chars 10 n ++ rest)
    = Done (0, Some (set_port n u), rest).
Proof.
  intros u n rest Hn Hr.
  assert (Hdig : forall fuel m, 0 <= m ->
            Forall (fun c => IS_DIGIT c = true) (decimal_chars fuel m)).
  { induction fuel as [|fuel IH]; intros m Hm; cbn [decimal_chars];
      [constructor|].
    apply Forall_app. split.
    - destruct (m <? 10); [constructor|]. apply IH. apply Z.div_pos; lia.
    - repeat constructor. unfold IS_DIGIT.
      change (ch "0") with 48. change (ch "9") with 57.
      pose proof (Z.mod_pos_bound m 10 ltac:(lia)).
      apply andb_true_iff. split; apply Z.leb_le; lia. }
  assert (Hfold : forall (xs : cstr) (d acc : Z),
            fold_left (fun a c => a * 10 + (c - ch "0")) (xs ++ [d]) acc
            = fold_left (fun a c => a * 10 + (c - ch "0")) xs acc * 10
              + (d - ch "0")).
  { intros xs d acc. rewrite fold_left_app. reflexivity. }
  assert (Hval : forall fuel m, 0 <= m < 10 ^ Z.of_nat fuel ->
            fold_left (fun a c => a * 10 + (c - ch "0"))
                      (decimal_chars fuel m) 0 = m).
  { induction fuel as [|fuel IH]; intros m Hm.
    - simpl in Hm. cbn. lia.
    - cbn [decimal_chars]. rewrite Hfold.
      change (ch "0") with 48.
      destruct (m <? 10) eqn:E.
      + apply Z.ltb_lt in E. cbn [fold_left].
        rewrite Z.mod_small by lia. lia.
      + apply Z.ltb_ge in E.
        change (ch "0") with 48 in IH. rewrite IH.
        * pose proof (Z.div_mod m 10 ltac:(lia)). lia.
        * split; [apply Z.div_pos; lia|].
          apply Z.div_lt_upper_bound; [lia|].
          rewrite Nat2Z.inj_succ, Z.pow_succ_r in Hm by lia. lia. }
  assert (Hne : decimal_chars 10 n <> []).
  { cbn [decimal_chars]. intros H. apply app_eq_nil in H.
    destruct H as [_ H]. discriminate H. }
  specialize (Hdig 10%nat n ltac:(lia)).
  specialize (Hval 10%nat n ltac:(change (10 ^ Z.of_nat 10) with 10000000000;
                                  change (2 ^ 31) with 2147483648 in Hn; lia)).
  unfold minio_rfc3986_port.
  destruct (decimal_chars 10 n) as [|d ds] eqn:D; [contradiction|].
  pose proof (Forall_inv Hdig) as Hd1. cbv beta in Hd1.
  change (ISA_DIGIT ((d :: ds) ++ rest)) with (IS_DIGIT d). rewrite Hd1.
  cbn [option_map].
  assert (Hlt : fold_left (fun a c => a * 10 + (c - ch "0")) (d :: ds) 0
                < 2 ^ 31) by (rewrite Hval; lia).
  pose proof (port_loop_digits (set_port 0 u) rest (d :: ds) 0 Hdig Hr
                (Z.le_refl 0) Hlt) as HP.
  change (set_port 0 (set_port 0 u)) with (set_port 0 u) in HP.
  rewrite HP, Hval. reflexivity.
Qed.

(** The hypotheses of X22 hold for port 8080 before a slash. *)
Lemma printed_port_example :
  0 < 8080 < 2 ^ 31
  /\ ISA_DIGIT (lit "/") = false
  /\ minio_rfc3986_port (Some minio_uri_new) (decimal_chars 10 8080 ++ lit "/")
     = Done (0, Some (set_port 8080 minio_uri_new), lit "/").
Proof.
  assert (H1 : 0 < 8080 < 2 ^ 31) by (split; reflexivity).
  assert (H2 : ISA_DIGIT (lit "/") = false) by reflexivity.
  split; [exact H1|]. split; [exact H2|].
  exact (printed_port_is_read_back minio_uri_new 8080 (lit "/") H1 H2).
Defined.

(** The hypothesis of X21 holds for a record whose path was released by
    [FREE]. *)
Lemma to_string_marker_example :
  reads_marker (set_path FREED minio_uri_new) = true
  /\ minio_uri_to_string true (Some (set_path FREED minio_uri_new)) = Fault.
Proof.
  assert (H : reads_marker (set_path FREED minio_uri_new) = true)
    by reflexivity.
  split; [exact H|].
  exact (to_string_reads_the_marker true (set_path FREED minio_uri_new) H).
Defined.

(** *** The port that does not fit *)

Lemma copy_loop_fits : forall (p : cstr) (b : sbuf),
  Forall (fun c => c <> 0) p ->
  sb_len b + Z.of_nat (length p) <= sb_max b ->
  copy_loop 0 p b = mkBuf (sb_ret b ++ p) (sb_max b).
Proof.
  induction p as [|c p IH]; intros b Hz Hl.
  - cbn [copy_loop]. rewrite app_nil_r. destruct b; reflexivity.
  - pose proof (Forall_inv Hz) as Hc. cbv beta in Hc.
    pose proof (Forall_inv_tail Hz) as Hz'.
    cbn [copy_loop]. apply Z.eqb_neq in Hc. rewrite Hc.
    cbn [length] in Hl. rewrite Nat2Z.inj_succ in Hl.
    assert (G : grow_if 0 b = b).
    { unfold grow_if. destruct (sb_len b + 0 >=? sb_max b) eqn:E;
        [|reflexivity].
      apply Z.geb_le in E. lia. }
    rewrite G, IH; [|exact Hz'|rewrite sb_len_put; cbn [put sb_max]; lia].
    cbn [put sb_ret sb_max]. rewrite <- app_assoc. reflexivity.
Qed.

Lemma decimal_chars_all_digits : forall (fuel : nat) (n : Z),
  10 ^ Z.of_nat fuel <= n ->
  length (decimal_chars (S fuel) n) = S fuel.
Proof.
  induction fuel as [|fuel IH]; intros n Hn.
  - cbn [decimal_chars]. destruct (n <? 10); reflexivity.
  - rewrite Nat2Z.inj_succ, Z.pow_succ_r in Hn by lia.
    assert (H1 : 0 < 10 ^ Z.of_nat fuel) by (apply Z.pow_pos_nonneg; lia).
    change (decimal_chars (S (S fuel)) n)
      with ((if n <? 10 then [] else decimal_chars (S fuel) (n / 10))
              ++ [ch "0" + n mod 10]).
    destruct (n <? 10) eqn:E; [apply Z.ltb_lt in E; lia|].
    rewrite length_app, IH; [cbn [length]; lia|].
    apply Z.div_le_lower_bound; lia.
Qed.

Lemma c_str_cut : forall (pre rest : cstr),
  Forall (fun c => c <> 0) pre -> c_str (pre ++ 0 :: rest) = pre.
Proof.
  induction 1 as [|c pre Hc _ IH]; [reflexivity|].
  cbn [app c_str]. apply Z.eqb_neq in Hc. rewrite Hc, IH. reflexivity.
Qed.

(** X23.  A port of ten digits can lose its last digit, and with it the
    rest of the record.  For a record without scheme, opaque part and user
    whose server is 67 chars long, the buffer of 80 bytes holds 69 bytes
    when the port is printed; the test [len + 10 >= max] does not grow it,
    [snprintf] gets room for 11 bytes, writes the colon, nine digits and
    the terminator, and returns 11.  The string returned ends after the
    ninth digit: the tenth digit, the path, the query and the fragment
    lie behind its terminator. *)
Theorem ten_digit_port_is_cut_short :
  forall (sgn : bool) (u : bURI) (host : cstr),
    scheme u = NULL -> opaque u = NULL -> user u = NULL ->
    server u = Owned host ->
    length host = 67%nat ->
    Forall (fun c => c <> 0) host ->
    is_freed (path u) = false ->
    is_freed (query u) = false ->
    is_freed (fragment u) = false ->
    10 ^ 9 <= port u < 2 ^ 31 ->
    minio_uri_to_string sgn (Some u)
    = Done (Owned (lit "//" ++ host
                   ++ ch ":" :: decimal_chars 9 (port u / 10))).
Proof.
  intros sgn u host Hs Ho Hu Hsv Hl Hz Hp Hq Hf Hn.
  change (10 ^ 9) with 1000000000 in Hn.
  change (2 ^ 31) with 2147483648 in Hn.
  assert (Hs' : is_freed (scheme u) = false) by (rewrite Hs; reflexivity).
  assert (H9 : length (decimal_chars 9 (port u / 10)) = 9%nat).
  { apply decimal_chars_all_digits.
    change (10 ^ Z.of_nat 8) with 100000000.
    apply Z.div_le_lower_bound; lia. }
  assert (Hpre : Forall (fun c => c <> 0)
                   (lit "//" ++ host
                    ++ ch ":" :: decimal_chars 9 (port u / 10))).
  { apply Forall_app. split; [repeat constructor; discriminate|].
    apply Forall_app. split; [exact Hz|].
    apply Forall_cons; [discriminate|].
    apply decimal_chars_nonzero. apply Z.div_pos; lia. }
  assert (Hserver :
    to_string_server sgn u (mkBuf [] 80)
    = Done (mkBuf ((lit "//" ++ host
                    ++ ch ":" :: decimal_chars 9 (port u / 10)) ++ [0])
                  80)).
  { unfold to_string_server. rewrite Hu, Hsv.
    cbn [is_null negb deref bind].
    change (put (ch "/") (put (ch "/") (grow_if 3 (mkBuf [] 80))))
      with (mkBuf (lit "//") 80).
    rewrite copy_loop_fits;
      [|exact Hz|unfold sb_len; cbn [sb_ret sb_max]; rewrite Hl; simpl; lia].
    cbn [sb_ret sb_max].
    assert (Hlen : length (lit "//" ++ host) = 69%nat)
      by (rewrite length_app, Hl; reflexivity).
    destruct (0 <? port u) eqn:E; [|apply Z.ltb_ge in E; lia].
    assert (G : grow_if 10 (mkBuf (lit "//" ++ host) 80)
                = mkBuf (lit "//" ++ host) 80).
    { unfold grow_if, sb_len. cbn [sb_ret sb_max]. rewrite Hlen.
      reflexivity. }
    rewrite G. unfold snprintf_port, sb_len. cbn [sb_ret sb_max].
    rewrite Hlen.
    change (decimal_chars 10 (port u))
      with ((if port u <? 10 then [] else decimal_chars 9 (port u / 10))
              ++ [ch "0" + port u mod 10]).
    destruct (port u <? 10) eqn:E10; [apply Z.ltb_lt in E10; lia|].
    assert (Ht : length (ch ":" :: decimal_chars 9 (port u / 10)
                                ++ [ch "0" + port u mod 10]) = 11%nat)
      by (cbn [length]; rewrite length_app, H9; reflexivity).
    rewrite Ht.
    change (Z.of_nat 11 <? 80 - Z.of_nat 69) with false.
    change (Z.of_nat 11 =? 80 - Z.of_nat 69) with true.
    cbv iota.
    replace (11 - 1)%nat
      with (length (ch ":" :: decimal_chars 9 (port u / 10)) + 0)%nat
      by (cbn [length]; rewrite H9; reflexivity).
    change (ch ":" :: decimal_chars 9 (port u / 10)
                   ++ [ch "0" + port u mod 10])
      with ((ch ":" :: decimal_chars 9 (port u / 10))
              ++ [ch "0" + port u mod 10]).
    rewrite firstn_app_2. cbn [firstn]. rewrite app_nil_r.
    rewrite <- !app_assoc. reflexivity. }
  unfold minio_uri_to_string, to_string_scheme, to_string_authority.
  rewrite Hs, Ho, Hsv. cbn [is_null negb bind].
  rewrite Hserver. cbn [bind].
  set (pre := lit "//" ++ host ++ ch ":" :: decimal_chars 9 (port u / 10))
    in *.
  assert (Hok : sb_ok (mkBuf (pre ++ [0]) 80)).
  { unfold sb_ok, sb_len. cbn [sb_ret sb_max]. unfold pre.
    rewrite !length_app. cbn [length]. rewrite Hl, H9. simpl. lia. }
  destruct (to_string_path_appended sgn u _ Hok Hp Hs') as (b1 & E1 & A1).
  rewrite E1. cbn [bind].
  destruct (to_string_query_appended u b1 (proj2 A1) Hq) as (b2 & E2 & A2).
  rewrite E2. cbn [bind].
  destruct (to_string_fragment_appended sgn u b2 (proj2 A2) Hf)
    as (b3 & E3 & A3).
  rewrite E3. cbn [bind].
  assert (Hret : sb_ret (grow_if 0 b3) = sb_ret b3)
    by (unfold grow_if; destruct (sb_len b3 + 0 >=? sb_max b3); reflexivity).
  rewrite Hret.
  rewrite (proj1 A3), (proj1 A2), (proj1 A1). cbn [sb_ret].
  rewrite <- !app_assoc. cbn [app].
  rewrite c_str_cut by exact Hpre. reflexivity.
Qed.

(** The hypotheses of X23 hold for a host of 67 letters with the port
    2147483647 and a path: the string returned ends in [:214748364]. *)
Lemma ten_digit_port_example :
  minio_uri_to_string true
    (Some (set_path (Owned (lit "/index"))
             (set_port 2147483647
                (set_server (Owned (repeat (ch "a") 67)) minio_uri_new))))
  = Done (Owned (lit "//" ++ repeat (ch "a") 67 ++ lit ":214748364")).
Proof.
  refine (ten_digit_port_is_cut_short true
            (set_path (Owned (lit "/index"))
               (set_port 2147483647
                  (set_server (Owned (repeat (ch "a") 67)) minio_uri_new)))
            (repeat (ch "a") 67)
            eq_refl eq_refl eq_refl eq_refl eq_refl _ eq_refl eq_refl eq_refl
            _).
  - apply Forall_forall. intros c Hc. apply repeat_spec in Hc. subst c.
    discriminate.
  - cbn [port set_path set_port]. split; [vm_compute; discriminate|reflexivity].
Defined.
